(** * Community-scoped similarity engine of [model_optimised.py]

    A shallow embedding of the Python module and of the Cypher queries it
    sends, followed by the properties of the scorer, the similarity cache
    and the top-k ranker.

    Modelling decisions, all visible in the definitions below:

    - Scores are Python floats.  [Engine] computes them as exact rationals
      [Q]: [0.1] is [1 # 10] and a comparison of floats is a comparison of
      rationals.  That is the model of what does not depend on rounding:
      which queries run and in which order, what is written where, orders
      and bounds.  The value of a score is a double, and [Binary64] repeats
      the scorer over IEEE 754 binary64 for it.
    - Identifiers are Python strings; they are modelled as [string], that is
      as sequences of code points below 256.
    - The graph database is a table of [SubjectNode] rows, a table of
      [ObjectNode] rows and one table per relationship type.  A node is
      identified by its label and its [name]; a Cypher pattern is evaluated
      as the join of the tables it mentions, rows coming out in table order.
    - A transaction handle [tx] is the database together with a trace: every
      [tx.run] appends the query it ran, and every entry into the scorer
      appends a ghost event carrying the arguments of the call.
    - Python built-ins that can raise ([/], [dict[k]], [list.remove]) are
      modelled with the exception they raise.
    - [top_k] is a Python integer and [l[:top_k]] is modelled for negative
      values too.
    - The stripping done by [str.strip] and by Neo4j's [TRIM] is modelled
      with the whitespace classes of [str.isspace] and of Java's
      [Character.isWhitespace]. *)

From Stdlib Require Import QArith Qminmax ZArith List String Ascii Lia.
From Stdlib Require Floats Uint63.
From Stdlib Require Import Sorting.Sorted Sorting.Permutation.
From stdpp Require Import gmap strings list fin_maps.

Local Open Scope string_scope.
Local Open Scope list_scope.

(** ** Python built-ins used by the module *)

Module Py.

Inductive exn : Type :=
| ZeroDivisionError
| KeyError
| ValueError.

Inductive outcome (A : Type) : Type :=
| Returns (v : A)
| Raises (e : exn).
Arguments Returns {A} v.
Arguments Raises {A} e.

(** [str.isspace] on one code point below 256. *)
Definition isspace (c : ascii) : bool :=
  let n := nat_of_ascii c in
  ((9 <=? n)%nat && (n <=? 13)%nat)
  || ((28 <=? n)%nat && (n <=? 32)%nat)
  || (n =? 133)%nat
  || (n =? 160)%nat.

Fixpoint lstrip_by (ws : ascii -> bool) (l : list ascii) : list ascii :=
  match l with
  | [] => []
  | c :: l' => if ws c then lstrip_by ws l' else l
  end.

Definition strip_by (ws : ascii -> bool) (s : string) : string :=
  string_of_list_ascii
    (rev (lstrip_by ws (rev (lstrip_by ws (list_ascii_of_string s))))).

(** [s.strip()] *)
Definition strip (s : string) : string := strip_by isspace s.

(** [min(a, b)]: the first argument unless the second is smaller. *)
Definition min (a b : Q) : Q := if Qle_bool a b then a else b.

(** [a / b] on two lengths, as the exact quotient; [Binary64.truediv] is
    the double Python returns. *)
Definition truediv (a b : nat) : outcome Q :=
  match b with
  | O => Raises ZeroDivisionError
  | S _ => Returns (Z.of_nat a # Pos.of_nat b)
  end.

(** [x in l] on a list of strings. *)
Definition contains (x : string) (l : list string) : bool :=
  existsb (String.eqb x) l.

(** [l.remove(x)]: drops the first occurrence. *)
Fixpoint remove (x : string) (l : list string) : outcome (list string) :=
  match l with
  | [] => Raises ValueError
  | y :: l' =>
      if String.eqb y x then Returns l'
      else match remove x l' with
           | Returns r => Returns (y :: r)
           | Raises e => Raises e
           end
  end.

(** [d[k]] *)
Definition getitem (d : gmap string Q) (k : string) : outcome Q :=
  match d !! k with
  | Some v => Returns v
  | None => Raises KeyError
  end.

(** [k in d] *)
Definition has_key (d : gmap string Q) (k : string) : bool :=
  match d !! k with
  | Some _ => true
  | None => false
  end.

(** [{k: v for (k, v) in rows}]: a later row overwrites an earlier one. *)
Definition dict_of (rows : list (string * Q)) : gmap string Q :=
  fold_left (fun d kv => <[fst kv := snd kv]> d) rows ∅.

Definition Qltb (a b : Q) : bool := negb (Qle_bool b a).

(** [l.sort(key=key, reverse=True)]: a stable sort into descending key
    order.  An element goes in front of the first element whose key is
    not larger than its own. *)
Fixpoint insert_desc {A : Type} (key : A -> Q) (x : A) (l : list A) : list A :=
  match l with
  | [] => [x]
  | y :: l' => if Qltb (key x) (key y) then y :: insert_desc key x l' else x :: l
  end.

Fixpoint sort_desc {A : Type} (key : A -> Q) (l : list A) : list A :=
  match l with
  | [] => []
  | x :: l' => insert_desc key x (sort_desc key l')
  end.

(** [l[:k]] *)
Definition slice_to {A : Type} (l : list A) (k : Z) : list A :=
  if (k <? 0)%Z then firstn (length l - Z.to_nat (- k)) l
  else firstn (Z.to_nat k) l.

End Py.

(** ** The graph store and the Cypher queries of the module *)

Module Cypher.

Inductive label : Type := SubjectNode | ObjectNode.

Record subject : Type := mkSubject {
  subject_name : string;
  subject_community : option Z
}.

Record similar_edge : Type := mkSimilar {
  edge_source : string;
  edge_target : string;
  edge_similarity : Q
}.

Record graph : Type := mkGraph {
  subject_nodes : list subject;
  object_nodes : list string;
  (** [RELATIONSHIP] edges: (SubjectNode name, ObjectNode name) *)
  relationships : list (string * string);
  (** [SIMILAR_TO] edges between SubjectNodes *)
  similar_to : list similar_edge
}.

(** [(n:SubjectNode {name: $nm})] *)
Definition match_subject (g : graph) (nm : string) : list subject :=
  List.filter (fun n => String.eqb (subject_name n) nm) (subject_nodes g).

(** [(obj:ObjectNode {name: nm})] *)
Definition match_object (g : graph) (nm : string) : list string :=
  List.filter (fun o => String.eqb o nm) (object_nodes g).

Definition community_is (cid : Z) (n : subject) : bool :=
  match subject_community n with
  | Some c => (c =? cid)%Z
  | None => false
  end.

(** [MATCH (n:SubjectNode) WHERE n.community = $community_id
     RETURN n.name AS trial_id] *)
Definition community_members_rows (g : graph) (cid : Z) : list string :=
  List.map subject_name (List.filter (community_is cid) (subject_nodes g)).

(** [MATCH (n:SubjectNode {name: $trial_id}) RETURN n.community] *)
Definition node_community_rows (g : graph) (trial_id : string) : list (option Z) :=
  List.map subject_community (match_subject g trial_id).

Definition is_edge (a b : string) (e : similar_edge) : bool :=
  String.eqb (edge_source e) a && String.eqb (edge_target e) b.

(** [MATCH (n1:SubjectNode {name: $trial1})-[r:SIMILAR_TO]->
           (n2:SubjectNode {name: $trial2}) RETURN r.similarity] *)
Definition cached_similarity_rows (g : graph) (trial1 trial2 : string) : list Q :=
  flat_map (fun _ : subject =>
    flat_map (fun r : similar_edge =>
      List.map (fun _ : subject => edge_similarity r) (match_subject g trial2))
      (List.filter (is_edge trial1 trial2) (similar_to g)))
    (match_subject g trial1).

(** [MATCH (n:SubjectNode {name: $trial_id})-[:RELATIONSHIP]-(obj:ObjectNode)
     RETURN obj.name AS neighbor] *)
Definition node_neighbors_rows (g : graph) (trial_id : string) : list string :=
  flat_map (fun _ : subject =>
    flat_map (fun r : string * string => match_object g (snd r))
      (List.filter (fun r => String.eqb (fst r) trial_id) (relationships g)))
    (match_subject g trial_id).

(** [MATCH (n1:SubjectNode {name: $trial_id})-[r:SIMILAR_TO]->(n2:SubjectNode)
     WHERE n2.name IN $community_members
     RETURN n2.name AS trial, r.similarity AS similarity] *)
Definition intermediate_rows (g : graph) (trial_id : string)
    (community_members : list string) : list (string * Q) :=
  flat_map (fun _ : subject =>
    flat_map (fun r : similar_edge =>
      flat_map (fun n2 : subject =>
        if Py.contains (subject_name n2) community_members
        then [(subject_name n2, edge_similarity r)] else [])
        (match_subject g (edge_target r)))
      (List.filter (fun r => String.eqb (edge_source r) trial_id) (similar_to g)))
    (match_subject g trial_id).

(** [MERGE (x)-[r:SIMILAR_TO]->(y) SET r.similarity = $similarity] for
    bound nodes named [a] and [b]: every existing edge gets the score, and
    an edge is created when there is none. *)
Definition merge_set (a b : string) (s : Q) (es : list similar_edge)
    : list similar_edge :=
  if existsb (is_edge a b) es
  then List.map (fun e => if is_edge a b e then mkSimilar a b s else e) es
  else es ++ [mkSimilar a b s].

Definition write_pair (a b : string) (s : Q) (g : graph) : graph :=
  mkGraph (subject_nodes g) (object_nodes g) (relationships g)
    (merge_set b a s (merge_set a b s (similar_to g))).

(** [MATCH (n1:SubjectNode {name: $trial1}), (n2:SubjectNode {name: $trial2})]:
    the rows the two MERGE and SET clauses run on. *)
Definition endpoint_rows (g : graph) (trial1 trial2 : string)
    : list (subject * subject) :=
  flat_map (fun n1 => List.map (fun n2 => (n1, n2)) (match_subject g trial2))
    (match_subject g trial1).

(** The whole query of [create_similarity_relationship]. *)
Definition create_similarity (g : graph) (trial1 trial2 : string) (s : Q) : graph :=
  fold_left (fun g' _ => write_pair trial1 trial2 s g')
    (endpoint_rows g trial1 trial2) g.

(** Neo4j's [TRIM]: strips [Character.isWhitespace] code points. *)
Definition is_whitespace (c : ascii) : bool :=
  let n := nat_of_ascii c in
  ((9 <=? n)%nat && (n <=? 13)%nat) || ((28 <=? n)%nat && (n <=? 32)%nat).

Definition TRIM (s : string) : string := Py.strip_by is_whitespace s.

(** [MATCH (n:{label} {name: TRIM($node_name)}) RETURN COUNT(n) > 0] *)
Definition node_exists_row (g : graph) (node_name : string) (l : label) : bool :=
  match l with
  | SubjectNode => (0 <? length (match_subject g (TRIM node_name)))%nat
  | ObjectNode => (0 <? length (match_object g (TRIM node_name)))%nat
  end.

(** [result.single()]: the first record, or [None] when there is none. *)
Definition single {A : Type} (rows : list A) : option A := List.hd_error rows.

End Cypher.

(** ** Transactions: the database, a trace, and Python exceptions *)

Module Tx.
Import Py Cypher.

(** One constructor per query text of the module, with its parameters. *)
Inductive query : Type :=
| QCommunityMembers (community_id : Z)
| QNodeCommunity (trial_id : string)
| QCreateSimilarity (trial1 trial2 : string) (similarity : Q)
| QCachedSimilarity (trial1 trial2 : string)
| QNodeNeighbors (trial_id : string)
| QIntermediate (trial_id : string) (community_members : list string)
| QNodeExists (node_name : string) (l : label).

Inductive event : Type :=
| Run (q : query)
| Score (trial1 trial2 : string) (community_members : list string).

Record tx : Type := mkTx {
  db : graph;
  trace : list event
}.

Definition M (A : Type) : Type := tx -> outcome A * tx.

Definition ret {A : Type} (v : A) : M A := fun t => (Returns v, t).

Definition bind {A B : Type} (m : M A) (f : A -> M B) : M B :=
  fun t =>
    match m t with
    | (Returns v, t') => f v t'
    | (Raises e, t') => (Raises e, t')
    end.

Definition lift {A : Type} (o : outcome A) : M A := fun t => (o, t).

Definition emit (e : event) : M unit :=
  fun t => (Returns tt, mkTx (db t) (trace t ++ [e])).

(** [tx.run(query, ...)] for a query that only reads. *)
Definition run_read {A : Type} (q : query) (rows : graph -> A) : M A :=
  fun t => (Returns (rows (db t)), mkTx (db t) (trace t ++ [Run q])).

(** [tx.run(query, ...)] for a query that updates the graph. *)
Definition run_write (q : query) (upd : graph -> graph) : M unit :=
  fun t => (Returns tt, mkTx (upd (db t)) (trace t ++ [Run q])).

End Tx.

Declare Scope tx_scope.
Delimit Scope tx_scope with tx.
Notation "'let*' x := m 'in' k" := (Tx.bind m (fun x => k))
  (at level 10, x name, m at level 100, k at level 200) : tx_scope.

(** ** The functions of [model_optimised.py] *)

Module Engine.
Import Py Cypher Tx.
Local Open Scope tx_scope.

Definition get_community_members (community_id : Z) : M (list string) :=
  run_read (QCommunityMembers community_id)
    (fun g => community_members_rows g community_id).

Definition get_node_community (trial_id : string) : M (option Z) :=
  run_read (QNodeCommunity trial_id)
    (fun g => match single (node_community_rows g trial_id) with
              | Some community => community
              | None => None
              end).

Definition create_similarity_relationship (trial1 trial2 : string)
    (similarity : Q) : M unit :=
  run_write (QCreateSimilarity trial1 trial2 similarity)
    (fun g => create_similarity g trial1 trial2 similarity).

Definition cached_similarity (g : graph) (trial1 trial2 : string) : option Q :=
  single (cached_similarity_rows g trial1 trial2).

Definition get_cached_similarity (trial1 trial2 : string) : M (option Q) :=
  run_read (QCachedSimilarity trial1 trial2)
    (fun g => cached_similarity g trial1 trial2).

Definition node_neighbors (g : graph) (trial_id : string) : gset string :=
  list_to_set (node_neighbors_rows g trial_id).

Definition get_node_neighbors (trial_id : string) : M (gset string) :=
  run_read (QNodeNeighbors trial_id) (fun g => node_neighbors g trial_id).

Definition get_intermediate_similarities (trial_id : string)
    (community_members : list string) : M (gmap string Q) :=
  run_read (QIntermediate trial_id community_members)
    (fun g => dict_of (intermediate_rows g trial_id community_members)).

(** The [for intermediate_trial in community_members] loop of the scorer;
    [boost_factor] is the accumulator.  The sum is exact here;
    [Binary64.boost_loop] adds doubles. *)
Fixpoint boost_loop (trial1 trial2 : string) (intermediate_sims : gmap string Q)
    (community_members : list string) (boost_factor : Q) : M Q :=
  match community_members with
  | [] => ret boost_factor
  | intermediate_trial :: rest =>
      if String.eqb intermediate_trial trial1 || String.eqb intermediate_trial trial2
      then boost_loop trial1 trial2 intermediate_sims rest boost_factor
      else
        let* sim_to_intermediate :=
          (if has_key intermediate_sims intermediate_trial
           then let* v := lift (getitem intermediate_sims intermediate_trial) in ret (Some v)
           else get_cached_similarity trial1 intermediate_trial) in
        match sim_to_intermediate with
        | None => boost_loop trial1 trial2 intermediate_sims rest boost_factor
        | Some sim =>
            let* other_sim := get_cached_similarity trial2 intermediate_trial in
            match other_sim with
            | Some other =>
                boost_loop trial1 trial2 intermediate_sims rest
                  (boost_factor + Py.min sim other * (1 # 10))%Q
            | None => boost_loop trial1 trial2 intermediate_sims rest boost_factor
            end
        end
  end.

(** The scorer, with exact arithmetic; [Binary64.compute_optimized_jaccard]
    is the scorer on doubles, and gives the value of a score. *)
Definition compute_optimized_jaccard (trial1 trial2 : string)
    (community_members : list string) (intermediate_sims : gmap string Q) : M Q :=
  let* _ := emit (Score trial1 trial2 community_members) in
  let* cached_sim := get_cached_similarity trial1 trial2 in
  match cached_sim with
  | Some cached => ret cached
  | None =>
      let* neighbors1 := get_node_neighbors trial1 in
      let* neighbors2 := get_node_neighbors trial2 in
      let intersection := neighbors1 ∩ neighbors2 in
      let union := neighbors1 ∪ neighbors2 in
      let* similarity :=
        (if (size union =? 0)%nat then ret 0%Q
         else
           let* base_jaccard := lift (truediv (size intersection) (size union)) in
           let* boost_factor :=
             boost_loop trial1 trial2 intermediate_sims community_members 0%Q in
           ret (Py.min 1%Q (base_jaccard + boost_factor)%Q)) in
      let* _ := create_similarity_relationship trial1 trial2 similarity in
      ret similarity
  end.

(** [{"trial": ..., "similarity": ...}] *)
Record entry : Type := mkEntry {
  trial : string;
  similarity : Q
}.

(** The [for other_trial in community_members] loop of the ranker;
    [similarities] is the list being appended to. *)
Fixpoint score_loop (trial_id : string) (community_members : list string)
    (intermediate_sims : gmap string Q) (todo : list string)
    (similarities : list entry) : M (list entry) :=
  match todo with
  | [] => ret similarities
  | other_trial :: rest =>
      let* s := compute_optimized_jaccard trial_id other_trial community_members
             intermediate_sims in
      score_loop trial_id community_members intermediate_sims rest
        (similarities ++ [mkEntry other_trial s])
  end.

Definition find_similar_trials_optimized (trial_id : string) (top_k : Z)
    : M (list entry) :=
  let* community_id := get_node_community trial_id in
  match community_id with
  | None => ret []
  | Some cid =>
      let* members := get_community_members cid in
      let* community_members :=
        (if contains trial_id members then lift (Py.remove trial_id members)
         else ret members) in
      let* intermediate_sims := get_intermediate_similarities trial_id community_members in
      let* similarities :=
        score_loop trial_id community_members intermediate_sims community_members [] in
      ret (slice_to (sort_desc similarity similarities) top_k)
  end.

Definition check_node_exists (node_name : string) (l : label) : M bool :=
  run_read (QNodeExists (strip node_name) l)
    (fun g => node_exists_row g (strip node_name) l).

(** What the query step of [main] prints for one entered identifier
    (lines 184 to 199). *)
Inductive printed : Type :=
| NodeDoesNotExist (trial_id : string)
| TopSimilar (similar_trials : list entry)
| NoSimilarTrialsFound.

(** The query step of [main]: lines 184 to 199, from the prompt to the
    report, on the store as the clustering before the prompt has left it.
    The two transaction functions run one after the other on that store.
    The step is modelled for runs in which the driver completes both
    calls; the projection and the clustering that [main] runs first, and
    its exception handlers, are not part of it. *)
Definition main_query (trial_id : string) : M printed :=
  let* node_exists := check_node_exists trial_id SubjectNode in
  if negb node_exists then ret (NodeDoesNotExist trial_id)
  else
    let* similar_trials := find_similar_trials_optimized trial_id 10 in
    match similar_trials with
    | [] => ret NoSimilarTrialsFound
    | _ :: _ => ret (TopSimilar similar_trials)
    end.

End Engine.

(** ** The vocabulary of the statements

    First the scoring formula in the words of the specification, to be
    compared with what the scorer computes; then the predicates on stores,
    rankings and traces that the statements use. *)

Module Spec.
Import Py Cypher Tx Engine.

(** [sim(a, m)]: the caller's precomputed map when it has [m], otherwise a
    cache-only lookup. *)
Definition sim_to (g : graph) (sims : gmap string Q) (a m : string) : option Q :=
  match sims !! m with
  | Some x => Some x
  | None => cached_similarity g a m
  end.

(** The contribution of one community member to the boost, when it has
    one. *)
Definition boost_term (g : graph) (sims : gmap string Q) (a b m : string)
    : option Q :=
  if String.eqb m a || String.eqb m b then None
  else match sim_to g sims a m, cached_similarity g b m with
       | Some x, Some y => Some (Qmin x y * (1 # 10))%Q
       | _, _ => None
       end.

Definition Qsum (l : list Q) : Q := fold_right Qplus 0%Q l.

(** [B] *)
Definition boost (g : graph) (sims : gmap string Q) (a b : string)
    (members : list string) : Q :=
  Qsum (omap (boost_term g sims a b) members).

(** [|I| / |U|] *)
Definition jaccard (n1 n2 : gset string) : Q :=
  (inject_Z (Z.of_nat (size (n1 ∩ n2))) / inject_Z (Z.of_nat (size (n1 ∪ n2))))%Q.

(** [min(1.0, |I|/|U| + B)] *)
Definition score (g : graph) (a b : string) (members : list string)
    (sims : gmap string Q) : Q :=
  Qmin 1 (jaccard (node_neighbors g a) (node_neighbors g b)
          + boost g sims a b members)%Q.

Definition bounded (x : Q) : Prop := (0 <= x /\ x <= 1)%Q.

Definition bounded_store (g : graph) : Prop :=
  Forall (fun e => bounded (edge_similarity e)) (similar_to g).

Definition bounded_sims (sims : gmap string Q) : Prop :=
  forall m x, sims !! m = Some x -> bounded x.

(** Every pair of scores that enters the boost of [(a, b)] lies in
    [0, 1]. *)
Definition consulted_bounded (g : graph) (sims : gmap string Q) (a b : string)
    (members : list string) : Prop :=
  forall m x y,
    In m members ->
    String.eqb m a || String.eqb m b = false ->
    sim_to g sims a m = Some x ->
    cached_similarity g b m = Some y ->
    bounded x /\ bounded y.

Definition exists_subject (g : graph) (nm : string) : Prop :=
  match_subject g nm <> [].

(** Every [a -> b] edge of [es] carries [s], and there is one. *)
Definition written (a b : string) (s : Q) (es : list similar_edge) : Prop :=
  existsb (is_edge a b) es = true /\
  Forall (fun e => is_edge a b e = true -> edge_similarity e = s) es.

(** [x] may stand in front of [y] in a ranking that descends by [key]. *)
Definition key_ge {A : Type} (key : A -> Q) (x y : A) : Prop :=
  (key y <= key x)%Q.

(** The key of [x] is [v]. *)
Definition key_is {A : Type} (key : A -> Q) (v : Q) (x : A) : bool :=
  Qeq_bool (key x) v.

Definition descending : entry -> entry -> Prop := key_ge similarity.

Definition has_score : Q -> entry -> bool := key_is similarity.

(** The ranking has at most [k] entries, for every store, query and
    [k] (specification, section 4.4). *)
Definition length_at_most_k : Prop :=
  forall (t : tx) (trial_id : string) (k : Z) (res : list entry),
    fst (find_similar_trials_optimized trial_id k t) = Returns res ->
    (Z.of_nat (length res) <= k)%Z.

(** [l] without its first occurrence of [x]. *)
Fixpoint without_first (x : string) (l : list string) : list string :=
  match l with
  | [] => []
  | y :: l' => if String.eqb y x then l' else y :: without_first x l'
  end.

(** The candidates of a query: the members of its community in the order
    the store gives them, without the first occurrence of the query
    itself; none when the query has no community. *)
Definition candidates (g : graph) (trial_id : string) : list string :=
  match single (node_community_rows g trial_id) with
  | Some (Some cid) => without_first trial_id (community_members_rows g cid)
  | _ => []
  end.

(** The list [similarities] of the ranker as it is just before the sort
    (empty when the query has no community). *)
Definition similarities_before_sort (trial_id : string) : M (list entry) :=
  (let* community_id := get_node_community trial_id in
   match community_id with
   | None => ret []
   | Some cid =>
       let* members := get_community_members cid in
       let* community_members :=
         (if contains trial_id members then lift (Py.remove trial_id members)
          else ret members) in
       let* intermediate_sims :=
         get_intermediate_similarities trial_id community_members in
       score_loop trial_id community_members intermediate_sims community_members []
   end)%tx.

Definition is_cache_read (e : event) : bool :=
  match e with
  | Run (QCachedSimilarity _ _) => true
  | _ => false
  end.

Definition is_neighbor_lookup (e : event) : bool :=
  match e with
  | Run (QNodeNeighbors _) => true
  | _ => false
  end.

Definition is_cache_write (e : event) : bool :=
  match e with
  | Run (QCreateSimilarity _ _ _) => true
  | _ => false
  end.

Definition is_scoring (e : event) : bool :=
  match e with
  | Score _ _ _ => true
  | _ => false
  end.

(** The member list a scorer call was entered with is [members]. *)
Definition scored_with (members : list string) (e : event) : Prop :=
  match e with
  | Score _ _ members' => members' = members
  | Run _ => True
  end.

(** The member list a scorer call was entered with does not hold [q]. *)
Definition scored_without (q : string) (e : event) : Prop :=
  match e with
  | Score _ _ members => ~ In q members
  | Run _ => True
  end.

(** [l] does not begin with a character of the class [ws]. *)
Definition starts_clean (ws : ascii -> bool) (l : list ascii) : Prop :=
  match l with
  | [] => True
  | c :: _ => ws c = false
  end.

(** A write with a missing endpoint fails (specification, section 4.2). *)
Definition write_fails_on_missing_endpoint : Prop :=
  forall (t : tx) (a b : string) (s : Q),
    match_subject (db t) a = [] \/ match_subject (db t) b = [] ->
    exists e, fst (create_similarity_relationship a b s t) = Raises e.

(** [input] is [nm] with whitespace added in front, behind, or both. *)
Definition padded (input nm : string) : Prop :=
  exists l r : list ascii,
    Forall (fun c => isspace c = true) l /\
    Forall (fun c => isspace c = true) r /\
    (l <> [] \/ r <> []) /\
    input = (string_of_list_ascii l ++ nm ++ string_of_list_ascii r)%string.

(** An existing name padded with whitespace passes the existence check
    and then yields the empty result. *)
Definition padded_name_passes_check : Prop :=
  forall (t : tx) (nm input : string),
    exists_subject (db t) nm ->
    padded input nm ->
    fst (check_node_exists input SubjectNode t) = Returns true /\
    fst (main_query input t) = Returns NoSimilarTrialsFound.

End Spec.

(** ** Concrete stores *)

Module Examples.
Import Py Cypher Tx Engine.

(** The example scenario of the specification: A, B and C in community 1. *)
Definition abc : graph :=
  mkGraph
    [mkSubject "A" (Some 1%Z); mkSubject "B" (Some 1%Z); mkSubject "C" (Some 1%Z)]
    ["x"; "y"; "z"]
    [("A", "x"); ("A", "y"); ("B", "y"); ("B", "z")]
    [].

Definition abc_tx : tx := mkTx abc [].

(** A store in which [A -- C] and [B -- C] are already cached. *)
Definition warm : graph :=
  mkGraph
    [mkSubject "A" (Some 1%Z); mkSubject "B" (Some 1%Z); mkSubject "C" (Some 1%Z)]
    ["x"; "y"]
    [("A", "x"); ("B", "x"); ("B", "y")]
    [mkSimilar "A" "C" (1 # 2); mkSimilar "C" "A" (1 # 2);
     mkSimilar "B" "C" (1 # 4); mkSimilar "C" "B" (1 # 4)].

Definition warm_tx : tx := mkTx warm [].

(** Two trials without neighbors, both already compared with a third. *)
Definition isolated : tx :=
  mkTx (mkGraph
          [mkSubject "P" (Some 1%Z); mkSubject "Q" (Some 1%Z);
           mkSubject "M" (Some 1%Z)]
          [] []
          [mkSimilar "P" "M" (1 # 2); mkSimilar "M" "P" (1 # 2);
           mkSimilar "Q" "M" (1 # 2); mkSimilar "M" "Q" (1 # 2)])
       [].

(** A community in which two candidates score 0 and two score 1. *)
Definition ties : tx :=
  mkTx (mkGraph
          [mkSubject "Q" (Some 7%Z); mkSubject "M1" (Some 7%Z);
           mkSubject "M2" (Some 7%Z); mkSubject "M3" (Some 7%Z);
           mkSubject "M4" (Some 7%Z)]
          ["x"; "y"]
          [("Q", "x"); ("M1", "y"); ("M2", "x"); ("M3", "y"); ("M4", "x")]
          [])
       [].

(** A store that breaks the uniqueness of names: two trials are named A. *)
Definition twins : tx :=
  mkTx (mkGraph
          [mkSubject "A" (Some 1%Z); mkSubject "A" (Some 1%Z);
           mkSubject "B" (Some 1%Z)]
          [] [] [])
       [].

(** A store whose only trial has no community yet. *)
Definition unclustered : tx :=
  mkTx (mkGraph [mkSubject "A" None] ["x"] [("A", "x")] []) [].

(** A store whose only trial name starts with a space. *)
Definition spaced : tx :=
  mkTx (mkGraph [mkSubject " A" (Some 1%Z)] [] [] []) [].

End Examples.

(** ** Further vocabulary: properties of the store the engine keeps *)

Module Store.
Import Py Cypher Tx Engine Spec.

(** The two directions of every pair read the same. *)
Definition symmetric_store (g : graph) : Prop :=
  forall c d, cached_similarity g c d = cached_similarity g d c.

(** All [SIMILAR_TO] edges between the same two names carry one score. *)
Definition consistent_store (g : graph) : Prop :=
  forall e e',
    In e (similar_to g) -> In e' (similar_to g) ->
    edge_source e = edge_source e' -> edge_target e = edge_target e' ->
    edge_similarity e = edge_similarity e'.

(** [g'] has the nodes and the [RELATIONSHIP] edges of [g]. *)
Definition same_structure (g g' : graph) : Prop :=
  subject_nodes g' = subject_nodes g /\
  object_nodes g' = object_nodes g /\
  relationships g' = relationships g.

(** Every [a -> b] edge of [es] is the edge the write makes, and there is
    one. *)
Definition settled (a b : string) (s : Q) (es : list similar_edge) : Prop :=
  existsb (is_edge a b) es = true /\
  forall e, In e es -> is_edge a b e = true -> e = mkSimilar a b s.

(** The community a trial is looked up to be in. *)
Definition node_community (g : graph) (trial_id : string) : option Z :=
  match single (node_community_rows g trial_id) with
  | Some community => community
  | None => None
  end.

(** Every entry of [l] is what the cache holds for the query [q] and the
    trial of the entry. *)
Definition all_cached (g : graph) (q : string) (l : list entry) : Prop :=
  Forall (fun e => cached_similarity g q (trial e) = Some (similarity e)) l.

(** The events of a ranking loop that finds every pair in the cache. *)
Definition replay_events (q : string) (ms : list string) (l : list entry)
    : list event :=
  flat_map (fun e => [Score q (trial e) ms; Run (QCachedSimilarity q (trial e))]) l.

(** An event that scores, looks neighbors up or writes. *)
Definition is_work (e : event) : bool :=
  is_scoring e || is_neighbor_lookup e || is_cache_write e.

Definition is_query (e : event) : bool :=
  match e with
  | Run _ => true
  | Score _ _ _ => false
  end.

(** The number of [tx.run] calls among the events [ev]. *)
Definition queries_run (ev : list event) : nat :=
  length (List.filter is_query ev).

(** The value the boost loop of the scorer accumulates, read off the
    loop: the look-up of [sim(trial1, m)] goes through the map first. *)
Fixpoint boost_fold (g : graph) (trial1 trial2 : string) (sims : gmap string Q)
    (members : list string) (boost_factor : Q) : Q :=
  match members with
  | [] => boost_factor
  | m :: rest =>
      if String.eqb m trial1 || String.eqb m trial2
      then boost_fold g trial1 trial2 sims rest boost_factor
      else match sim_to g sims trial1 m with
           | None => boost_fold g trial1 trial2 sims rest boost_factor
           | Some v =>
               match cached_similarity g trial2 m with
               | Some o =>
                   boost_fold g trial1 trial2 sims rest
                     (boost_factor + Py.min v o * (1 # 10))%Q
               | None => boost_fold g trial1 trial2 sims rest boost_factor
               end
           end
  end.

(** Every entry of the map is what the cache holds for [q] and the key. *)
Definition agrees_with_cache (g : graph) (q : string) (sims : gmap string Q) : Prop :=
  forall m x, sims !! m = Some x -> cached_similarity g q m = Some x.

Definition unique_names (g : graph) : Prop :=
  List.NoDup (List.map subject_name (subject_nodes g)).

End Store.

Module MoreExamples.
Import Py Cypher Tx Engine Examples.

(** A store with a one-directional cached score. *)
Definition lopsided : tx :=
  mkTx (mkGraph
          [mkSubject "A" (Some 1%Z); mkSubject "B" (Some 1%Z);
           mkSubject "C" (Some 1%Z)]
          ["x"; "y"]
          [("A", "x"); ("B", "x"); ("C", "y")]
          [mkSimilar "A" "C" (1 # 5)])
       [].

(** A store with two [A -> B] edges that carry different scores. *)
Definition doubled : tx :=
  mkTx (mkGraph [mkSubject "A" (Some 1%Z); mkSubject "B" (Some 1%Z)] [] []
          [mkSimilar "A" "B" (1 # 2); mkSimilar "A" "B" (1 # 4)])
       [].

(** A trial that is alone in its community. *)
Definition lone : tx :=
  mkTx (mkGraph [mkSubject "A" (Some 1%Z); mkSubject "B" (Some 2%Z)]
          ["x"] [("A", "x"); ("B", "x")] [])
       [].

(** The store of the example scenario after [A] has been queried. *)
Definition abc_queried : tx := snd (find_similar_trials_optimized "A" 10 abc_tx).

End MoreExamples.

(** ** The scorer in double precision

    A Python float is an IEEE 754 binary64 number, and so is a float
    property of the store.  The functions the value of a score passes
    through are repeated here over [float], the binary64 numbers of the
    kernel, whose operations round to nearest, ties to even, as the
    operations of CPython and of the store do: the cache read, the neighbor
    lookup, the cache write and the scorer.  The control flow is the one of
    [Engine]; only the numbers differ. *)

Module Binary64.
Import Py Cypher PrimFloat.

(** The literal [0.1]: the double nearest to one tenth. *)
Definition tenth : float := 0x1.999999999999ap-4%float.

(** [min(a, b)]: the first argument unless the second is smaller. *)
Definition min (a b : float) : float := if PrimFloat.ltb b a then b else a.

(** [float(n)] for a length [n].  The conversion is exact below [2^53]. *)
Definition of_len (n : nat) : float :=
  PrimFloat.of_uint63 (Uint63.of_Z (Z.of_nat n)).

(** [a / b] on two lengths.  Python rounds the exact quotient once; for
    lengths below [2^53] that is the quotient of the two converted
    lengths. *)
Definition truediv (a b : nat) : outcome float :=
  match b with
  | O => Raises ZeroDivisionError
  | S _ => Returns (PrimFloat.div (of_len a) (of_len b))
  end.

(** [d[k]] *)
Definition getitem (d : gmap string float) (k : string) : outcome float :=
  match d !! k with
  | Some v => Returns v
  | None => Raises KeyError
  end.

(** [k in d] *)
Definition has_key (d : gmap string float) (k : string) : bool :=
  match d !! k with
  | Some _ => true
  | None => false
  end.

(** *** The store, with [similarity] a double *)

Record similar_edge : Type := mkSimilar {
  edge_source : string;
  edge_target : string;
  edge_similarity : float
}.

Record graph : Type := mkGraph {
  subject_nodes : list subject;
  object_nodes : list string;
  (** [RELATIONSHIP] edges: (SubjectNode name, ObjectNode name) *)
  relationships : list (string * string);
  (** [SIMILAR_TO] edges between SubjectNodes *)
  similar_to : list similar_edge
}.

(** [(n:SubjectNode {name: $nm})] *)
Definition match_subject (g : graph) (nm : string) : list subject :=
  List.filter (fun n => String.eqb (subject_name n) nm) (subject_nodes g).

(** [(obj:ObjectNode {name: nm})] *)
Definition match_object (g : graph) (nm : string) : list string :=
  List.filter (fun o => String.eqb o nm) (object_nodes g).

Definition is_edge (a b : string) (e : similar_edge) : bool :=
  String.eqb (edge_source e) a && String.eqb (edge_target e) b.

(** [MATCH (n1:SubjectNode {name: $trial1})-[r:SIMILAR_TO]->
           (n2:SubjectNode {name: $trial2}) RETURN r.similarity] *)
Definition cached_similarity_rows (g : graph) (trial1 trial2 : string)
    : list float :=
  flat_map (fun _ : subject =>
    flat_map (fun r : similar_edge =>
      List.map (fun _ : subject => edge_similarity r) (match_subject g trial2))
      (List.filter (is_edge trial1 trial2) (similar_to g)))
    (match_subject g trial1).

(** [MATCH (n:SubjectNode {name: $trial_id})-[:RELATIONSHIP]-(obj:ObjectNode)
     RETURN obj.name AS neighbor] *)
Definition node_neighbors_rows (g : graph) (trial_id : string) : list string :=
  flat_map (fun _ : subject =>
    flat_map (fun r : string * string => match_object g (snd r))
      (List.filter (fun r => String.eqb (fst r) trial_id) (relationships g)))
    (match_subject g trial_id).

(** [MERGE (x)-[r:SIMILAR_TO]->(y) SET r.similarity = $similarity] *)
Definition merge_set (a b : string) (s : float) (es : list similar_edge)
    : list similar_edge :=
  if existsb (is_edge a b) es
  then List.map (fun e => if is_edge a b e then mkSimilar a b s else e) es
  else es ++ [mkSimilar a b s].

Definition write_pair (a b : string) (s : float) (g : graph) : graph :=
  mkGraph (subject_nodes g) (object_nodes g) (relationships g)
    (merge_set b a s (merge_set a b s (similar_to g))).

(** [MATCH (n1:SubjectNode {name: $trial1}), (n2:SubjectNode {name: $trial2})] *)
Definition endpoint_rows (g : graph) (trial1 trial2 : string)
    : list (subject * subject) :=
  flat_map (fun n1 => List.map (fun n2 => (n1, n2)) (match_subject g trial2))
    (match_subject g trial1).

(** The whole query of [create_similarity_relationship]. *)
Definition create_similarity (g : graph) (trial1 trial2 : string) (s : float)
    : graph :=
  fold_left (fun g' _ => write_pair trial1 trial2 s g')
    (endpoint_rows g trial1 trial2) g.

(** *** Transactions *)

Inductive query : Type :=
| QCreateSimilarity (trial1 trial2 : string) (similarity : float)
| QCachedSimilarity (trial1 trial2 : string)
| QNodeNeighbors (trial_id : string).

Inductive event : Type :=
| Run (q : query)
| Score (trial1 trial2 : string) (community_members : list string).

Record tx : Type := mkTx {
  db : graph;
  trace : list event
}.

Definition M (A : Type) : Type := tx -> outcome A * tx.

Definition ret {A : Type} (v : A) : M A := fun t => (Returns v, t).

Definition bind {A B : Type} (m : M A) (f : A -> M B) : M B :=
  fun t =>
    match m t with
    | (Returns v, t') => f v t'
    | (Raises e, t') => (Raises e, t')
    end.

Definition lift {A : Type} (o : outcome A) : M A := fun t => (o, t).

Definition emit (e : event) : M unit :=
  fun t => (Returns tt, mkTx (db t) (trace t ++ [e])).

(** [tx.run(query, ...)] for a query that only reads. *)
Definition run_read {A : Type} (q : query) (rows : graph -> A) : M A :=
  fun t => (Returns (rows (db t)), mkTx (db t) (trace t ++ [Run q])).

(** [tx.run(query, ...)] for a query that updates the graph. *)
Definition run_write (q : query) (upd : graph -> graph) : M unit :=
  fun t => (Returns tt, mkTx (upd (db t)) (trace t ++ [Run q])).

Local Notation "'let*' x := m 'in' k" := (bind m (fun x => k))
  (at level 10, x name, m at level 100, k at level 200).

(** *** The functions of [model_optimised.py] *)

Definition create_similarity_relationship (trial1 trial2 : string)
    (similarity : float) : M unit :=
  run_write (QCreateSimilarity trial1 trial2 similarity)
    (fun g => create_similarity g trial1 trial2 similarity).

Definition cached_similarity (g : graph) (trial1 trial2 : string) : option float :=
  single (cached_similarity_rows g trial1 trial2).

Definition get_cached_similarity (trial1 trial2 : string) : M (option float) :=
  run_read (QCachedSimilarity trial1 trial2)
    (fun g => cached_similarity g trial1 trial2).

Definition node_neighbors (g : graph) (trial_id : string) : gset string :=
  list_to_set (node_neighbors_rows g trial_id).

Definition get_node_neighbors (trial_id : string) : M (gset string) :=
  run_read (QNodeNeighbors trial_id) (fun g => node_neighbors g trial_id).

(** The [for intermediate_trial in community_members] loop of the scorer;
    [boost_factor] is the accumulator. *)
Fixpoint boost_loop (trial1 trial2 : string) (intermediate_sims : gmap string float)
    (community_members : list string) (boost_factor : float) : M float :=
  match community_members with
  | [] => ret boost_factor
  | intermediate_trial :: rest =>
      if String.eqb intermediate_trial trial1 || String.eqb intermediate_trial trial2
      then boost_loop trial1 trial2 intermediate_sims rest boost_factor
      else
        let* sim_to_intermediate :=
          (if has_key intermediate_sims intermediate_trial
           then let* v := lift (getitem intermediate_sims intermediate_trial) in ret (Some v)
           else get_cached_similarity trial1 intermediate_trial) in
        match sim_to_intermediate with
        | None => boost_loop trial1 trial2 intermediate_sims rest boost_factor
        | Some sim =>
            let* other_sim := get_cached_similarity trial2 intermediate_trial in
            match other_sim with
            | Some other =>
                boost_loop trial1 trial2 intermediate_sims rest
                  (PrimFloat.add boost_factor (PrimFloat.mul (min sim other) tenth))
            | None => boost_loop trial1 trial2 intermediate_sims rest boost_factor
            end
        end
  end.

Definition compute_optimized_jaccard (trial1 trial2 : string)
    (community_members : list string) (intermediate_sims : gmap string float)
    : M float :=
  let* _ := emit (Score trial1 trial2 community_members) in
  let* cached_sim := get_cached_similarity trial1 trial2 in
  match cached_sim with
  | Some cached => ret cached
  | None =>
      let* neighbors1 := get_node_neighbors trial1 in
      let* neighbors2 := get_node_neighbors trial2 in
      let intersection := neighbors1 ∩ neighbors2 in
      let union := neighbors1 ∪ neighbors2 in
      let* similarity :=
        (if (size union =? 0)%nat then ret 0%float
         else
           let* base_jaccard := lift (truediv (size intersection) (size union)) in
           let* boost_factor :=
             boost_loop trial1 trial2 intermediate_sims community_members 0%float in
           ret (min 1%float (PrimFloat.add base_jaccard boost_factor))) in
      let* _ := create_similarity_relationship trial1 trial2 similarity in
      ret similarity
  end.

(** *** The scoring formula in the words of the specification, evaluated
    in double precision *)

(** [sim(a, m)]: the caller's precomputed map when it has [m], otherwise a
    cache-only lookup. *)
Definition sim_to (g : graph) (sims : gmap string float) (a m : string)
    : option float :=
  match sims !! m with
  | Some x => Some x
  | None => cached_similarity g a m
  end.

(** The contribution of one community member to the boost, when it has
    one: [min(sim(a,m), sim(b,m)) * 0.1]. *)
Definition boost_term (g : graph) (sims : gmap string float) (a b m : string)
    : option float :=
  if String.eqb m a || String.eqb m b then None
  else match sim_to g sims a m, cached_similarity g b m with
       | Some x, Some y => Some (PrimFloat.mul (min x y) tenth)
       | _, _ => None
       end.

(** The sum of a list of doubles, added up from [0.0] in list order. *)
Definition fsum (l : list float) : float := fold_left PrimFloat.add l 0%float.

(** [B]: the contributions of the members, summed in member order. *)
Definition boost (g : graph) (sims : gmap string float) (a b : string)
    (members : list string) : float :=
  fsum (omap (boost_term g sims a b) members).

(** [|I| / |U|] *)
Definition jaccard (n1 n2 : gset string) : float :=
  PrimFloat.div (of_len (size (n1 ∩ n2))) (of_len (size (n1 ∪ n2))).

(** [min(1.0, |I|/|U| + B)] *)
Definition score (g : graph) (a b : string) (members : list string)
    (sims : gmap string float) : float :=
  min 1%float
    (PrimFloat.add (jaccard (node_neighbors g a) (node_neighbors g b))
       (boost g sims a b members)).

(** The lengths [a / b] is modelled for. *)
Definition exact_length (n : nat) : Prop := (Z.of_nat n < 2 ^ 53)%Z.

Definition exists_subject (g : graph) (nm : string) : Prop :=
  match_subject g nm <> [].

(** Every [a -> b] edge of [es] carries [s], and there is one. *)
Definition written (a b : string) (s : float) (es : list similar_edge) : Prop :=
  existsb (is_edge a b) es = true /\
  Forall (fun e => is_edge a b e = true -> edge_similarity e = s) es.

Definition is_cache_read (e : event) : bool :=
  match e with
  | Run (QCachedSimilarity _ _) => true
  | _ => false
  end.

(** *** Concrete stores *)

(** Q and Y share one neighbor of five, and both are already compared
    with M, at 1.0. *)
Definition rounding : tx :=
  mkTx (mkGraph
          [mkSubject "Q" (Some 1%Z); mkSubject "Y" (Some 1%Z);
           mkSubject "M" (Some 1%Z)]
          ["a"; "b"; "c"; "d"; "e"]
          [("Q", "a"); ("Y", "a"); ("Y", "b"); ("Y", "c"); ("Y", "d"); ("Y", "e")]
          [mkSimilar "Q" "M" 1%float; mkSimilar "M" "Q" 1%float;
           mkSimilar "Y" "M" 1%float; mkSimilar "M" "Y" 1%float])
       [].

End Binary64.

(** ** Facts about the Python built-ins *)

Module PyFacts.
Import Py.

Lemma min_is_Qmin (a b : Q) : Py.min a b = Qmin a b.
Proof.
  unfold Py.min, Qmin, GenericMinMax.gmin.
  destruct (Qle_bool a b) eqn:E.
  - apply Qle_bool_iff in E. pose proof (proj1 (Qle_alt a b) E) as C.
    destruct (a ?= b)%Q; [reflexivity | reflexivity | congruence].
  - destruct (a ?= b)%Q eqn:C; [ | | reflexivity].
    + assert (H : (a <= b)%Q) by (apply (proj2 (Qle_alt a b)); congruence).
      apply Qle_bool_iff in H. congruence.
    + assert (H : (a <= b)%Q) by (apply (proj2 (Qle_alt a b)); congruence).
      apply Qle_bool_iff in H. congruence.
Qed.

Lemma truediv_is_division (a b : nat) :
  b <> O ->
  (Z.of_nat a # Pos.of_nat b == inject_Z (Z.of_nat a) / inject_Z (Z.of_nat b))%Q.
Proof.
  intros Hb. rewrite (Qmake_Qdiv (Z.of_nat a) (Pos.of_nat b)).
  replace (Z.pos (Pos.of_nat b)) with (Z.of_nat b); [reflexivity | ].
  destruct b; [congruence | ]. lia.
Qed.

End PyFacts.

(** ** Facts about the queries *)

Module CypherFacts.
Import Py Cypher Spec.

Lemma flat_map_const_nil {A B : Type} (l : list A) :
  flat_map (fun _ : A => @nil B) l = [].
Proof. induction l as [ | x l IH]; simpl; [reflexivity | exact IH]. Qed.

Lemma hd_flat_map_const {A B : Type} (l : list A) (rows : list B) :
  l <> [] -> hd_error (flat_map (fun _ : A => rows) l) = hd_error rows.
Proof.
  destruct l as [ | x l]; [congruence | intros _; simpl].
  destruct rows as [ | r rows]; simpl; [ | reflexivity].
  rewrite flat_map_const_nil. reflexivity.
Qed.

Lemma hd_flat_map_copies {A B C : Type} (f : A -> C) (es : list A) (l : list B) :
  l <> [] ->
  hd_error (flat_map (fun r : A => List.map (fun _ : B => f r) l) es)
  = hd_error (List.map f es).
Proof.
  destruct l as [ | x l]; [congruence | intros _].
  destruct es as [ | e es]; reflexivity.
Qed.

(** The cached score of a pair is the score of the first [SIMILAR_TO] edge
    between two existing endpoints. *)
Lemma single_cached_rows (g : graph) (a b : string) :
  match_subject g a <> [] -> match_subject g b <> [] ->
  single (cached_similarity_rows g a b)
  = hd_error (List.map edge_similarity (List.filter (is_edge a b) (similar_to g))).
Proof.
  intros Ha Hb. unfold single, cached_similarity_rows.
  rewrite (hd_flat_map_const _ _ Ha). apply hd_flat_map_copies. exact Hb.
Qed.

Lemma cached_rows_no_source (g : graph) (a b : string) :
  match_subject g a = [] -> cached_similarity_rows g a b = [].
Proof. intros H. unfold cached_similarity_rows. rewrite H. reflexivity. Qed.

Lemma cached_rows_no_target (g : graph) (a b : string) :
  match_subject g b = [] -> cached_similarity_rows g a b = [].
Proof.
  intros H. unfold cached_similarity_rows. rewrite H. simpl.
  rewrite flat_map_const_nil. apply flat_map_const_nil.
Qed.

Lemma cached_rows_from_edges (g : graph) (a b : string) (x : Q) :
  In x (cached_similarity_rows g a b) ->
  exists e, In e (similar_to g) /\ edge_similarity e = x.
Proof.
  unfold cached_similarity_rows. intros H.
  apply in_flat_map in H. destruct H as [_ [_ H]].
  apply in_flat_map in H. destruct H as [e [He H]].
  apply in_map_iff in H. destruct H as [_ [Hx _]].
  apply filter_In in He. destruct He as [He _].
  exists e. split; assumption.
Qed.

(** *** MERGE ... SET *)

Lemma is_edge_made (a b : string) (s : Q) : is_edge a b (mkSimilar a b s) = true.
Proof. unfold is_edge. simpl. rewrite !String.eqb_refl. reflexivity. Qed.

Lemma is_edge_same (a b c d : string) (e : similar_edge) :
  is_edge a b e = true -> is_edge c d e = true -> a = c /\ b = d.
Proof.
  unfold is_edge. intros H1 H2.
  apply andb_true_iff in H1. destruct H1 as [H1 H1'].
  apply andb_true_iff in H2. destruct H2 as [H2 H2'].
  apply String.eqb_eq in H1, H1', H2, H2'. split; congruence.
Qed.

Lemma merge_set_written (a b : string) (s : Q) (es : list similar_edge) :
  written a b s (merge_set a b s es).
Proof.
  unfold written, merge_set. destruct (existsb (is_edge a b) es) eqn:E.
  - split.
    + apply existsb_exists in E. destruct E as [e [He Hab]].
      apply existsb_exists. exists (mkSimilar a b s). split.
      * apply in_map_iff. exists e. rewrite Hab. split; [reflexivity | exact He].
      * apply is_edge_made.
    + apply List.Forall_forall. intros e' He'. apply in_map_iff in He'.
      destruct He' as [e [Heq He]]. subst e'.
      destruct (is_edge a b e) eqn:Hab; [reflexivity | congruence].
  - split.
    + rewrite existsb_app. simpl. rewrite is_edge_made.
      rewrite orb_true_r. reflexivity.
    + apply Forall_app. split.
      * apply List.Forall_forall. intros e He Hab.
        assert (X : existsb (is_edge a b) es = true)
          by (apply existsb_exists; exists e; split; assumption).
        congruence.
      * constructor; [reflexivity | constructor].
Qed.

Lemma merge_set_keeps_written (a b c d : string) (s : Q) (es : list similar_edge) :
  written a b s es -> written a b s (merge_set c d s es).
Proof.
  unfold written, merge_set. intros [Hex Hall].
  destruct (existsb (is_edge c d) es) eqn:E.
  - split.
    + apply existsb_exists in Hex. destruct Hex as [e [He Hab]].
      apply existsb_exists.
      destruct (is_edge c d e) eqn:Hcd.
      * destruct (is_edge_same _ _ _ _ _ Hab Hcd) as [-> ->].
        exists (mkSimilar c d s). split; [ | apply is_edge_made].
        apply in_map_iff. exists e. rewrite Hcd. split; [reflexivity | exact He].
      * exists e. split; [ | exact Hab].
        apply in_map_iff. exists e. rewrite Hcd. split; [reflexivity | exact He].
    + apply List.Forall_forall. intros e' He'. apply in_map_iff in He'.
      destruct He' as [e [Heq He]]. subst e'.
      destruct (is_edge c d e) eqn:Hcd; [reflexivity | ].
      rewrite List.Forall_forall in Hall. apply Hall. exact He.
  - split.
    + rewrite existsb_app, Hex. reflexivity.
    + apply Forall_app. split; [exact Hall | ].
      constructor; [reflexivity | constructor].
Qed.

Lemma written_first (a b : string) (s : Q) (es : list similar_edge) :
  written a b s es ->
  hd_error (List.map edge_similarity (List.filter (is_edge a b) es)) = Some s.
Proof.
  intros [Hex Hall]. induction es as [ | e es IH]; simpl in *; [discriminate | ].
  inversion Hall as [ | ? ? He Hes]; subst.
  destruct (is_edge a b e) eqn:Hab; simpl.
  - rewrite He; reflexivity.
  - apply IH; assumption.
Qed.

Lemma merge_set_bounded (P : Q -> Prop) (a b : string) (s : Q)
    (es : list similar_edge) :
  P s -> Forall (fun e => P (edge_similarity e)) es ->
  Forall (fun e => P (edge_similarity e)) (merge_set a b s es).
Proof.
  intros Hs Hes. unfold merge_set. destruct (existsb (is_edge a b) es).
  - apply List.Forall_forall. intros e' He'. apply in_map_iff in He'.
    destruct He' as [e [Heq He]]. subst e'.
    destruct (is_edge a b e); [exact Hs | ].
    rewrite List.Forall_forall in Hes. apply Hes. exact He.
  - apply Forall_app. split; [exact Hes | ]. constructor; [exact Hs | constructor].
Qed.

(** *** The write query as a whole *)

Lemma fold_const_last {A B : Type} (f : A -> A) (rows : list B) (x : A) :
  rows <> [] ->
  exists y, fold_left (fun acc _ => f acc) rows x = f y.
Proof.
  revert x. induction rows as [ | r rows IH]; intros x H; [congruence | ].
  simpl. destruct rows as [ | r' rows].
  - exists x. reflexivity.
  - apply IH. discriminate.
Qed.

Lemma fold_const_invariant {A B : Type} (P : A -> Prop) (f : A -> A)
    (rows : list B) (x : A) :
  (forall y, P y -> P (f y)) -> P x -> P (fold_left (fun acc _ => f acc) rows x).
Proof.
  intros Hf. revert x. induction rows as [ | r rows IH]; intros x Hx; simpl.
  - exact Hx.
  - apply IH, Hf, Hx.
Qed.

Lemma endpoint_rows_nil (g : graph) (a b : string) :
  match_subject g a = [] \/ match_subject g b = [] -> endpoint_rows g a b = [].
Proof.
  unfold endpoint_rows. intros [H | H]; rewrite H; simpl; [reflexivity | ].
  apply flat_map_const_nil.
Qed.

Lemma endpoint_rows_cons (g : graph) (a b : string) :
  match_subject g a <> [] -> match_subject g b <> [] -> endpoint_rows g a b <> [].
Proof.
  unfold endpoint_rows. intros Ha Hb.
  destruct (match_subject g a) as [ | n1 l1]; [congruence | ].
  destruct (match_subject g b) as [ | n2 l2]; [congruence | ].
  simpl. discriminate.
Qed.

Lemma create_similarity_missing (g : graph) (a b : string) (s : Q) :
  match_subject g a = [] \/ match_subject g b = [] ->
  create_similarity g a b s = g.
Proof.
  intros H. unfold create_similarity. rewrite (endpoint_rows_nil g a b H).
  reflexivity.
Qed.

Lemma create_similarity_nodes (g : graph) (a b : string) (s : Q) :
  subject_nodes (create_similarity g a b s) = subject_nodes g /\
  object_nodes (create_similarity g a b s) = object_nodes g /\
  relationships (create_similarity g a b s) = relationships g.
Proof.
  unfold create_similarity.
  apply (fold_const_invariant
           (fun g' => subject_nodes g' = subject_nodes g /\
                      object_nodes g' = object_nodes g /\
                      relationships g' = relationships g)).
  - intros y Hy. exact Hy.
  - repeat split.
Qed.

Lemma match_subject_create (g : graph) (a b nm : string) (s : Q) :
  match_subject (create_similarity g a b s) nm = match_subject g nm.
Proof.
  unfold match_subject.
  destruct (create_similarity_nodes g a b s) as [-> _]. reflexivity.
Qed.

Lemma create_similarity_written (g : graph) (a b : string) (s : Q) :
  match_subject g a <> [] -> match_subject g b <> [] ->
  written a b s (similar_to (create_similarity g a b s)) /\
  written b a s (similar_to (create_similarity g a b s)).
Proof.
  intros Ha Hb. unfold create_similarity.
  destruct (fold_const_last (write_pair a b s) (endpoint_rows g a b) g
              (endpoint_rows_cons g a b Ha Hb)) as [y ->].
  simpl. split.
  - apply merge_set_keeps_written, merge_set_written.
  - apply merge_set_written.
Qed.

Lemma create_similarity_bounded (P : Q -> Prop) (g : graph) (a b : string) (s : Q) :
  P s -> Forall (fun e => P (edge_similarity e)) (similar_to g) ->
  Forall (fun e => P (edge_similarity e)) (similar_to (create_similarity g a b s)).
Proof.
  intros Hs Hg. unfold create_similarity.
  apply (fold_const_invariant
           (fun g' => Forall (fun e => P (edge_similarity e)) (similar_to g'))).
  - intros y Hy. simpl. apply merge_set_bounded; [exact Hs | ].
    apply merge_set_bounded; assumption.
  - exact Hg.
Qed.

End CypherFacts.

(** ** The scorer *)

Module ScorerFacts.
Import Py Cypher Tx Engine Spec PyFacts CypherFacts.

Lemma tx_eta (t : tx) : mkTx (db t) (trace t ++ []) = t.
Proof. destruct t as [g tr]. simpl. rewrite app_nil_r. reflexivity. Qed.

Ltac norm_trace := rewrite <- ?app_assoc in *; cbn [app] in *.

Ltac run_step :=
  unfold bind, ret, lift, emit, get_cached_similarity, get_node_neighbors,
    create_similarity_relationship, run_read, run_write; simpl.

Ltac tidy := repeat (progress (cbn [db trace Nat.eqb app]; rewrite <- ?app_assoc)).

Ltac run_cbn :=
  unfold bind, ret, lift, emit, get_cached_similarity, get_node_neighbors,
    create_similarity_relationship, run_read, run_write; cbn [db trace].

Section Boost.
Variables (trial1 trial2 : string) (sims : gmap string Q).

Lemma boost_nil (g : graph) : boost g sims trial1 trial2 [] = 0%Q.
Proof. reflexivity. Qed.

Lemma boost_cons (g : graph) (m : string) (rest : list string) :
  boost g sims trial1 trial2 (m :: rest)
  = match boost_term g sims trial1 trial2 m with
    | Some x => (x + boost g sims trial1 trial2 rest)%Q
    | None => boost g sims trial1 trial2 rest
    end.
Proof.
  unfold boost. simpl. destruct (boost_term g sims trial1 trial2 m); reflexivity.
Qed.

(** The loop only reads the cache, returns, and adds up the terms of
    [Spec.boost]. *)
Lemma boost_loop_run (members : list string) :
  forall (acc : Q) (t : tx),
  exists (r : Q) (ev : list event),
    boost_loop trial1 trial2 sims members acc t
    = (Returns r, mkTx (db t) (trace t ++ ev)) /\
    (r == acc + boost (db t) sims trial1 trial2 members)%Q /\
    Forall (fun e => is_cache_read e = true) ev.
Proof.
  induction members as [ | m rest IH]; intros acc t.
  - exists acc, []. simpl. unfold ret. rewrite tx_eta.
    split; [reflexivity | split; [ | constructor]].
    rewrite boost_nil. ring.
  - cbn [boost_loop]. rewrite boost_cons. unfold boost_term.
    destruct (String.eqb m trial1 || String.eqb m trial2) eqn:Hskip.
    { apply IH. }
    unfold sim_to, has_key, getitem.
    destruct (sims !! m) as [v | ] eqn:Hv; run_step.
    + destruct (cached_similarity (db t) trial2 m) as [o | ] eqn:Ho.
      * destruct (IH (acc + Py.min v o * (1 # 10))%Q
                    (mkTx (db t) (trace t ++ [Run (QCachedSimilarity trial2 m)])))
          as [r [ev [Hrun [Hr Hev]]]].
        cbn [db trace] in Hrun, Hr. norm_trace.
        exists r, (Run (QCachedSimilarity trial2 m) :: ev).
        split; [exact Hrun | split; [ | constructor; [reflexivity | exact Hev]]].
        rewrite Hr, min_is_Qmin. ring.
      * destruct (IH acc
                    (mkTx (db t) (trace t ++ [Run (QCachedSimilarity trial2 m)])))
          as [r [ev [Hrun [Hr Hev]]]].
        cbn [db trace] in Hrun, Hr. norm_trace.
        exists r, (Run (QCachedSimilarity trial2 m) :: ev).
        split; [exact Hrun | split; [exact Hr | ]].
        constructor; [reflexivity | exact Hev].
    + destruct (cached_similarity (db t) trial1 m) as [v | ] eqn:Hc; run_step.
      * destruct (cached_similarity (db t) trial2 m) as [o | ] eqn:Ho.
        -- destruct (IH (acc + Py.min v o * (1 # 10))%Q
                      (mkTx (db t)
                         ((trace t ++ [Run (QCachedSimilarity trial1 m)])
                            ++ [Run (QCachedSimilarity trial2 m)])))
             as [r [ev [Hrun [Hr Hev]]]].
           cbn [db trace] in Hrun, Hr. norm_trace.
           exists r, (Run (QCachedSimilarity trial1 m)
                        :: Run (QCachedSimilarity trial2 m) :: ev).
           split; [exact Hrun | split].
           ++ rewrite Hr, min_is_Qmin. ring.
           ++ repeat constructor. exact Hev.
        -- destruct (IH acc
                      (mkTx (db t)
                         ((trace t ++ [Run (QCachedSimilarity trial1 m)])
                            ++ [Run (QCachedSimilarity trial2 m)])))
             as [r [ev [Hrun [Hr Hev]]]].
           cbn [db trace] in Hrun, Hr. norm_trace.
           exists r, (Run (QCachedSimilarity trial1 m)
                        :: Run (QCachedSimilarity trial2 m) :: ev).
           split; [exact Hrun | split; [exact Hr | ]].
           repeat constructor. exact Hev.
      * destruct (IH acc
                    (mkTx (db t) (trace t ++ [Run (QCachedSimilarity trial1 m)])))
          as [r [ev [Hrun [Hr Hev]]]].
        cbn [db trace] in Hrun, Hr. norm_trace.
        exists r, (Run (QCachedSimilarity trial1 m) :: ev).
        split; [exact Hrun | split; [exact Hr | ]].
        constructor; [reflexivity | exact Hev].
Qed.

End Boost.

Section Scorer.
Variables (trial1 trial2 : string) (members : list string)
          (sims : gmap string Q).

Lemma compute_hit (t : tx) (c : Q) :
  cached_similarity (db t) trial1 trial2 = Some c ->
  compute_optimized_jaccard trial1 trial2 members sims t
  = (Returns c,
     mkTx (db t)
       (trace t ++ [Score trial1 trial2 members;
                    Run (QCachedSimilarity trial1 trial2)])).
Proof.
  intros H. unfold compute_optimized_jaccard. run_cbn. rewrite H. cbn [db trace].
  norm_trace. reflexivity.
Qed.

Lemma compute_miss_empty (t : tx) :
  cached_similarity (db t) trial1 trial2 = None ->
  size (node_neighbors (db t) trial1 ∪ node_neighbors (db t) trial2) = O ->
  compute_optimized_jaccard trial1 trial2 members sims t
  = (Returns 0%Q,
     mkTx (create_similarity (db t) trial1 trial2 0%Q)
       (trace t ++ [Score trial1 trial2 members;
                    Run (QCachedSimilarity trial1 trial2);
                    Run (QNodeNeighbors trial1);
                    Run (QNodeNeighbors trial2);
                    Run (QCreateSimilarity trial1 trial2 0%Q)])).
Proof.
  intros H HU. unfold compute_optimized_jaccard. run_cbn. rewrite H. cbn [db trace].
  rewrite HU. tidy. reflexivity.
Qed.

Lemma compute_miss (t : tx) :
  cached_similarity (db t) trial1 trial2 = None ->
  size (node_neighbors (db t) trial1 ∪ node_neighbors (db t) trial2) <> O ->
  exists (r : Q) (ev : list event),
    compute_optimized_jaccard trial1 trial2 members sims t
    = (Returns r,
       mkTx (create_similarity (db t) trial1 trial2 r)
         (trace t ++ [Score trial1 trial2 members;
                      Run (QCachedSimilarity trial1 trial2);
                      Run (QNodeNeighbors trial1);
                      Run (QNodeNeighbors trial2)]
                  ++ ev ++ [Run (QCreateSimilarity trial1 trial2 r)])) /\
    (r == score (db t) trial1 trial2 members sims)%Q /\
    Forall (fun e => is_cache_read e = true) ev.
Proof.
  intros H HU. unfold compute_optimized_jaccard. run_cbn. rewrite H. cbn [db trace].
  destruct (size (node_neighbors (db t) trial1 ∪ node_neighbors (db t) trial2))
    as [ | n] eqn:Hn; [congruence | ].
  cbn [Nat.eqb truediv].
  destruct (boost_loop_run trial1 trial2 sims members 0%Q
              (mkTx (db t)
                 ((((trace t ++ [Score trial1 trial2 members])
                      ++ [Run (QCachedSimilarity trial1 trial2)])
                     ++ [Run (QNodeNeighbors trial1)])
                    ++ [Run (QNodeNeighbors trial2)])))
    as [bf [ev [Hrun [Hbf Hev]]]].
  cbn [db trace] in Hrun, Hbf. rewrite Hrun. cbn [db trace].
  eexists. exists ev. split; [ | split; [ | exact Hev]].
  - tidy. reflexivity.
  - unfold score, jaccard. rewrite min_is_Qmin, Hbf, Hn.
    rewrite (truediv_is_division _ (S n)) by discriminate.
    apply Q.min_compat; [reflexivity | ring].
Qed.

(** The scorer always returns; it enters itself once and the graph it
    leaves is the old one or the old one with the pair written. *)
Lemma compute_run (t : tx) :
  exists (r : Q) (g' : graph) (ev : list event),
    compute_optimized_jaccard trial1 trial2 members sims t
    = (Returns r, mkTx g' (trace t ++ Score trial1 trial2 members :: ev)) /\
    Forall (fun e => is_scoring e = false) ev /\
    ((g' = db t /\ cached_similarity (db t) trial1 trial2 = Some r) \/
     (g' = create_similarity (db t) trial1 trial2 r /\
      cached_similarity (db t) trial1 trial2 = None)).
Proof.
  destruct (cached_similarity (db t) trial1 trial2) as [c | ] eqn:Hc.
  - exists c, (db t), [Run (QCachedSimilarity trial1 trial2)].
    split; [apply compute_hit; exact Hc | split].
    + repeat constructor.
    + left. split; reflexivity.
  - destruct (Nat.eq_dec
                (size (node_neighbors (db t) trial1 ∪ node_neighbors (db t) trial2))
                O) as [HU | HU].
    + eexists _, _, _. split; [apply compute_miss_empty; assumption | split].
      * repeat constructor.
      * right. split; reflexivity.
    + destruct (compute_miss t Hc HU) as [r [ev [Hrun [_ Hev]]]].
      exists r, (create_similarity (db t) trial1 trial2 r).
      eexists. split; [rewrite Hrun; cbn [app]; reflexivity | split].
      * repeat constructor. apply Forall_app. split.
        -- eapply Forall_impl; [exact Hev | ].
           intros [q | ? ? ?]; simpl; [reflexivity | discriminate].
        -- repeat constructor.
      * right. split; reflexivity.
Qed.

End Scorer.

End ScorerFacts.

(** ** The similarity cache *)

Module Cache.
Import Py Cypher Tx Engine Spec PyFacts CypherFacts Examples.

Lemma cached_after_create (g : graph) (a b : string) (s : Q) :
  exists_subject g a -> exists_subject g b ->
  cached_similarity (create_similarity g a b s) a b = Some s /\
  cached_similarity (create_similarity g a b s) b a = Some s.
Proof.
  unfold exists_subject, cached_similarity. intros Ha Hb.
  destruct (create_similarity_written g a b s Ha Hb) as [Hab Hba].
  split.
  - rewrite single_cached_rows by (rewrite match_subject_create; assumption).
    apply written_first. exact Hab.
  - rewrite single_cached_rows by (rewrite match_subject_create; assumption).
    apply written_first. exact Hba.
Qed.

Lemma cached_missing_endpoint (g : graph) (a b : string) :
  match_subject g a = [] \/ match_subject g b = [] ->
  cached_similarity g a b = None /\ cached_similarity g b a = None.
Proof.
  unfold cached_similarity. intros [H | H].
  - rewrite (cached_rows_no_source g a b H), (cached_rows_no_target g b a H).
    split; reflexivity.
  - rewrite (cached_rows_no_target g a b H), (cached_rows_no_source g b a H).
    split; reflexivity.
Qed.

Lemma cached_bounded (g : graph) (a b : string) (x : Q) :
  bounded_store g -> cached_similarity g a b = Some x -> bounded x.
Proof.
  unfold bounded_store, cached_similarity, single. intros Hg Hx.
  assert (Hin : In x (cached_similarity_rows g a b)).
  { destruct (cached_similarity_rows g a b) as [ | y rows]; [discriminate | ].
    simpl in Hx. injection Hx as ->. left. reflexivity. }
  destruct (cached_rows_from_edges g a b x Hin) as [e [He <-]].
  rewrite List.Forall_forall in Hg. apply Hg. exact He.
Qed.

(** C3: every cache write is symmetric.  After
    [create_similarity_relationship(a, b, s)] the two directions of the
    pair read the same, and when both endpoints are SubjectNodes of the
    store, so that a score is written, both read [s]. *)
Theorem write_is_symmetric (t : tx) (a b : string) (s : Q) :
  let t' := snd (create_similarity_relationship a b s t) in
  fst (get_cached_similarity a b t') = fst (get_cached_similarity b a t') /\
  (exists_subject (db t) a -> exists_subject (db t) b ->
   fst (get_cached_similarity a b t') = Returns (Some s) /\
   fst (get_cached_similarity b a t') = Returns (Some s)).
Proof.
  cbn. split.
  - destruct (match_subject (db t) a) as [ | n1 l1] eqn:Ha.
    { rewrite create_similarity_missing by (left; exact Ha).
      destruct (cached_missing_endpoint (db t) a b (or_introl Ha)) as [-> ->].
      reflexivity. }
    destruct (match_subject (db t) b) as [ | n2 l2] eqn:Hb.
    { rewrite create_similarity_missing by (right; exact Hb).
      destruct (cached_missing_endpoint (db t) a b (or_intror Hb)) as [-> ->].
      reflexivity. }
    assert (Ha' : exists_subject (db t) a) by (unfold exists_subject; congruence).
    assert (Hb' : exists_subject (db t) b) by (unfold exists_subject; congruence).
    destruct (cached_after_create (db t) a b s Ha' Hb') as [-> ->]. reflexivity.
  - intros Ha Hb.
    destruct (cached_after_create (db t) a b s Ha Hb) as [-> ->].
    split; reflexivity.
Qed.

Lemma write_is_symmetric_witness :
  exists_subject (db abc_tx) "A" /\ exists_subject (db abc_tx) "B" /\
  let t' := snd (create_similarity_relationship "A" "B" (1 # 3) abc_tx) in
  fst (get_cached_similarity "A" "B" t') = Returns (Some (1 # 3)%Q) /\
  fst (get_cached_similarity "B" "A" t') = Returns (Some (1 # 3)%Q).
Proof.
  assert (Ha : exists_subject (db abc_tx) "A") by (vm_compute; discriminate).
  assert (Hb : exists_subject (db abc_tx) "B") by (vm_compute; discriminate).
  split; [exact Ha | split; [exact Hb | ]].
  exact (proj2 (write_is_symmetric abc_tx "A" "B" (1 # 3)) Ha Hb).
Defined.

(** C8, as the code behaves: a write whose endpoint is missing matches
    no row.  It returns normally, leaves the graph as it was, and the pair
    then reads as a plain cache miss. *)
Theorem write_to_missing_endpoint_is_silent (t : tx) (a b : string) (s : Q) :
  match_subject (db t) a = [] \/ match_subject (db t) b = [] ->
  create_similarity_relationship a b s t
  = (Returns tt, mkTx (db t) (trace t ++ [Run (QCreateSimilarity a b s)])) /\
  fst (get_cached_similarity a b
         (snd (create_similarity_relationship a b s t))) = Returns None.
Proof.
  intros H.
  unfold create_similarity_relationship, get_cached_similarity, run_write, run_read.
  cbn [fst snd db trace]. rewrite (create_similarity_missing (db t) a b s H).
  destruct (cached_missing_endpoint (db t) a b H) as [-> _].
  split; reflexivity.
Qed.

Lemma write_to_missing_endpoint_is_silent_witness :
  (match_subject (db abc_tx) "A" = [] \/ match_subject (db abc_tx) "NCT_NOPE" = []) /\
  create_similarity_relationship "A" "NCT_NOPE" (1 # 2) abc_tx
  = (Returns tt, mkTx abc [Run (QCreateSimilarity "A" "NCT_NOPE" (1 # 2))]) /\
  fst (get_cached_similarity "A" "NCT_NOPE"
         (snd (create_similarity_relationship "A" "NCT_NOPE" (1 # 2) abc_tx)))
  = Returns None.
Proof.
  assert (H : match_subject (db abc_tx) "A" = []
              \/ match_subject (db abc_tx) "NCT_NOPE" = [])
    by (right; reflexivity).
  split; [exact H | ].
  exact (write_to_missing_endpoint_is_silent abc_tx "A" "NCT_NOPE" (1 # 2) H).
Defined.

(** C8 as the specification states it does not hold: writing a pair
    whose second endpoint is not in the store returns normally and changes
    nothing. *)
Lemma write_to_missing_endpoint_does_not_fail :
  match_subject (db abc_tx) "NCT_NOPE" = [] /\
  create_similarity_relationship "A" "NCT_NOPE" (1 # 2) abc_tx
  = (Returns tt, mkTx abc [Run (QCreateSimilarity "A" "NCT_NOPE" (1 # 2))]) /\
  ~ write_fails_on_missing_endpoint.
Proof.
  split; [reflexivity | split; [reflexivity | ]].
  intros H.
  destruct (H abc_tx "A" "NCT_NOPE" (1 # 2)%Q) as [e He]; [right; reflexivity | ].
  discriminate He.
Qed.

End Cache.

(** ** Properties of the scorer *)

Module Scorer.
Import Py Cypher Tx Engine Spec PyFacts CypherFacts ScorerFacts Cache Examples.

Lemma union_size_nonzero (n1 n2 : gset string) :
  n1 ∪ n2 <> ∅ -> size (n1 ∪ n2) <> O.
Proof.
  intros H Hsz. apply H. apply leibniz_equiv. apply size_empty_inv. exact Hsz.
Qed.

(** C2: on a cache hit the scorer returns the cached value unchanged; the
    graph is untouched and the only query it runs is the cache read, so no
    neighbor lookup and no write happens. *)
Theorem cache_hit_is_authoritative (t : tx) (a b : string)
    (members : list string) (sims : gmap string Q) (c : Q) :
  cached_similarity (db t) a b = Some c ->
  fst (compute_optimized_jaccard a b members sims t) = Returns c /\
  db (snd (compute_optimized_jaccard a b members sims t)) = db t /\
  exists ev,
    trace (snd (compute_optimized_jaccard a b members sims t)) = trace t ++ ev /\
    ev = [Score a b members; Run (QCachedSimilarity a b)] /\
    Forall (fun e => is_neighbor_lookup e = false /\ is_cache_write e = false) ev.
Proof.
  intros H. rewrite (compute_hit a b members sims t c H). cbn [fst snd db trace].
  split; [reflexivity | split; [reflexivity | ]].
  eexists. split; [reflexivity | split; [reflexivity | ]].
  repeat constructor.
Qed.

Lemma cache_hit_is_authoritative_witness :
  cached_similarity (db warm_tx) "A" "C" = Some (1 # 2)%Q /\
  fst (compute_optimized_jaccard "A" "C" ["B"; "C"] ∅ warm_tx) = Returns (1 # 2)%Q /\
  db (snd (compute_optimized_jaccard "A" "C" ["B"; "C"] ∅ warm_tx)) = db warm_tx /\
  exists ev,
    trace (snd (compute_optimized_jaccard "A" "C" ["B"; "C"] ∅ warm_tx))
    = trace warm_tx ++ ev /\
    ev = [Score "A" "C" ["B"; "C"]; Run (QCachedSimilarity "A" "C")] /\
    Forall (fun e => is_neighbor_lookup e = false /\ is_cache_write e = false) ev.
Proof.
  assert (H : cached_similarity (db warm_tx) "A" "C" = Some (1 # 2)%Q) by reflexivity.
  split; [exact H | ].
  exact (cache_hit_is_authoritative warm_tx "A" "C" ["B"; "C"] ∅ (1 # 2) H).
Defined.

(** C5: on a cache miss with two empty neighbor sets the scorer returns
    exactly 0: it does not raise, it reads no intermediate similarity, and
    it writes 0 for the pair. *)
Theorem empty_union_scores_zero (t : tx) (a b : string) (members : list string)
    (sims : gmap string Q) :
  cached_similarity (db t) a b = None ->
  node_neighbors (db t) a = ∅ ->
  node_neighbors (db t) b = ∅ ->
  compute_optimized_jaccard a b members sims t
  = (Returns 0%Q,
     mkTx (create_similarity (db t) a b 0%Q)
       (trace t ++ [Score a b members;
                    Run (QCachedSimilarity a b);
                    Run (QNodeNeighbors a);
                    Run (QNodeNeighbors b);
                    Run (QCreateSimilarity a b 0%Q)])).
Proof.
  intros Hmiss Ha Hb. apply compute_miss_empty; [exact Hmiss | ].
  rewrite Ha, Hb, (left_id_L ∅ (∪)). apply size_empty.
Qed.

Lemma empty_union_scores_zero_witness :
  cached_similarity (db isolated) "P" "Q" = None /\
  node_neighbors (db isolated) "P" = ∅ /\
  node_neighbors (db isolated) "Q" = ∅ /\
  compute_optimized_jaccard "P" "Q" ["Q"; "M"] ∅ isolated
  = (Returns 0%Q,
     mkTx (create_similarity (db isolated) "P" "Q" 0%Q)
       (trace isolated ++ [Score "P" "Q" ["Q"; "M"];
                           Run (QCachedSimilarity "P" "Q");
                           Run (QNodeNeighbors "P");
                           Run (QNodeNeighbors "Q");
                           Run (QCreateSimilarity "P" "Q" 0%Q)])).
Proof.
  assert (H1 : cached_similarity (db isolated) "P" "Q" = None) by reflexivity.
  assert (H2 : node_neighbors (db isolated) "P" = ∅) by reflexivity.
  assert (H3 : node_neighbors (db isolated) "Q" = ∅) by reflexivity.
  split; [exact H1 | split; [exact H2 | split; [exact H3 | ]]].
  exact (empty_union_scores_zero isolated "P" "Q" ["Q"; "M"] ∅ H1 H2 H3).
Defined.

(** *** Boundedness *)

Lemma bounded_Qeq (x y : Q) : (x == y)%Q -> bounded y -> bounded x.
Proof. unfold bounded. intros H [H0 H1]. rewrite H. split; assumption. Qed.

Lemma sim_to_bounded (g : graph) (sims : gmap string Q) (a m : string) (x : Q) :
  bounded_store g -> bounded_sims sims -> sim_to g sims a m = Some x -> bounded x.
Proof.
  unfold sim_to. intros Hg Hs H. destruct (sims !! m) as [v | ] eqn:Hv.
  - injection H as <-. apply (Hs m v Hv).
  - apply (cached_bounded g a m x Hg H).
Qed.

Lemma store_bounded_consulted (g : graph) (sims : gmap string Q) (a b : string)
    (members : list string) :
  bounded_store g -> bounded_sims sims -> consulted_bounded g sims a b members.
Proof.
  intros Hg Hs m x y _ _ Hx Hy. split.
  - exact (sim_to_bounded g sims a m x Hg Hs Hx).
  - exact (cached_bounded g b m y Hg Hy).
Qed.

Lemma boost_term_nonneg (g : graph) (sims : gmap string Q) (a b : string)
    (members : list string) (m : string) (x : Q) :
  consulted_bounded g sims a b members -> In m members ->
  boost_term g sims a b m = Some x -> (0 <= x)%Q.
Proof.
  unfold boost_term. intros Hc Hm H.
  destruct (String.eqb m a || String.eqb m b) eqn:Hskip; [discriminate | ].
  destruct (sim_to g sims a m) as [v | ] eqn:Hv; [ | discriminate].
  destruct (cached_similarity g b m) as [o | ] eqn:Ho; [ | discriminate].
  injection H as <-.
  destruct (Hc m v o Hm Hskip Hv Ho) as [[Hv0 _] [Ho0 _]].
  apply Qmult_le_0_compat; [ | discriminate].
  apply Q.min_glb; assumption.
Qed.

Lemma boost_nonneg (g : graph) (sims : gmap string Q) (a b : string)
    (members : list string) :
  consulted_bounded g sims a b members -> (0 <= boost g sims a b members)%Q.
Proof.
  intros Hc.
  assert (H : forall ms, (forall m, In m ms -> In m members) ->
                         (0 <= boost g sims a b ms)%Q).
  { induction ms as [ | m rest IH]; intros Hsub.
    - rewrite boost_nil. apply Qle_refl.
    - assert (Hrest : (0 <= boost g sims a b rest)%Q)
        by (apply IH; intros m' Hm'; apply Hsub; right; exact Hm').
      rewrite boost_cons. destruct (boost_term g sims a b m) as [x | ] eqn:Hx.
      + assert (H0 : (0 <= x)%Q).
        { apply (boost_term_nonneg g sims a b members m x Hc); [ | exact Hx].
          apply Hsub. left. reflexivity. }
        replace 0%Q with (0 + 0)%Q by reflexivity.
        apply Qplus_le_compat; assumption.
      + exact Hrest. }
  apply H. intros m Hm. exact Hm.
Qed.

Lemma jaccard_nonneg (n1 n2 : gset string) :
  size (n1 ∪ n2) <> O -> (0 <= jaccard n1 n2)%Q.
Proof.
  intros H. unfold jaccard. rewrite <- (truediv_is_division _ _ H).
  unfold Qle. simpl. lia.
Qed.

Lemma score_bounded (g : graph) (a b : string) (members : list string)
    (sims : gmap string Q) :
  consulted_bounded g sims a b members ->
  size (node_neighbors g a ∪ node_neighbors g b) <> O ->
  bounded (score g a b members sims).
Proof.
  intros Hc HU. unfold bounded, score. split.
  - apply Q.min_glb; [discriminate | ].
    replace 0%Q with (0 + 0)%Q by reflexivity.
    apply Qplus_le_compat; [apply jaccard_nonneg, HU | apply boost_nonneg, Hc].
  - apply Q.le_min_l.
Qed.

(** C4: every score the scorer computes and writes lies in [0, 1].  On a
    cache miss, when the scores that enter the boost lie in [0, 1], the
    score returned lies in [0, 1]; and when every cached and every
    precomputed score lies in [0, 1], the score returned by any call does,
    and so does every cached score of the store the call leaves. *)
Theorem scores_stay_bounded (t : tx) (a b : string) (members : list string)
    (sims : gmap string Q) :
  exists r : Q,
    fst (compute_optimized_jaccard a b members sims t) = Returns r /\
    (cached_similarity (db t) a b = None ->
     consulted_bounded (db t) sims a b members -> bounded r) /\
    (bounded_store (db t) -> bounded_sims sims ->
     bounded r /\
     bounded_store (db (snd (compute_optimized_jaccard a b members sims t)))).
Proof.
  destruct (cached_similarity (db t) a b) as [c | ] eqn:Hc.
  - exists c. rewrite (compute_hit a b members sims t c Hc). cbn [fst snd db].
    split; [reflexivity | split; [discriminate | ]].
    intros Hg _. split; [ | exact Hg].
    apply (cached_bounded (db t) a b c Hg Hc).
  - destruct (Nat.eq_dec (size (node_neighbors (db t) a ∪ node_neighbors (db t) b)) O)
      as [HU | HU].
    + exists 0%Q. rewrite (compute_miss_empty a b members sims t Hc HU).
      cbn [fst snd db].
      assert (H0 : bounded 0) by (split; discriminate).
      split; [reflexivity | split; [intros _ _; exact H0 | ]].
      intros Hg _. split; [exact H0 | ].
      apply (create_similarity_bounded bounded); assumption.
    + destruct (compute_miss a b members sims t Hc HU) as [r [ev [Hrun [Hr _]]]].
      exists r. rewrite Hrun. cbn [fst snd db].
      assert (Hb : consulted_bounded (db t) sims a b members -> bounded r).
      { intros H. apply (bounded_Qeq _ _ Hr). apply score_bounded; assumption. }
      split; [reflexivity | split; [intros _; exact Hb | ]].
      intros Hg Hs.
      pose proof (Hb (store_bounded_consulted _ _ a b members Hg Hs)) as Hr'.
      split; [exact Hr' | ].
      apply (create_similarity_bounded bounded); assumption.
Qed.

Lemma warm_is_bounded : bounded_store (db warm_tx).
Proof. repeat constructor; discriminate. Qed.

Lemma empty_sims_bounded : bounded_sims ∅.
Proof. intros m x H. rewrite lookup_empty in H. discriminate H. Qed.

Lemma scores_stay_bounded_witness :
  cached_similarity (db warm_tx) "A" "B" = None /\
  consulted_bounded (db warm_tx) ∅ "A" "B" ["B"; "C"] /\
  bounded_store (db warm_tx) /\ bounded_sims ∅ /\
  exists r : Q,
    fst (compute_optimized_jaccard "A" "B" ["B"; "C"] ∅ warm_tx) = Returns r /\
    bounded r /\
    bounded_store (db (snd (compute_optimized_jaccard "A" "B" ["B"; "C"] ∅ warm_tx))).
Proof.
  assert (H1 : cached_similarity (db warm_tx) "A" "B" = None) by reflexivity.
  assert (H2 : consulted_bounded (db warm_tx) ∅ "A" "B" ["B"; "C"])
    by (apply store_bounded_consulted;
        [exact warm_is_bounded | exact empty_sims_bounded]).
  split; [exact H1 | split; [exact H2 | ]].
  split; [exact warm_is_bounded | split; [exact empty_sims_bounded | ]].
  destruct (scores_stay_bounded warm_tx "A" "B" ["B"; "C"] ∅)
    as [r [Hr [Hmiss Hall]]].
  exists r. split; [exact Hr | split; [exact (Hmiss H1 H2) | ]].
  exact (proj2 (Hall warm_is_bounded empty_sims_bounded)).
Defined.

End Scorer.

(** ** The store and the scorer in double precision *)

Module Binary64Facts.
Import Py Cypher CypherFacts PrimFloat Binary64.

Lemma tx_eta_b64 (t : tx) : mkTx (db t) (trace t ++ []) = t.
Proof. destruct t as [g tr]. simpl. rewrite app_nil_r. reflexivity. Qed.

(** *** The cache read *)

Lemma single_cached_rows_b64 (g : graph) (a b : string) :
  match_subject g a <> [] -> match_subject g b <> [] ->
  single (cached_similarity_rows g a b)
  = hd_error (List.map edge_similarity (List.filter (is_edge a b) (similar_to g))).
Proof.
  intros Ha Hb. unfold single, cached_similarity_rows.
  rewrite (hd_flat_map_const _ _ Ha). apply hd_flat_map_copies. exact Hb.
Qed.

(** *** MERGE ... SET *)

Lemma is_edge_made_b64 (a b : string) (s : float) :
  is_edge a b (mkSimilar a b s) = true.
Proof. unfold is_edge. simpl. rewrite !String.eqb_refl. reflexivity. Qed.

Lemma is_edge_same_b64 (a b c d : string) (e : similar_edge) :
  is_edge a b e = true -> is_edge c d e = true -> a = c /\ b = d.
Proof.
  unfold is_edge. intros H1 H2.
  apply andb_true_iff in H1. destruct H1 as [H1 H1'].
  apply andb_true_iff in H2. destruct H2 as [H2 H2'].
  apply String.eqb_eq in H1, H1', H2, H2'. split; congruence.
Qed.

Lemma merge_set_written_b64 (a b : string) (s : float) (es : list similar_edge) :
  written a b s (merge_set a b s es).
Proof.
  unfold written, merge_set. destruct (existsb (is_edge a b) es) eqn:E.
  - split.
    + apply existsb_exists in E. destruct E as [e [He Hab]].
      apply existsb_exists. exists (mkSimilar a b s). split.
      * apply in_map_iff. exists e. rewrite Hab. split; [reflexivity | exact He].
      * apply is_edge_made_b64.
    + apply List.Forall_forall. intros e' He'. apply in_map_iff in He'.
      destruct He' as [e [Heq He]]. subst e'.
      destruct (is_edge a b e) eqn:Hab; [reflexivity | congruence].
  - split.
    + rewrite existsb_app. simpl. rewrite is_edge_made_b64.
      rewrite orb_true_r. reflexivity.
    + apply Forall_app. split.
      * apply List.Forall_forall. intros e He Hab.
        assert (X : existsb (is_edge a b) es = true)
          by (apply existsb_exists; exists e; split; assumption).
        congruence.
      * constructor; [reflexivity | constructor].
Qed.

Lemma merge_set_keeps_written_b64 (a b c d : string) (s : float)
    (es : list similar_edge) :
  written a b s es -> written a b s (merge_set c d s es).
Proof.
  unfold written, merge_set. intros [Hex Hall].
  destruct (existsb (is_edge c d) es) eqn:E.
  - split.
    + apply existsb_exists in Hex. destruct Hex as [e [He Hab]].
      apply existsb_exists.
      destruct (is_edge c d e) eqn:Hcd.
      * destruct (is_edge_same_b64 _ _ _ _ _ Hab Hcd) as [-> ->].
        exists (mkSimilar c d s). split; [ | apply is_edge_made_b64].
        apply in_map_iff. exists e. rewrite Hcd. split; [reflexivity | exact He].
      * exists e. split; [ | exact Hab].
        apply in_map_iff. exists e. rewrite Hcd. split; [reflexivity | exact He].
    + apply List.Forall_forall. intros e' He'. apply in_map_iff in He'.
      destruct He' as [e [Heq He]]. subst e'.
      destruct (is_edge c d e) eqn:Hcd; [reflexivity | ].
      rewrite List.Forall_forall in Hall. apply Hall. exact He.
  - split.
    + rewrite existsb_app, Hex. reflexivity.
    + apply Forall_app. split; [exact Hall | ].
      constructor; [reflexivity | constructor].
Qed.

Lemma written_first_b64 (a b : string) (s : float) (es : list similar_edge) :
  written a b s es ->
  hd_error (List.map edge_similarity (List.filter (is_edge a b) es)) = Some s.
Proof.
  intros [Hex Hall]. induction es as [ | e es IH]; simpl in *; [discriminate | ].
  inversion Hall as [ | ? ? He Hes]; subst.
  destruct (is_edge a b e) eqn:Hab; simpl.
  - rewrite He; reflexivity.
  - apply IH; assumption.
Qed.

(** *** The write query as a whole *)

Lemma endpoint_rows_cons_b64 (g : graph) (a b : string) :
  match_subject g a <> [] -> match_subject g b <> [] -> endpoint_rows g a b <> [].
Proof.
  unfold endpoint_rows. intros Ha Hb.
  destruct (match_subject g a) as [ | n1 l1]; [congruence | ].
  destruct (match_subject g b) as [ | n2 l2]; [congruence | ].
  simpl. discriminate.
Qed.

Lemma match_subject_create_b64 (g : graph) (a b nm : string) (s : float) :
  match_subject (create_similarity g a b s) nm = match_subject g nm.
Proof.
  unfold match_subject. f_equal. unfold create_similarity.
  apply (fold_const_invariant (fun g' => subject_nodes g' = subject_nodes g)).
  - intros y Hy. exact Hy.
  - reflexivity.
Qed.

Lemma create_similarity_written_b64 (g : graph) (a b : string) (s : float) :
  match_subject g a <> [] -> match_subject g b <> [] ->
  written a b s (similar_to (create_similarity g a b s)) /\
  written b a s (similar_to (create_similarity g a b s)).
Proof.
  intros Ha Hb. unfold create_similarity.
  destruct (fold_const_last (write_pair a b s) (endpoint_rows g a b) g
              (endpoint_rows_cons_b64 g a b Ha Hb)) as [y ->].
  simpl. split.
  - apply merge_set_keeps_written_b64, merge_set_written_b64.
  - apply merge_set_written_b64.
Qed.

Lemma cached_after_create_b64 (g : graph) (a b : string) (s : float) :
  exists_subject g a -> exists_subject g b ->
  cached_similarity (create_similarity g a b s) a b = Some s /\
  cached_similarity (create_similarity g a b s) b a = Some s.
Proof.
  unfold exists_subject, cached_similarity. intros Ha Hb.
  destruct (create_similarity_written_b64 g a b s Ha Hb) as [Hab Hba].
  split.
  - rewrite single_cached_rows_b64 by (rewrite match_subject_create_b64; assumption).
    apply written_first_b64. exact Hab.
  - rewrite single_cached_rows_b64 by (rewrite match_subject_create_b64; assumption).
    apply written_first_b64. exact Hba.
Qed.

(** *** The scorer *)

Ltac norm_trace := rewrite <- ?app_assoc in *; cbn [app] in *.

Ltac run_step :=
  unfold bind, ret, lift, emit, get_cached_similarity, get_node_neighbors,
    create_similarity_relationship, run_read, run_write; simpl.

Ltac run_cbn :=
  unfold bind, ret, lift, emit, get_cached_similarity, get_node_neighbors,
    create_similarity_relationship, run_read, run_write; cbn [db trace].

Ltac tidy := repeat (progress (cbn [db trace Nat.eqb app]; rewrite <- ?app_assoc)).

Section Boost.
Variables (trial1 trial2 : string) (sims : gmap string float).

Lemma terms_cons_b64 (g : graph) (m : string) (rest : list string) :
  omap (boost_term g sims trial1 trial2) (m :: rest)
  = match boost_term g sims trial1 trial2 m with
    | Some x => x :: omap (boost_term g sims trial1 trial2) rest
    | None => omap (boost_term g sims trial1 trial2) rest
    end.
Proof. reflexivity. Qed.

(** The loop only reads the cache, returns, and adds the terms of
    [boost] to its accumulator one after the other, in member order. *)
Lemma boost_loop_run_b64 (members : list string) :
  forall (acc : float) (t : tx),
  exists ev : list event,
    boost_loop trial1 trial2 sims members acc t
    = (Returns (fold_left PrimFloat.add
                  (omap (boost_term (db t) sims trial1 trial2) members) acc),
       mkTx (db t) (trace t ++ ev)) /\
    Forall (fun e => is_cache_read e = true) ev.
Proof.
  induction members as [ | m rest IH]; intros acc t.
  - exists []. simpl. unfold ret. rewrite tx_eta_b64.
    split; [reflexivity | constructor].
  - cbn [boost_loop]. rewrite terms_cons_b64. unfold boost_term at 1.
    destruct (String.eqb m trial1 || String.eqb m trial2) eqn:Hskip.
    { apply IH. }
    unfold sim_to, has_key, getitem.
    destruct (sims !! m) as [v | ] eqn:Hv; run_step.
    + destruct (cached_similarity (db t) trial2 m) as [o | ] eqn:Ho.
      * destruct (IH (PrimFloat.add acc (PrimFloat.mul (min v o) tenth))
                    (mkTx (db t) (trace t ++ [Run (QCachedSimilarity trial2 m)])))
          as [ev [Hrun Hev]].
        cbn [db trace] in Hrun. norm_trace.
        exists (Run (QCachedSimilarity trial2 m) :: ev).
        split; [exact Hrun | constructor; [reflexivity | exact Hev]].
      * destruct (IH acc
                    (mkTx (db t) (trace t ++ [Run (QCachedSimilarity trial2 m)])))
          as [ev [Hrun Hev]].
        cbn [db trace] in Hrun. norm_trace.
        exists (Run (QCachedSimilarity trial2 m) :: ev).
        split; [exact Hrun | constructor; [reflexivity | exact Hev]].
    + destruct (cached_similarity (db t) trial1 m) as [v | ] eqn:Hc; run_step.
      * destruct (cached_similarity (db t) trial2 m) as [o | ] eqn:Ho.
        -- destruct (IH (PrimFloat.add acc (PrimFloat.mul (min v o) tenth))
                      (mkTx (db t)
                         ((trace t ++ [Run (QCachedSimilarity trial1 m)])
                            ++ [Run (QCachedSimilarity trial2 m)])))
             as [ev [Hrun Hev]].
           cbn [db trace] in Hrun. norm_trace.
           exists (Run (QCachedSimilarity trial1 m)
                     :: Run (QCachedSimilarity trial2 m) :: ev).
           split; [exact Hrun | repeat constructor; exact Hev].
        -- destruct (IH acc
                      (mkTx (db t)
                         ((trace t ++ [Run (QCachedSimilarity trial1 m)])
                            ++ [Run (QCachedSimilarity trial2 m)])))
             as [ev [Hrun Hev]].
           cbn [db trace] in Hrun. norm_trace.
           exists (Run (QCachedSimilarity trial1 m)
                     :: Run (QCachedSimilarity trial2 m) :: ev).
           split; [exact Hrun | repeat constructor; exact Hev].
      * destruct (IH acc
                    (mkTx (db t) (trace t ++ [Run (QCachedSimilarity trial1 m)])))
          as [ev [Hrun Hev]].
        cbn [db trace] in Hrun. norm_trace.
        exists (Run (QCachedSimilarity trial1 m) :: ev).
        split; [exact Hrun | constructor; [reflexivity | exact Hev]].
Qed.

End Boost.

(** On a miss with a non-empty union the scorer looks both neighbor sets
    up, reads the cache for the boost, and writes and returns the score of
    the formula. *)
Lemma compute_miss_b64 (trial1 trial2 : string) (members : list string)
    (sims : gmap string float) (t : tx) :
  cached_similarity (db t) trial1 trial2 = None ->
  size (node_neighbors (db t) trial1 ∪ node_neighbors (db t) trial2) <> O ->
  exists ev : list event,
    compute_optimized_jaccard trial1 trial2 members sims t
    = (Returns (score (db t) trial1 trial2 members sims),
       mkTx (create_similarity (db t) trial1 trial2
               (score (db t) trial1 trial2 members sims))
         (trace t ++ [Score trial1 trial2 members;
                      Run (QCachedSimilarity trial1 trial2);
                      Run (QNodeNeighbors trial1);
                      Run (QNodeNeighbors trial2)]
                  ++ ev
                  ++ [Run (QCreateSimilarity trial1 trial2
                             (score (db t) trial1 trial2 members sims))])) /\
    Forall (fun e => is_cache_read e = true) ev.
Proof.
  intros H HU. unfold compute_optimized_jaccard. run_cbn. rewrite H. cbn [db trace].
  unfold score, jaccard, boost, fsum.
  destruct (size (node_neighbors (db t) trial1 ∪ node_neighbors (db t) trial2))
    as [ | n] eqn:Hn; [congruence | ].
  cbn [Nat.eqb truediv].
  destruct (boost_loop_run_b64 trial1 trial2 sims members 0%float
              (mkTx (db t)
                 ((((trace t ++ [Score trial1 trial2 members])
                      ++ [Run (QCachedSimilarity trial1 trial2)])
                     ++ [Run (QNodeNeighbors trial1)])
                    ++ [Run (QNodeNeighbors trial2)])))
    as [ev [Hrun Hev]].
  cbn [db trace] in Hrun. rewrite Hrun. cbn [db trace].
  exists ev. split; [ | exact Hev].
  tidy. reflexivity.
Qed.

End Binary64Facts.

(** ** The value of a score *)

Module ScoreValue.
Import Py Cypher CypherFacts PrimFloat Binary64 Binary64Facts.

Lemma union_size_nonzero_b64 (n1 n2 : gset string) :
  n1 ∪ n2 <> ∅ -> size (n1 ∪ n2) <> O.
Proof.
  intros H Hsz. apply H. apply leibniz_equiv. apply size_empty_inv. exact Hsz.
Qed.

(** C1: on a cache miss with a non-empty neighbor union the scorer
    returns the double [min(1.0, |I|/|U| + B)], every operation of the
    formula being the operation on doubles: [|I|/|U|] is the quotient of
    the two sizes rounded once, and [B] adds the doubles
    [min(sim(a,m), sim(b,m)) * 0.1] in member order, starting from [0.0],
    over the community members other than [a] and [b] for which both
    similarities are available.  Between the neighbor lookups and the
    write the scorer only reads the cache.  It then writes that score for
    the pair: the store it leaves is the one
    [create_similarity_relationship] makes, and the pair reads back as
    that score when both endpoints exist.  The sizes are taken below
    [2^53], where a length is a double. *)
Theorem score_on_cache_miss (t : tx) (a b : string) (members : list string)
    (sims : gmap string float) :
  cached_similarity (db t) a b = None ->
  node_neighbors (db t) a ∪ node_neighbors (db t) b <> ∅ ->
  exact_length (size (node_neighbors (db t) a ∪ node_neighbors (db t) b)) ->
  let r := score (db t) a b members sims in
  exists ev : list event,
    fst (compute_optimized_jaccard a b members sims t) = Returns r /\
    db (snd (compute_optimized_jaccard a b members sims t))
    = create_similarity (db t) a b r /\
    trace (snd (compute_optimized_jaccard a b members sims t))
    = trace t ++ [Score a b members; Run (QCachedSimilarity a b);
                  Run (QNodeNeighbors a); Run (QNodeNeighbors b)]
              ++ ev ++ [Run (QCreateSimilarity a b r)] /\
    Forall (fun e => is_cache_read e = true) ev /\
    (exists_subject (db t) a -> exists_subject (db t) b ->
     cached_similarity (db (snd (compute_optimized_jaccard a b members sims t))) a b
     = Some r).
Proof.
  intros Hmiss HU _ r. apply union_size_nonzero_b64 in HU.
  destruct (compute_miss_b64 a b members sims t Hmiss HU) as [ev [Hrun Hev]].
  exists ev. rewrite Hrun. cbn [fst snd db trace].
  split; [reflexivity | split; [reflexivity | split; [reflexivity | ]]].
  split; [exact Hev | ].
  intros Ha Hb. apply (cached_after_create_b64 (db t) a b r Ha Hb).
Qed.

Lemma score_on_cache_miss_witness :
  cached_similarity (db rounding) "Q" "Y" = None /\
  node_neighbors (db rounding) "Q" ∪ node_neighbors (db rounding) "Y" <> ∅ /\
  exact_length (size (node_neighbors (db rounding) "Q"
                        ∪ node_neighbors (db rounding) "Y")) /\
  exists_subject (db rounding) "Q" /\ exists_subject (db rounding) "Y" /\
  fst (compute_optimized_jaccard "Q" "Y" ["Y"; "M"] ∅ rounding)
  = Returns (score (db rounding) "Q" "Y" ["Y"; "M"] ∅) /\
  cached_similarity
    (db (snd (compute_optimized_jaccard "Q" "Y" ["Y"; "M"] ∅ rounding))) "Q" "Y"
  = Some (score (db rounding) "Q" "Y" ["Y"; "M"] ∅).
Proof.
  assert (H1 : cached_similarity (db rounding) "Q" "Y" = None) by reflexivity.
  assert (H2 : node_neighbors (db rounding) "Q" ∪ node_neighbors (db rounding) "Y"
               <> ∅).
  { intros H. apply (f_equal size) in H. vm_compute in H. discriminate H. }
  assert (H3 : exact_length (size (node_neighbors (db rounding) "Q"
                                     ∪ node_neighbors (db rounding) "Y")))
    by (vm_compute; reflexivity).
  assert (H4 : exists_subject (db rounding) "Q") by (vm_compute; discriminate).
  assert (H5 : exists_subject (db rounding) "Y") by (vm_compute; discriminate).
  split; [exact H1 | split; [exact H2 | split; [exact H3 | ]]].
  split; [exact H4 | split; [exact H5 | ]].
  destruct (score_on_cache_miss rounding "Q" "Y" ["Y"; "M"] ∅ H1 H2 H3)
    as [ev [Hr [_ [_ [_ Hc]]]]].
  split; [exact Hr | exact (Hc H4 H5)].
Defined.

(** The score of the witness above.  The neighbors give 1/5 and the member
    M, compared at 1.0 with both, gives 0.1; the sum of the two doubles is
    0.30000000000000004, one unit in the last place above the double
    nearest to 3/10. *)
Example score_of_rounding :
  fst (compute_optimized_jaccard "Q" "Y" ["Y"; "M"] ∅ rounding)
  = Returns 0x1.3333333333334p-2%float /\
  PrimFloat.div (of_len 3) (of_len 10) = 0x1.3333333333333p-2%float.
Proof. split; vm_compute; reflexivity. Qed.

End ScoreValue.

(** ** Sorting, slicing and the ranking loop *)

Module RankerFacts.
Import Py Cypher Tx Engine Spec PyFacts CypherFacts ScorerFacts.

Section Sort.
Context {A : Type} (key : A -> Q).

Lemma Qltb_true (a b : Q) : Qltb a b = true -> (a < b)%Q.
Proof.
  unfold Qltb. intros H. apply negb_true_iff in H.
  apply Qnot_le_lt. intros Hle. apply Qle_bool_iff in Hle. congruence.
Qed.

Lemma Qltb_false (a b : Q) : Qltb a b = false -> (b <= a)%Q.
Proof.
  unfold Qltb. intros H. apply negb_false_iff in H.
  apply Qle_bool_iff. exact H.
Qed.

Lemma insert_desc_perm (x : A) (l : list A) :
  Permutation (insert_desc key x l) (x :: l).
Proof.
  induction l as [ | y l IH]; simpl; [reflexivity | ].
  destruct (Qltb (key x) (key y)); [ | reflexivity].
  rewrite IH. apply perm_swap.
Qed.

Lemma sort_desc_perm (l : list A) : Permutation (sort_desc key l) l.
Proof.
  induction l as [ | x l IH]; simpl; [reflexivity | ].
  rewrite insert_desc_perm. apply perm_skip. exact IH.
Qed.

Lemma insert_desc_sorted (x : A) (l : list A) :
  StronglySorted (key_ge key) l -> StronglySorted (key_ge key) (insert_desc key x l).
Proof.
  induction l as [ | y l IH]; intros Hl; simpl.
  - constructor; constructor.
  - inversion Hl as [ | ? ? Hl' Hy]; subst.
    destruct (Qltb (key x) (key y)) eqn:E.
    + constructor; [apply IH; exact Hl' | ].
      apply List.Forall_forall. intros z Hz.
      apply (Permutation_in _ (insert_desc_perm x l)) in Hz.
      destruct Hz as [<- | Hz].
      * unfold key_ge. apply Qlt_le_weak, Qltb_true, E.
      * rewrite List.Forall_forall in Hy. apply Hy, Hz.
    + apply Qltb_false in E. constructor; [exact Hl | ].
      constructor; [exact E | ].
      apply List.Forall_forall. intros z Hz.
      rewrite List.Forall_forall in Hy. unfold key_ge.
      apply Qle_trans with (key y); [apply Hy, Hz | exact E].
Qed.

Lemma sort_desc_sorted (l : list A) : StronglySorted (key_ge key) (sort_desc key l).
Proof.
  induction l as [ | x l IH]; simpl; [constructor | ].
  apply insert_desc_sorted, IH.
Qed.

(** Stability: an inserted element comes before every element with an
    equal key. *)
Lemma filter_insert_desc (v : Q) (x : A) (l : list A) :
  List.filter (key_is key v) (insert_desc key x l)
  = List.filter (key_is key v) (x :: l).
Proof.
  induction l as [ | y l IH]; [reflexivity | ].
  cbn [insert_desc]. destruct (Qltb (key x) (key y)) eqn:E; [ | reflexivity].
  cbn [List.filter] in *. rewrite IH.
  destruct (key_is key v x) eqn:Hx; [ | reflexivity].
  destruct (key_is key v y) eqn:Hy; [ | reflexivity].
  exfalso. unfold key_is in Hx, Hy.
  apply Qeq_bool_iff in Hx, Hy. apply Qltb_true in E.
  rewrite Hx, Hy in E. exact (Qlt_irrefl v E).
Qed.

Lemma filter_sort_desc (v : Q) (l : list A) :
  List.filter (key_is key v) (sort_desc key l) = List.filter (key_is key v) l.
Proof.
  induction l as [ | x l IH]; [reflexivity | ].
  cbn [sort_desc]. rewrite filter_insert_desc.
  cbn [List.filter]. rewrite IH. reflexivity.
Qed.

Lemma sorted_app_inv (l1 l2 : list A) :
  StronglySorted (key_ge key) (l1 ++ l2) ->
  StronglySorted (key_ge key) l1 /\
  Forall (fun y => Forall (fun x => key_ge key x y) l1) l2.
Proof.
  induction l1 as [ | x l1 IH]; intros H; simpl in *.
  - split; [constructor | ].
    apply List.Forall_forall. intros y _. constructor.
  - inversion H as [ | ? ? Hs Hx]; subst.
    destruct (IH Hs) as [H1 H2]. split.
    + constructor; [exact H1 | ].
      apply Forall_app in Hx. destruct Hx as [Hx _]. exact Hx.
    + apply List.Forall_forall. intros y Hy.
      constructor.
      * apply Forall_app in Hx. destruct Hx as [_ Hx].
        rewrite List.Forall_forall in Hx. apply Hx, Hy.
      * rewrite List.Forall_forall in H2. apply H2, Hy.
Qed.

Lemma slice_to_firstn (l : list A) (k : Z) :
  exists n : nat,
    slice_to l k = firstn n l /\ ((0 <= k)%Z -> n = Z.to_nat k).
Proof.
  unfold slice_to. destruct (k <? 0)%Z eqn:E.
  - eexists. split; [reflexivity | ]. apply Z.ltb_lt in E. lia.
  - eexists. split; [reflexivity | ]. reflexivity.
Qed.

(** Slicing keeps the head of a list: [l[:k]] is the first [min(k, n)]
    entries for a count [k], and all but the last [-k] entries for a
    negative [k]. *)
Lemma slice_to_head (l : list A) (k : Z) :
  exists rest,
    slice_to l k ++ rest = l /\
    ((0 <= k)%Z -> length (slice_to l k) = Nat.min (Z.to_nat k) (length l)) /\
    ((k < 0)%Z -> length (slice_to l k) = (length l - Z.to_nat (- k))%nat).
Proof.
  unfold slice_to. destruct (k <? 0)%Z eqn:E.
  - apply Z.ltb_lt in E. exists (skipn (length l - Z.to_nat (- k)) l).
    split; [apply firstn_skipn | split; [lia | intros _]].
    rewrite List.length_firstn. lia.
  - apply Z.ltb_ge in E. exists (skipn (Z.to_nat k) l).
    split; [apply firstn_skipn | split; [intros _ | lia]].
    apply List.length_firstn.
Qed.

(** What sorting and then slicing a list gives: the head, of the length
    the slice takes, of the one list that holds the entries of [l] in
    descending key order with equal keys in the order [l] has them. *)
Lemma head_of_sorted (l : list A) (k : Z) :
  let res := slice_to (sort_desc key l) k in
  exists rest,
    Permutation (res ++ rest) l /\
    StronglySorted (key_ge key) (res ++ rest) /\
    (forall v, List.filter (key_is key v) (res ++ rest)
               = List.filter (key_is key v) l) /\
    ((0 <= k)%Z ->
     length res = Nat.min (Z.to_nat k) (length l) /\
     (Z.of_nat (length res) <= k)%Z) /\
    ((k < 0)%Z -> length res = (length l - Z.to_nat (- k))%nat).
Proof.
  intros res. subst res.
  destruct (slice_to_head (sort_desc key l) k) as [rest [Happ [Hpos Hneg]]].
  pose proof (Permutation_length (sort_desc_perm l)) as Hlen.
  exists rest. rewrite Happ.
  split; [apply sort_desc_perm | split; [apply sort_desc_sorted | split]].
  - intros v. apply filter_sort_desc.
  - split.
    + intros Hk. rewrite (Hpos Hk), Hlen. split; [reflexivity | lia].
    + intros Hk. rewrite (Hneg Hk), Hlen. reflexivity.
Qed.

End Sort.

(** *** [list.remove] under its guard *)

Lemma contains_In (x : string) (l : list string) :
  contains x l = true <-> In x l.
Proof.
  unfold contains. rewrite existsb_exists. split.
  - intros [y [Hy E]]. apply String.eqb_eq in E. subst. exact Hy.
  - intros H. exists x. split; [exact H | apply String.eqb_refl].
Qed.

Lemma remove_returns (x : string) (l : list string) :
  contains x l = true -> Py.remove x l = Returns (without_first x l).
Proof.
  induction l as [ | y l IH]; intros H; [discriminate | ].
  cbn [Py.remove without_first]. destruct (String.eqb y x) eqn:E; [reflexivity | ].
  assert (Hl : contains x l = true).
  { unfold contains in *. cbn [existsb] in H.
    rewrite String.eqb_sym, E in H. exact H. }
  rewrite (IH Hl). reflexivity.
Qed.

Lemma without_first_absent (x : string) (l : list string) :
  contains x l = false -> without_first x l = l.
Proof.
  induction l as [ | y l IH]; intros H; [reflexivity | ].
  unfold contains in H. cbn [existsb] in H.
  apply orb_false_iff in H. destruct H as [E H].
  cbn [without_first]. rewrite String.eqb_sym, E, (IH H). reflexivity.
Qed.

Lemma without_first_NoDup (x : string) (l : list string) :
  List.NoDup l -> ~ In x (without_first x l).
Proof.
  induction l as [ | y l IH]; intros Hnd; [intros [] | ].
  inversion Hnd as [ | ? ? Hy Hl]; subst.
  cbn [without_first]. destruct (String.eqb y x) eqn:E.
  - apply String.eqb_eq in E. subst y. exact Hy.
  - intros [Hxy | Hin].
    + subst y. rewrite String.eqb_refl in E. discriminate.
    + exact (IH Hl Hin).
Qed.

Lemma NoDup_map_filter {A B : Type} (f : A -> B) (p : A -> bool) (l : list A) :
  List.NoDup (List.map f l) -> List.NoDup (List.map f (List.filter p l)).
Proof.
  induction l as [ | x l IH]; intros H; simpl in *; [constructor | ].
  inversion H as [ | ? ? Hx Hl]; subst.
  destruct (p x); simpl; [ | apply IH, Hl].
  constructor; [ | apply IH, Hl].
  intros Hin. apply Hx. apply in_map_iff in Hin.
  destruct Hin as [y [Hy Hin]]. apply filter_In in Hin.
  apply in_map_iff. exists y. split; [exact Hy | apply Hin].
Qed.

(** *** The loop over the candidates *)

Section Loop.
Variables (trial_id : string) (members : list string) (sims : gmap string Q).

Lemma score_loop_run (todo : list string) :
  forall (acc : list entry) (t : tx),
  exists (res : list entry) (g' : graph) (ev : list event),
    score_loop trial_id members sims todo acc t
    = (Returns res, mkTx g' (trace t ++ ev)) /\
    List.map trial res = List.map trial acc ++ todo /\
    Forall (scored_with members) ev.
Proof.
  induction todo as [ | other rest IH]; intros acc t.
  - exists acc, (db t), []. cbn [score_loop]. unfold ret. rewrite tx_eta.
    split; [reflexivity | split; [ | constructor]].
    rewrite app_nil_r. reflexivity.
  - cbn [score_loop]. unfold bind.
    destruct (compute_run trial_id other members sims t)
      as [r [g1 [ev1 [Hrun [Hev1 _]]]]].
    rewrite Hrun.
    destruct (IH (acc ++ [mkEntry other r])
                (mkTx g1 (trace t ++ Score trial_id other members :: ev1)))
      as [res [g' [ev2 [Hloop [Hres Hev2]]]]].
    cbn [db trace] in Hloop. rewrite <- app_assoc in Hloop.
    exists res, g', ((Score trial_id other members :: ev1) ++ ev2).
    split; [exact Hloop | split].
    + rewrite Hres, List.map_app, <- app_assoc. reflexivity.
    + apply Forall_app. split; [ | exact Hev2].
      constructor; [reflexivity | ].
      eapply Forall_impl; [exact Hev1 | ].
      intros [qr | ? ? ?]; simpl; [trivial | discriminate].
Qed.

End Loop.

Lemma slice_to_nil {A : Type} (k : Z) : slice_to (@nil A) k = [].
Proof. unfold slice_to. destruct (k <? 0)%Z; apply firstn_nil. Qed.

Lemma slice_to_In {A : Type} (x : A) (l : list A) (k : Z) :
  In x (slice_to l k) -> In x l.
Proof.
  unfold slice_to. intros H.
  destruct (k <? 0)%Z;
    match type of H with
    | In _ (firstn ?n _) => rewrite <- (firstn_skipn n l)
    end; apply in_or_app; left; exact H.
Qed.

(** The ranker is the list it has built, sorted and sliced. *)
Lemma find_similar_sorts (trial_id : string) (top_k : Z) (t : tx) :
  find_similar_trials_optimized trial_id top_k t
  = match similarities_before_sort trial_id t with
    | (Returns l, t') => (Returns (slice_to (sort_desc similarity l) top_k), t')
    | (Raises e, t') => (Raises e, t')
    end.
Proof.
  unfold find_similar_trials_optimized, similarities_before_sort, bind.
  destruct (get_node_community trial_id t) as [[[cid | ] | e] t1];
    [ | unfold ret; cbn [sort_desc]; rewrite slice_to_nil; reflexivity
      | reflexivity].
  destruct (get_community_members cid t1) as [[ms | e] t2]; [ | reflexivity].
  destruct ((if contains trial_id ms then lift (Py.remove trial_id ms) else ret ms) t2)
    as [[ms' | e] t3]; [ | reflexivity].
  destruct (get_intermediate_similarities trial_id ms' t3) as [[d | e] t4];
    [ | reflexivity].
  destruct (score_loop trial_id ms' d ms' [] t4) as [[l | e] t5]; reflexivity.
Qed.

(** The ranker's list is always built: nothing raises on the way.  Its
    entries are the candidates of the query, in their order, and every
    scorer call is entered with the candidates as the member list. *)
Lemma before_sort_run (trial_id : string) (t : tx) :
  exists (l : list entry) (g' : graph) (ev : list event),
    similarities_before_sort trial_id t = (Returns l, mkTx g' (trace t ++ ev)) /\
    List.map trial l = candidates (db t) trial_id /\
    Forall (scored_with (candidates (db t) trial_id)) ev.
Proof.
  unfold similarities_before_sort, bind, get_node_community, get_community_members,
    get_intermediate_similarities, run_read, candidates. cbn [db trace].
  destruct (single (node_community_rows (db t) trial_id)) as [[cid | ] | ].
  2,3: exists [], (db t), [Run (QNodeCommunity trial_id)];
       split; [reflexivity | split; [reflexivity | repeat constructor]].
  cbn [db trace].
  set (ms := community_members_rows (db t) cid).
  assert (Hms : (if contains trial_id ms then lift (Py.remove trial_id ms) else ret ms)
                = lift (Returns (without_first trial_id ms))).
  { destruct (contains trial_id ms) eqn:Hc.
    - rewrite (remove_returns trial_id ms Hc). reflexivity.
    - rewrite (without_first_absent trial_id ms Hc). reflexivity. }
  rewrite Hms. unfold lift. cbn [db trace].
  set (ms' := without_first trial_id ms).
  destruct (score_loop_run trial_id ms' (dict_of (intermediate_rows (db t) trial_id ms'))
              ms' []
              (mkTx (db t)
                 (((trace t ++ [Run (QNodeCommunity trial_id)])
                     ++ [Run (QCommunityMembers cid)])
                    ++ [Run (QIntermediate trial_id ms')])))
    as [res [g' [ev [Hloop [Hres Hev]]]]].
  cbn [db trace] in Hloop. rewrite Hloop.
  exists res, g'. eexists. split; [ | split].
  - rewrite <- !app_assoc. cbn [app]. reflexivity.
  - exact Hres.
  - repeat constructor. exact Hev.
Qed.

Lemma candidates_exclude_query (g : graph) (trial_id : string) :
  List.NoDup (List.map subject_name (subject_nodes g)) ->
  ~ In trial_id (candidates g trial_id).
Proof.
  intros Hnd. unfold candidates.
  destruct (single (node_community_rows g trial_id)) as [[cid | ] | ];
    [ | intros [] | intros []].
  apply without_first_NoDup. unfold community_members_rows.
  apply NoDup_map_filter. exact Hnd.
Qed.

End RankerFacts.

(** ** Properties of the ranker *)

Module Ranker.
Import Py Cypher Tx Engine Spec PyFacts CypherFacts ScorerFacts RankerFacts Examples.

(** C6, as the code behaves: the ranker scores the candidates of the
    query in their order and sorts the scores it got.  The sorted list is
    determined by them: it holds the same entries, it descends by score,
    and entries with equal scores stand in the order the member list gave
    them, because the sort is stable and nothing else breaks ties.  The
    ranking is the head of that sorted list, [rest] being what is cut
    off.  For a count [k], that is [0 <= k], the head has
    [min(k, number of candidates)] entries, so at most [k]; for a negative
    [k] the slice [l[:k]] cuts the last [-k] entries off instead. *)
Theorem ranking_is_top_k (t : tx) (trial_id : string) (k : Z) :
  exists scored res rest : list entry,
    fst (similarities_before_sort trial_id t) = Returns scored /\
    List.map trial scored = candidates (db t) trial_id /\
    fst (find_similar_trials_optimized trial_id k t) = Returns res /\
    Permutation (res ++ rest) scored /\
    StronglySorted descending (res ++ rest) /\
    (forall v, List.filter (has_score v) (res ++ rest)
               = List.filter (has_score v) scored) /\
    ((0 <= k)%Z ->
     length res = Nat.min (Z.to_nat k) (length scored) /\
     (Z.of_nat (length res) <= k)%Z) /\
    ((k < 0)%Z -> length res = (length scored - Z.to_nat (- k))%nat).
Proof.
  rewrite find_similar_sorts.
  destruct (before_sort_run trial_id t) as [l [g' [ev [-> [Hl _]]]]].
  cbn [fst].
  destruct (head_of_sorted similarity l k) as [rest H].
  exists l, (slice_to (sort_desc similarity l) k), rest.
  split; [reflexivity | split; [exact Hl | split; [reflexivity | exact H]]].
Qed.

Lemma ranking_is_top_k_witness :
  (0 <= 3)%Z /\ (-1 < 0)%Z /\
  (exists res : list entry,
     fst (find_similar_trials_optimized "Q" 3 ties) = Returns res /\
     length res = 3 /\ (Z.of_nat (length res) <= 3)%Z) /\
  (exists res : list entry,
     fst (find_similar_trials_optimized "Q" (-1) ties) = Returns res /\
     length res = 3).
Proof.
  assert (H1 : (0 <= 3)%Z) by lia.
  assert (H2 : (-1 < 0)%Z) by lia.
  split; [exact H1 | split; [exact H2 | split]].
  - destruct (ranking_is_top_k ties "Q" 3)
      as [scored [res [rest [Hs [_ [Hres [_ [_ [_ [Hpos _]]]]]]]]]].
    exists res. split; [exact Hres | ].
    destruct (Hpos H1) as [Hlen Hle]. split; [ | exact Hle].
    rewrite Hlen. vm_compute in Hs. injection Hs as <-. reflexivity.
  - destruct (ranking_is_top_k ties "Q" (-1))
      as [scored [res [rest [Hs [_ [Hres [_ [_ [_ [_ Hneg]]]]]]]]]].
    exists res. split; [exact Hres | ].
    rewrite (Hneg H2). vm_compute in Hs. injection Hs as <-. reflexivity.
Defined.

(** The ranking of the store [ties]: the two candidates that score 1 come
    first, in member order, then the first of the two that score 0. *)
Example ranking_of_ties :
  fst (similarities_before_sort "Q" ties)
  = Returns [mkEntry "M1" (0 # 2); mkEntry "M2" (1 # 1);
             mkEntry "M3" (0 # 2); mkEntry "M4" (1 # 1)] /\
  fst (find_similar_trials_optimized "Q" 3 ties)
  = Returns [mkEntry "M2" (1 # 1); mkEntry "M4" (1 # 1); mkEntry "M1" (0 # 2)].
Proof. split; vm_compute; reflexivity. Qed.

(** A negative [top_k] slices from the end, as [l[:k]] does in Python. *)
Example ranking_of_ties_negative :
  fst (find_similar_trials_optimized "Q" (-1) ties)
  = Returns [mkEntry "M2" (1 # 1); mkEntry "M4" (1 # 1); mkEntry "M1" (0 # 2)].
Proof. vm_compute. reflexivity. Qed.

(** C6 as the specification states it, for every [k], does not hold: with
    [k = -1] the ranking of the store [ties] has three entries. *)
Lemma ranking_can_exceed_k :
  (exists res : list entry,
     fst (find_similar_trials_optimized "Q" (-1) ties) = Returns res /\
     length res = 3) /\
  ~ length_at_most_k.
Proof.
  split.
  - eexists. split; [exact ranking_of_ties_negative | reflexivity].
  - intros H.
    pose proof (H ties "Q" (-1)%Z _ ranking_of_ties_negative) as Hlen.
    cbn [length] in Hlen. lia.
Qed.

(** C7: when the community lookup yields none, the ranker returns the
    empty list.  It does not raise, the graph is untouched, and the only
    query run is the community lookup: nothing is scored or written. *)
Theorem no_community_gives_empty (t : tx) (trial_id : string) (k : Z) :
  fst (get_node_community trial_id t) = Returns None ->
  find_similar_trials_optimized trial_id k t
  = (Returns [], mkTx (db t) (trace t ++ [Run (QNodeCommunity trial_id)])).
Proof.
  unfold find_similar_trials_optimized, bind, get_node_community, run_read.
  cbn [fst]. intros H. injection H as ->. reflexivity.
Qed.

Lemma no_community_gives_empty_witness :
  fst (get_node_community "A" unclustered) = Returns None /\
  find_similar_trials_optimized "A" 10 unclustered
  = (Returns [], mkTx (db unclustered) (trace unclustered ++ [Run (QNodeCommunity "A")])).
Proof.
  assert (H : fst (get_node_community "A" unclustered) = Returns None) by reflexivity.
  split; [exact H | ].
  exact (no_community_gives_empty unclustered "A" 10 H).
Defined.

(** C9: in a store whose SubjectNode names are unique, the candidates of
    a query do not hold the query entity; the member list handed to every
    scorer call of the query is that list of candidates, so it does not
    hold the query entity either, and no entry of the ranking is the query
    entity. *)
Theorem query_entity_is_excluded (t : tx) (trial_id : string) (k : Z) :
  List.NoDup (List.map subject_name (subject_nodes (db t))) ->
  ~ In trial_id (candidates (db t) trial_id) /\
  exists (res : list entry) (ev : list event),
    fst (find_similar_trials_optimized trial_id k t) = Returns res /\
    trace (snd (find_similar_trials_optimized trial_id k t)) = trace t ++ ev /\
    Forall (scored_with (candidates (db t) trial_id)) ev /\
    Forall (scored_without trial_id) ev /\
    Forall (fun e => trial e <> trial_id) res.
Proof.
  intros Hnd. pose proof (candidates_exclude_query (db t) trial_id Hnd) as Hq.
  split; [exact Hq | ]. rewrite find_similar_sorts.
  destruct (before_sort_run trial_id t) as [l [g' [ev [-> [Hl Hev]]]]].
  cbn [fst snd trace].
  exists (slice_to (sort_desc similarity l) k), ev.
  split; [reflexivity | split; [reflexivity | split; [exact Hev | split]]].
  - eapply Forall_impl; [exact Hev | ].
    intros [qr | a b m]; simpl; [trivial | intros ->; exact Hq].
  - apply List.Forall_forall. intros e He Heq. apply Hq.
    rewrite <- Hl, <- Heq. apply in_map.
    apply (Permutation_in _ (sort_desc_perm similarity l)).
    exact (slice_to_In e _ k He).
Qed.

Lemma abc_names_unique :
  List.NoDup (List.map subject_name (subject_nodes (db abc_tx))).
Proof.
  repeat (constructor;
          [simpl; intros H; repeat destruct H as [H | H]; discriminate H || exact H | ]).
  constructor.
Qed.

Lemma query_entity_is_excluded_witness :
  List.NoDup (List.map subject_name (subject_nodes (db abc_tx))) /\
  ~ In "A" (candidates (db abc_tx) "A") /\
  exists (res : list entry) (ev : list event),
    fst (find_similar_trials_optimized "A" 10 abc_tx) = Returns res /\
    trace (snd (find_similar_trials_optimized "A" 10 abc_tx)) = trace abc_tx ++ ev /\
    Forall (scored_with (candidates (db abc_tx) "A")) ev /\
    Forall (scored_without "A") ev /\
    Forall (fun e => trial e <> "A") res.
Proof.
  split; [exact abc_names_unique | ].
  exact (query_entity_is_excluded abc_tx "A" 10 abc_names_unique).
Defined.

(** Uniqueness of names is needed: [list.remove] drops one occurrence, so
    with two trials named A the second stays among the candidates. *)
Example candidates_of_twins :
  candidates (db twins) "A" = ["A"; "B"] /\
  List.map trial
    (match fst (find_similar_trials_optimized "A" 10 twins) with
     | Returns res => res
     | Raises _ => []
     end) = ["A"; "B"].
Proof. split; vm_compute; reflexivity. Qed.

(** The query of the witness above: both scorer calls get [B; C]. *)
Example ranking_of_abc :
  find_similar_trials_optimized "A" 10 abc_tx
  = (Returns [mkEntry "B" (1 # 3); mkEntry "C" (0 # 2)],
     mkTx (mkGraph (subject_nodes abc) (object_nodes abc) (relationships abc)
             [mkSimilar "A" "B" (1 # 3); mkSimilar "B" "A" (1 # 3);
              mkSimilar "A" "C" (0 # 2); mkSimilar "C" "A" (0 # 2)])
       [Run (QNodeCommunity "A"); Run (QCommunityMembers 1);
        Run (QIntermediate "A" ["B"; "C"]);
        Score "A" "B" ["B"; "C"];
        Run (QCachedSimilarity "A" "B");
        Run (QNodeNeighbors "A"); Run (QNodeNeighbors "B");
        Run (QCachedSimilarity "A" "C");
        Run (QCreateSimilarity "A" "B" (1 # 3));
        Score "A" "C" ["B"; "C"];
        Run (QCachedSimilarity "A" "C");
        Run (QNodeNeighbors "A"); Run (QNodeNeighbors "C");
        Run (QCachedSimilarity "A" "B"); Run (QCachedSimilarity "C" "B");
        Run (QCreateSimilarity "A" "C" (0 # 2))]).
Proof. vm_compute. reflexivity. Qed.

End Ranker.

(** ** The existence check and the untrimmed lookup *)

Module Existence.
Import Py Cypher Tx Engine Spec PyFacts CypherFacts Examples.

Section Strip.
Variable ws : ascii -> bool.

Lemma lstrip_starts_clean (l : list ascii) : starts_clean ws (lstrip_by ws l).
Proof.
  induction l as [ | c l IH]; simpl; [exact I | ].
  destruct (ws c) eqn:E; [exact IH | exact E].
Qed.

Lemma lstrip_clean (l : list ascii) : starts_clean ws l -> lstrip_by ws l = l.
Proof. destruct l as [ | c l]; simpl; [reflexivity | intros ->; reflexivity]. Qed.

Lemma lstrip_suffix (l : list ascii) :
  exists p, l = p ++ lstrip_by ws l.
Proof.
  induction l as [ | c l [p IH]]; simpl.
  - exists []. reflexivity.
  - destruct (ws c).
    + exists (c :: p). simpl. rewrite <- IH. reflexivity.
    + exists []. reflexivity.
Qed.

Lemma starts_clean_rev_suffix (p s : list ascii) :
  starts_clean ws (rev (p ++ s)) -> starts_clean ws (rev s).
Proof.
  rewrite rev_app_distr. destruct (rev s) as [ | c r]; simpl; [trivial | ].
  intros H. exact H.
Qed.

Lemma lstrip_keeps_end (l : list ascii) :
  starts_clean ws (rev l) -> starts_clean ws (rev (lstrip_by ws l)).
Proof.
  destruct (lstrip_suffix l) as [p Hp]. intros H.
  rewrite Hp in H. exact (starts_clean_rev_suffix p _ H).
Qed.

Lemma lstrip_spaces (p l : list ascii) :
  Forall (fun c => ws c = true) p -> lstrip_by ws (p ++ l) = lstrip_by ws l.
Proof.
  induction p as [ | c p IH]; intros H; simpl; [reflexivity | ].
  inversion H as [ | ? ? Hc Hp]; subst. rewrite Hc. apply IH, Hp.
Qed.

(** The characters [strip_by] keeps. *)
Lemma stripped_clean (l : list ascii) :
  let r := rev (lstrip_by ws (rev (lstrip_by ws l))) in
  starts_clean ws r /\ starts_clean ws (rev r).
Proof.
  cbn zeta. split.
  - apply lstrip_keeps_end. rewrite rev_involutive. apply lstrip_starts_clean.
  - rewrite rev_involutive. apply lstrip_starts_clean.
Qed.

Lemma strip_clean (l : list ascii) :
  starts_clean ws l -> starts_clean ws (rev l) ->
  rev (lstrip_by ws (rev (lstrip_by ws l))) = l.
Proof.
  intros H1 H2. rewrite (lstrip_clean l H1), (lstrip_clean _ H2).
  apply rev_involutive.
Qed.

End Strip.

Lemma starts_clean_weaken (ws1 ws2 : ascii -> bool) (l : list ascii) :
  (forall c, ws2 c = true -> ws1 c = true) ->
  starts_clean ws1 l -> starts_clean ws2 l.
Proof.
  intros Hsub. destruct l as [ | c l]; simpl; [trivial | ].
  intros H. destruct (ws2 c) eqn:E; [ | reflexivity].
  rewrite (Hsub c E) in H. discriminate H.
Qed.

Lemma whitespace_is_space (c : ascii) : is_whitespace c = true -> isspace c = true.
Proof.
  unfold is_whitespace, isspace. cbn zeta. intros H. rewrite H. reflexivity.
Qed.

(** Neo4j's [TRIM] finds nothing left to strip after Python's [strip]. *)
Lemma TRIM_strip (s : string) : TRIM (strip s) = strip s.
Proof.
  unfold TRIM, strip, strip_by at 1.
  unfold strip_by. rewrite list_ascii_of_string_of_list_ascii.
  destruct (stripped_clean isspace (list_ascii_of_string s)) as [H1 H2].
  rewrite strip_clean; [reflexivity | | ].
  - exact (starts_clean_weaken isspace is_whitespace _ whitespace_is_space H1).
  - exact (starts_clean_weaken isspace is_whitespace _ whitespace_is_space H2).
Qed.

Lemma list_ascii_of_string_app (s1 s2 : string) :
  list_ascii_of_string (s1 ++ s2)
  = list_ascii_of_string s1 ++ list_ascii_of_string s2.
Proof. induction s1 as [ | c s1 IH]; simpl; [reflexivity | rewrite IH; reflexivity]. Qed.

(** Stripping a padded name gives the name back when the name itself has
    nothing to strip. *)
Lemma strip_padded (input nm : string) :
  padded input nm -> strip nm = nm -> strip input = nm.
Proof.
  intros [l [r [Hl [Hr [_ ->]]]]] Hnm.
  assert (Hclean : starts_clean isspace (list_ascii_of_string nm) /\
                   starts_clean isspace (rev (list_ascii_of_string nm))).
  { rewrite <- Hnm at 1 2. unfold strip, strip_by.
    rewrite list_ascii_of_string_of_list_ascii. apply stripped_clean. }
  destruct Hclean as [H1 H2].
  unfold strip, strip_by.
  rewrite !list_ascii_of_string_app, !list_ascii_of_string_of_list_ascii.
  rewrite (lstrip_spaces isspace l _ Hl).
  set (n := list_ascii_of_string nm) in *.
  assert (Hrev : Forall (fun c => isspace c = true) (rev r)).
  { apply List.Forall_forall. intros c Hc. apply in_rev in Hc.
    rewrite List.Forall_forall in Hr. apply Hr, Hc. }
  destruct n as [ | c n'] eqn:En.
  - cbn [app].
    assert (Hall : forall p, Forall (fun c => isspace c = true) p ->
                             lstrip_by isspace p = []).
    { intros p Hp. rewrite <- (app_nil_r p), (lstrip_spaces isspace p [] Hp).
      reflexivity. }
    rewrite (Hall r Hr). cbn [rev lstrip_by].
    rewrite <- (string_of_list_ascii_of_string nm). fold n. rewrite En. reflexivity.
  - rewrite (lstrip_clean isspace ((c :: n') ++ r)) by exact H1.
    rewrite rev_app_distr, (lstrip_spaces isspace (rev r) _ Hrev).
    rewrite (lstrip_clean isspace _ H2), rev_involutive.
    rewrite <- En. unfold n. apply string_of_list_ascii_of_string.
Qed.

Lemma check_node_exists_strips (t : tx) (input : string) :
  fst (check_node_exists input SubjectNode t)
  = Returns (0 <? length (match_subject (db t) (strip input)))%nat.
Proof.
  unfold check_node_exists, run_read, node_exists_row. cbn [fst].
  rewrite TRIM_strip. reflexivity.
Qed.

Lemma unmatched_lookup_is_empty (t : tx) (input : string) (k : Z) :
  match_subject (db t) input = [] ->
  fst (find_similar_trials_optimized input k t) = Returns [].
Proof.
  intros H.
  unfold find_similar_trials_optimized, bind, get_node_community, run_read,
    node_community_rows.
  rewrite H. reflexivity.
Qed.

Lemma main_query_no_match (t : tx) (input : string) :
  fst (check_node_exists input SubjectNode t) = Returns true ->
  match_subject (db t) input = [] ->
  fst (main_query input t) = Returns NoSimilarTrialsFound.
Proof.
  intros Hcheck Hno. unfold main_query, bind.
  destruct (check_node_exists input SubjectNode t) as [o t1] eqn:E.
  cbn [fst] in Hcheck. subst o. cbn [negb].
  assert (Hdb : db t1 = db t).
  { unfold check_node_exists, run_read in E. injection E as _ <-. reflexivity. }
  pose proof (unmatched_lookup_is_empty t1 input 10) as Hfind.
  rewrite Hdb in Hfind. specialize (Hfind Hno).
  destruct (find_similar_trials_optimized input 10 t1) as [o2 t2].
  cbn [fst] in Hfind. subst o2. reflexivity.
Qed.

Lemma check_passes (t : tx) (input : string) :
  exists_subject (db t) (strip input) ->
  fst (check_node_exists input SubjectNode t) = Returns true.
Proof.
  intros Hex. rewrite check_node_exists_strips. unfold exists_subject in Hex.
  destruct (match_subject (db t) (strip input)); [congruence | reflexivity].
Qed.

(** C10, as the code behaves: [check_node_exists] strips the parameter
    only and compares it with the stored name as it is, while the ranker
    looks the identifier up as entered.  So when the stripped input names
    a SubjectNode and the input as entered names none, the existence check
    succeeds, the community lookup matches no node, the query returns the
    empty list, and [main] reports that no similar trials were found. *)
Theorem stripped_check_untrimmed_lookup (t : tx) (input : string) :
  exists_subject (db t) (strip input) ->
  match_subject (db t) input = [] ->
  fst (check_node_exists input SubjectNode t) = Returns true /\
  node_community_rows (db t) input = [] /\
  (forall k, fst (find_similar_trials_optimized input k t) = Returns []) /\
  fst (main_query input t) = Returns NoSimilarTrialsFound.
Proof.
  intros Hex Hno. pose proof (check_passes t input Hex) as Hcheck.
  split; [exact Hcheck | split; [ | split]].
  - unfold node_community_rows. rewrite Hno. reflexivity.
  - intros k. apply unmatched_lookup_is_empty, Hno.
  - apply main_query_no_match; assumption.
Qed.

Lemma stripped_check_untrimmed_lookup_witness :
  exists_subject (db abc_tx) (strip " A ") /\
  match_subject (db abc_tx) " A " = [] /\
  fst (check_node_exists " A " SubjectNode abc_tx) = Returns true /\
  node_community_rows (db abc_tx) " A " = [] /\
  (forall k, fst (find_similar_trials_optimized " A " k abc_tx) = Returns []) /\
  fst (main_query " A " abc_tx) = Returns NoSimilarTrialsFound.
Proof.
  assert (H1 : exists_subject (db abc_tx) (strip " A "))
    by (vm_compute; discriminate).
  assert (H2 : match_subject (db abc_tx) " A " = []) by reflexivity.
  split; [exact H1 | split; [exact H2 | ]].
  exact (stripped_check_untrimmed_lookup abc_tx " A " H1 H2).
Defined.

(** The same for an existing name that has nothing to strip, padded with
    whitespace, in a store that has no node under the padded name. *)
Corollary padded_clean_name (t : tx) (nm input : string) :
  exists_subject (db t) nm -> strip nm = nm -> padded input nm ->
  match_subject (db t) input = [] ->
  fst (check_node_exists input SubjectNode t) = Returns true /\
  fst (main_query input t) = Returns NoSimilarTrialsFound.
Proof.
  intros Hex Hnm Hpad Hno.
  assert (Hs : exists_subject (db t) (strip input))
    by (rewrite (strip_padded input nm Hpad Hnm); exact Hex).
  pose proof (check_passes t input Hs) as Hcheck.
  split; [exact Hcheck | apply main_query_no_match; assumption].
Qed.

(** C10 as stated does not hold, because the stored name is not
    trimmed: in a store whose only trial is named [" A"], that name with
    one more leading space does not pass the existence check. *)
Lemma padded_name_can_fail_check :
  exists_subject (db spaced) " A" /\
  padded "  A" " A" /\
  fst (check_node_exists "  A" SubjectNode spaced) = Returns false /\
  fst (main_query "  A" spaced) = Returns (NodeDoesNotExist "  A") /\
  ~ padded_name_passes_check.
Proof.
  assert (Hex : exists_subject (db spaced) " A") by (vm_compute; discriminate).
  assert (Hpad : padded "  A" " A").
  { exists [" "%char], []. split; [ | split; [ | split]].
    - repeat constructor.
    - constructor.
    - left. discriminate.
    - reflexivity. }
  split; [exact Hex | split; [exact Hpad | split; [reflexivity | split]]].
  - reflexivity.
  - intros H. destruct (H spaced " A" "  A" Hex Hpad) as [Hc _].
    discriminate Hc.
Qed.

End Existence.

(** ** More on the cache: what a write leaves alone *)

Module CacheMore.
Import Py Cypher Tx Engine Spec Store PyFacts CypherFacts ScorerFacts Cache.
Import Examples MoreExamples.

Lemma is_edge_other (a b c d : string) (s : Q) :
  (a, b) <> (c, d) -> is_edge c d (mkSimilar a b s) = false.
Proof.
  intros Hne. destruct (is_edge c d (mkSimilar a b s)) eqn:E; [ | reflexivity].
  exfalso. apply Hne. unfold is_edge in E. simpl in E.
  apply andb_true_iff in E. destruct E as [H1 H2].
  apply String.eqb_eq in H1, H2. congruence.
Qed.

Lemma filter_merge_set_other (a b c d : string) (s : Q) (es : list similar_edge) :
  (a, b) <> (c, d) ->
  List.filter (is_edge c d) (merge_set a b s es) = List.filter (is_edge c d) es.
Proof.
  intros Hne. unfold merge_set. destruct (existsb (is_edge a b) es).
  - induction es as [ | e es IH]; [reflexivity | ].
    cbn [List.map List.filter]. rewrite IH.
    destruct (is_edge a b e) eqn:Hab; [ | reflexivity].
    rewrite (is_edge_other a b c d s Hne).
    destruct (is_edge c d e) eqn:Hcd; [ | reflexivity].
    exfalso. apply Hne. destruct (is_edge_same _ _ _ _ _ Hab Hcd) as [-> ->].
    reflexivity.
  - rewrite List.filter_app. cbn [List.filter].
    rewrite (is_edge_other a b c d s Hne). apply app_nil_r.
Qed.

Lemma create_similarity_other (g : graph) (a b c d : string) (s : Q) :
  (c, d) <> (a, b) -> (c, d) <> (b, a) ->
  List.filter (is_edge c d) (similar_to (create_similarity g a b s))
  = List.filter (is_edge c d) (similar_to g).
Proof.
  intros H1 H2. unfold create_similarity.
  apply (fold_const_invariant
           (fun g' => List.filter (is_edge c d) (similar_to g')
                      = List.filter (is_edge c d) (similar_to g))).
  - intros y Hy. cbn [write_pair similar_to].
    rewrite !filter_merge_set_other by congruence. exact Hy.
  - reflexivity.
Qed.

(** A cache read depends on the SubjectNodes and on the edges of its own
    pair only. *)
Lemma cached_similarity_ext (g g' : graph) (c d : string) :
  subject_nodes g' = subject_nodes g ->
  List.filter (is_edge c d) (similar_to g') = List.filter (is_edge c d) (similar_to g) ->
  cached_similarity g' c d = cached_similarity g c d.
Proof.
  intros Hn He. unfold cached_similarity, cached_similarity_rows, match_subject.
  rewrite Hn, He. reflexivity.
Qed.

Lemma cached_other_pair (g : graph) (a b c d : string) (s : Q) :
  (c, d) <> (a, b) -> (c, d) <> (b, a) ->
  cached_similarity (create_similarity g a b s) c d = cached_similarity g c d.
Proof.
  intros H1 H2. apply cached_similarity_ext.
  - apply create_similarity_nodes.
  - apply create_similarity_other; assumption.
Qed.

(** X1: a write for the pair [(a, b)] leaves the cached score of every
    pair other than [(a, b)] and [(b, a)] as it was. *)
Theorem write_leaves_other_pairs (t : tx) (a b c d : string) (s : Q) :
  (c, d) <> (a, b) -> (c, d) <> (b, a) ->
  fst (get_cached_similarity c d (snd (create_similarity_relationship a b s t)))
  = fst (get_cached_similarity c d t).
Proof.
  intros H1 H2.
  unfold get_cached_similarity, create_similarity_relationship, run_read, run_write.
  cbn [fst snd db]. rewrite (cached_other_pair (db t) a b c d s H1 H2). reflexivity.
Qed.

Lemma write_leaves_other_pairs_witness :
  ("A", "C") <> ("A", "B") /\ ("A", "C") <> ("B", "A") /\
  fst (get_cached_similarity "A" "C"
         (snd (create_similarity_relationship "A" "B" (1 # 3) warm_tx)))
  = fst (get_cached_similarity "A" "C" warm_tx).
Proof.
  assert (H1 : ("A", "C") <> ("A", "B")) by discriminate.
  assert (H2 : ("A", "C") <> ("B", "A")) by discriminate.
  split; [exact H1 | split; [exact H2 | ]].
  exact (write_leaves_other_pairs warm_tx "A" "B" "A" "C" (1 # 3) H1 H2).
Defined.

(** *** Writing twice *)

Lemma merge_set_settles (a b : string) (s : Q) (es : list similar_edge) :
  settled a b s (merge_set a b s es).
Proof.
  destruct (merge_set_written a b s es) as [Hex _]. split; [exact Hex | ].
  unfold merge_set. destruct (existsb (is_edge a b) es) eqn:E.
  - intros e' He' Hab. apply in_map_iff in He'. destruct He' as [e [<- He]].
    destruct (is_edge a b e) eqn:Hab'; [reflexivity | congruence].
  - intros e He Hab. apply in_app_or in He. destruct He as [He | [<- | []]].
    + assert (X : existsb (is_edge a b) es = true)
        by (apply existsb_exists; exists e; split; assumption).
      congruence.
    + reflexivity.
Qed.

Lemma merge_set_settled (a b : string) (s : Q) (es : list similar_edge) :
  settled a b s es -> merge_set a b s es = es.
Proof.
  intros [Hex Hall]. unfold merge_set. rewrite Hex.
  rewrite <- (List.map_id es) at 2. apply List.map_ext_in.
  intros e He. destruct (is_edge a b e) eqn:Hab; [ | reflexivity].
  symmetry. apply Hall; assumption.
Qed.

Lemma merge_set_keeps_settled (a b c d : string) (s : Q) (es : list similar_edge) :
  settled a b s es -> settled a b s (merge_set c d s es).
Proof.
  intros Hab. destruct (decide ((a, b) = (c, d))) as [Heq | Hne'].
  - injection Heq as -> ->. apply merge_set_settles.
  - assert (Hne : (c, d) <> (a, b)) by congruence.
    destruct Hab as [Hex Hall]. split.
    + rewrite existsb_exists in *. destruct Hex as [e [He Hab]].
      exists e. split; [ | exact Hab].
      assert (Hin : In e (List.filter (is_edge a b) (merge_set c d s es))).
      { rewrite (filter_merge_set_other c d a b s es Hne).
        apply filter_In. split; assumption. }
      apply filter_In in Hin. apply Hin.
    + intros e He Hab. apply Hall; [ | exact Hab].
      assert (Hin : In e (List.filter (is_edge a b) (merge_set c d s es)))
        by (apply filter_In; split; assumption).
      rewrite (filter_merge_set_other c d a b s es Hne) in Hin.
      apply filter_In in Hin. apply Hin.
Qed.

Lemma write_pair_twice (a b : string) (s : Q) (g : graph) :
  write_pair a b s (write_pair a b s g) = write_pair a b s g.
Proof.
  unfold write_pair. cbn [subject_nodes object_nodes relationships similar_to].
  f_equal.
  set (es := merge_set b a s (merge_set a b s (similar_to g))).
  assert (Hab : settled a b s es)
    by (apply merge_set_keeps_settled, merge_set_settles).
  assert (Hba : settled b a s es) by apply merge_set_settles.
  rewrite (merge_set_settled a b s es Hab). apply (merge_set_settled b a s es Hba).
Qed.

Lemma fold_const_fixed {A B : Type} (f : A -> A) (rows : list B) (x : A) :
  f x = x -> fold_left (fun acc _ => f acc) rows x = x.
Proof.
  intros H. induction rows as [ | r rows IH]; simpl; [reflexivity | ].
  rewrite H. exact IH.
Qed.

Lemma endpoint_rows_create (g : graph) (a b c d : string) (s : Q) :
  endpoint_rows (create_similarity g a b s) c d = endpoint_rows g c d.
Proof. unfold endpoint_rows. rewrite !match_subject_create. reflexivity. Qed.

Lemma create_similarity_twice (g : graph) (a b : string) (s : Q) :
  create_similarity (create_similarity g a b s) a b s = create_similarity g a b s.
Proof.
  unfold create_similarity at 1. rewrite endpoint_rows_create.
  destruct (endpoint_rows g a b) as [ | r rows] eqn:E; [reflexivity | ].
  apply fold_const_fixed.
  unfold create_similarity. rewrite E.
  destruct (fold_const_last (write_pair a b s) (r :: rows) g) as [y ->];
    [discriminate | ].
  apply write_pair_twice.
Qed.

(** X2: writing the same pair with the same score a second time changes
    nothing: the graph after the second write is the graph after the
    first. *)
Theorem write_is_idempotent (t : tx) (a b : string) (s : Q) :
  db (snd (create_similarity_relationship a b s
             (snd (create_similarity_relationship a b s t))))
  = db (snd (create_similarity_relationship a b s t)).
Proof.
  unfold create_similarity_relationship, run_write. cbn [snd db].
  apply create_similarity_twice.
Qed.

(** *** Nodes, neighbors and communities *)

Lemma create_same_structure (g : graph) (a b : string) (s : Q) :
  same_structure g (create_similarity g a b s).
Proof. apply create_similarity_nodes. Qed.

Lemma same_structure_reads (g g' : graph) :
  same_structure g g' ->
  (forall nm, match_subject g' nm = match_subject g nm) /\
  (forall nm, node_neighbors g' nm = node_neighbors g nm) /\
  (forall nm, node_community_rows g' nm = node_community_rows g nm) /\
  (forall cid, community_members_rows g' cid = community_members_rows g cid) /\
  (forall nm l, node_exists_row g' nm l = node_exists_row g nm l).
Proof.
  intros [Hs [Ho Hr]].
  assert (Hm : forall nm, match_subject g' nm = match_subject g nm)
    by (intros nm; unfold match_subject; rewrite Hs; reflexivity).
  assert (Hobj : forall nm, match_object g' nm = match_object g nm)
    by (intros nm; unfold match_object; rewrite Ho; reflexivity).
  split; [exact Hm | split; [ | split; [ | split]]].
  - intros nm. unfold node_neighbors, node_neighbors_rows. rewrite Hm, Hr.
    f_equal. apply List.flat_map_ext. intros _.
    apply List.flat_map_ext. intros r. apply Hobj.
  - intros nm. unfold node_community_rows. rewrite Hm. reflexivity.
  - intros cid. unfold community_members_rows. rewrite Hs. reflexivity.
  - intros nm l. unfold node_exists_row. destruct l; rewrite ?Hm, ?Hobj; reflexivity.
Qed.

(** X3: a cache write touches [SIMILAR_TO] edges only.  Whatever the pair
    and the score, every neighbor lookup, community lookup, member list
    and existence check answers after the write as it did before. *)
Theorem write_keeps_structure (t : tx) (a b : string) (s : Q) :
  let t' := snd (create_similarity_relationship a b s t) in
  same_structure (db t) (db t') /\
  (forall nm, fst (get_node_neighbors nm t') = fst (get_node_neighbors nm t)) /\
  (forall nm, fst (get_node_community nm t') = fst (get_node_community nm t)) /\
  (forall cid, fst (get_community_members cid t') = fst (get_community_members cid t)) /\
  (forall nm l, fst (check_node_exists nm l t') = fst (check_node_exists nm l t)).
Proof.
  cbn zeta. unfold create_similarity_relationship, run_write. cbn [snd].
  pose proof (create_same_structure (db t) a b s) as Hs.
  destruct (same_structure_reads _ _ Hs) as [_ [Hn [Hc [Hm He]]]].
  split; [exact Hs | ].
  unfold get_node_neighbors, get_node_community, get_community_members,
    check_node_exists, run_read. cbn [fst db].
  split; [ | split; [ | split]].
  - intros nm. rewrite Hn. reflexivity.
  - intros nm. rewrite Hc. reflexivity.
  - intros cid. rewrite Hm. reflexivity.
  - intros nm l. rewrite He. reflexivity.
Qed.

(** *** Symmetry as an invariant *)

Lemma create_keeps_symmetric (g : graph) (a b : string) (s : Q) :
  symmetric_store g -> symmetric_store (create_similarity g a b s).
Proof.
  intros Hg c d.
  destruct (decide ((c, d) = (a, b))) as [Heq | H1].
  { injection Heq as -> ->.
    destruct (match_subject g a) as [ | n1 l1] eqn:Ha.
    { rewrite create_similarity_missing by (left; exact Ha). apply Hg. }
    destruct (match_subject g b) as [ | n2 l2] eqn:Hb.
    { rewrite create_similarity_missing by (right; exact Hb). apply Hg. }
    assert (Ha' : exists_subject g a) by (unfold exists_subject; congruence).
    assert (Hb' : exists_subject g b) by (unfold exists_subject; congruence).
    destruct (cached_after_create g a b s Ha' Hb') as [-> ->]. reflexivity. }
  destruct (decide ((c, d) = (b, a))) as [Heq | H2].
  { injection Heq as -> ->.
    destruct (match_subject g a) as [ | n1 l1] eqn:Ha.
    { rewrite create_similarity_missing by (left; exact Ha). apply Hg. }
    destruct (match_subject g b) as [ | n2 l2] eqn:Hb.
    { rewrite create_similarity_missing by (right; exact Hb). apply Hg. }
    assert (Ha' : exists_subject g a) by (unfold exists_subject; congruence).
    assert (Hb' : exists_subject g b) by (unfold exists_subject; congruence).
    destruct (cached_after_create g a b s Ha' Hb') as [-> ->]. reflexivity. }
  rewrite (cached_other_pair g a b c d s) by congruence.
  rewrite (cached_other_pair g a b d c s) by congruence.
  apply Hg.
Qed.

End CacheMore.

(** ** More on the ranker: what a query does to the store *)

Module RankerMore.
Import Py Cypher Tx Engine Spec Store PyFacts CypherFacts ScorerFacts Cache.
Import RankerFacts CacheMore Examples MoreExamples.

(** The ranker up to the sort, with its three lookups done. *)
Lemma before_sort_eq (trial_id : string) (t : tx) :
  similarities_before_sort trial_id t
  = match single (node_community_rows (db t) trial_id) with
    | Some (Some cid) =>
        let ms := without_first trial_id (community_members_rows (db t) cid) in
        score_loop trial_id ms (dict_of (intermediate_rows (db t) trial_id ms)) ms []
          (mkTx (db t)
             (trace t ++ [Run (QNodeCommunity trial_id);
                          Run (QCommunityMembers cid);
                          Run (QIntermediate trial_id ms)]))
    | _ => (Returns [], mkTx (db t) (trace t ++ [Run (QNodeCommunity trial_id)]))
    end.
Proof.
  unfold similarities_before_sort, bind, get_node_community, get_community_members,
    get_intermediate_similarities, run_read. cbn [db trace].
  destruct (single (node_community_rows (db t) trial_id)) as [[cid | ] | ];
    [ | reflexivity | reflexivity].
  cbn [db trace].
  set (ms := community_members_rows (db t) cid).
  assert (Hms : (if contains trial_id ms then lift (Py.remove trial_id ms) else ret ms)
                = lift (Returns (without_first trial_id ms))).
  { destruct (contains trial_id ms) eqn:Hc.
    - rewrite (remove_returns trial_id ms Hc). reflexivity.
    - rewrite (without_first_absent trial_id ms Hc). reflexivity. }
  rewrite Hms. unfold lift. cbn [db trace]. rewrite <- !app_assoc. reflexivity.
Qed.

Lemma find_similar_state (trial_id : string) (k : Z) (t : tx) :
  snd (find_similar_trials_optimized trial_id k t)
  = snd (similarities_before_sort trial_id t).
Proof.
  rewrite find_similar_sorts.
  destruct (similarities_before_sort trial_id t) as [[l | e] t']; reflexivity.
Qed.

Lemma find_similar_result (trial_id : string) (k : Z) (t : tx) (l : list entry) :
  fst (similarities_before_sort trial_id t) = Returns l ->
  fst (find_similar_trials_optimized trial_id k t)
  = Returns (slice_to (sort_desc similarity l) k).
Proof.
  rewrite find_similar_sorts.
  destruct (similarities_before_sort trial_id t) as [[l' | e] t']; cbn [fst];
    intros H; [injection H as -> | discriminate H]. reflexivity.
Qed.

(** *** Invariants of the store *)

Section Invariant.
Variable P : graph -> Prop.
Hypothesis write_keeps :
  forall g a b s,
    cached_similarity g a b = None -> P g -> P (create_similarity g a b s).

Lemma compute_keeps (a b : string) (ms : list string) (sims : gmap string Q)
    (t : tx) :
  P (db t) -> P (db (snd (compute_optimized_jaccard a b ms sims t))).
Proof.
  intros H.
  destruct (compute_run a b ms sims t)
    as [r [g' [ev [-> [_ [[-> _] | [-> Hmiss]]]]]]];
    cbn [snd db]; [exact H | apply write_keeps; assumption].
Qed.

Lemma score_loop_keeps (q : string) (ms : list string) (sims : gmap string Q)
    (todo : list string) :
  forall (acc : list entry) (t : tx),
    P (db t) -> P (db (snd (score_loop q ms sims todo acc t))).
Proof.
  induction todo as [ | m rest IH]; intros acc t H; [exact H | ].
  cbn [score_loop]. unfold bind.
  pose proof (compute_keeps q m ms sims t H) as H'.
  destruct (compute_optimized_jaccard q m ms sims t) as [[r | e] t1].
  - apply IH. exact H'.
  - exact H'.
Qed.

Lemma find_similar_keeps (q : string) (k : Z) (t : tx) :
  P (db t) -> P (db (snd (find_similar_trials_optimized q k t))).
Proof.
  intros H. rewrite find_similar_state, before_sort_eq.
  destruct (single (node_community_rows (db t) q)) as [[cid | ] | ];
    [ | exact H | exact H].
  cbn zeta. apply score_loop_keeps. exact H.
Qed.

End Invariant.

Lemma same_structure_trans (g g' g'' : graph) :
  same_structure g g' -> same_structure g' g'' -> same_structure g g''.
Proof.
  intros [H1 [H2 H3]] [H1' [H2' H3']]. repeat split; congruence.
Qed.

(** X4: a query writes [SIMILAR_TO] edges and nothing else: the nodes,
    their communities and the [RELATIONSHIP] edges of the store are after
    the query what they were before it. *)
Theorem query_keeps_structure (t : tx) (trial_id : string) (k : Z) :
  same_structure (db t) (db (snd (find_similar_trials_optimized trial_id k t))).
Proof.
  apply (find_similar_keeps (same_structure (db t))).
  - intros g a b s _ H.
    exact (same_structure_trans _ _ _ H (create_same_structure g a b s)).
  - repeat split.
Qed.

(** X5: symmetry of the cache is an invariant of the engine: when the two
    directions of every pair read the same before a query, they do after
    it. *)
Theorem query_keeps_symmetry (t : tx) (trial_id : string) (k : Z) :
  symmetric_store (db t) ->
  symmetric_store (db (snd (find_similar_trials_optimized trial_id k t))).
Proof.
  apply find_similar_keeps. intros g a b s _. apply create_keeps_symmetric.
Qed.

Lemma empty_cache_reads_none (g : graph) (c d : string) :
  similar_to g = [] -> cached_similarity g c d = None.
Proof.
  intros H. unfold cached_similarity, cached_similarity_rows. rewrite H.
  cbn [List.filter flat_map]. rewrite flat_map_const_nil. reflexivity.
Qed.

Lemma empty_cache_symmetric (g : graph) : similar_to g = [] -> symmetric_store g.
Proof. intros H c d. rewrite !empty_cache_reads_none by exact H. reflexivity. Qed.

Lemma abc_symmetric : symmetric_store (db abc_tx).
Proof. apply empty_cache_symmetric. reflexivity. Qed.

Lemma query_keeps_symmetry_witness :
  symmetric_store (db abc_tx) /\
  symmetric_store (db (snd (find_similar_trials_optimized "A" 10 abc_tx))).
Proof.
  split; [exact abc_symmetric | ].
  exact (query_keeps_symmetry abc_tx "A" 10 abc_symmetric).
Defined.

(** X20: in a symmetric cache a score, once cached, is never changed by
    a query: whatever entity is queried, every pair that had a cached
    score before the query has the same cached score after it. *)
Theorem cached_scores_are_final (t : tx) (trial_id : string) (k : Z) :
  symmetric_store (db t) ->
  forall c d x,
    fst (get_cached_similarity c d t) = Returns (Some x) ->
    fst (get_cached_similarity c d
           (snd (find_similar_trials_optimized trial_id k t))) = Returns (Some x).
Proof.
  intros Hsym.
  assert (H : symmetric_store (db (snd (find_similar_trials_optimized trial_id k t)))
              /\ forall c d x,
                   cached_similarity (db t) c d = Some x ->
                   cached_similarity
                     (db (snd (find_similar_trials_optimized trial_id k t))) c d
                   = Some x).
  { apply (find_similar_keeps
             (fun g => symmetric_store g /\
                       forall c d x, cached_similarity (db t) c d = Some x ->
                                     cached_similarity g c d = Some x)).
    - intros g a b s Hmiss [Hg Hkeep]. split; [apply create_keeps_symmetric, Hg | ].
      intros c d x Hx. specialize (Hkeep c d x Hx).
      rewrite cached_other_pair; [exact Hkeep | | ].
      + intros Heq. injection Heq as -> ->. congruence.
      + intros Heq. injection Heq as -> ->. rewrite (Hg b a) in Hkeep. congruence.
    - split; [exact Hsym | intros c d x Hx; exact Hx]. }
  destruct H as [_ H]. intros c d x Hx.
  unfold get_cached_similarity, run_read in *. cbn [fst] in *.
  injection Hx as Hx. rewrite (H c d x Hx). reflexivity.
Qed.

Lemma abc_queried_symmetric : symmetric_store (db abc_queried).
Proof.
  unfold abc_queried. apply find_similar_keeps.
  - intros g a b s _. apply create_keeps_symmetric.
  - exact abc_symmetric.
Qed.

Lemma cached_scores_are_final_witness :
  symmetric_store (db abc_queried) /\
  fst (get_cached_similarity "A" "B" abc_queried) = Returns (Some (1 # 3)%Q) /\
  fst (get_cached_similarity "A" "B"
         (snd (find_similar_trials_optimized "B" 10 abc_queried)))
  = Returns (Some (1 # 3)%Q).
Proof.
  assert (H : fst (get_cached_similarity "A" "B" abc_queried) = Returns (Some (1 # 3)%Q))
    by reflexivity.
  split; [exact abc_queried_symmetric | split; [exact H | ]].
  exact (cached_scores_are_final abc_queried "B" 10 abc_queried_symmetric
           "A" "B" (1 # 3) H).
Defined.

(** Symmetry is needed: in a store that caches [A -> C] but not [C -> A],
    a query for [C] misses on [(C, A)] and its write replaces the score
    of [(A, C)]. *)
Example lopsided_is_overwritten :
  fst (get_cached_similarity "A" "C" lopsided) = Returns (Some (1 # 5)%Q) /\
  fst (get_cached_similarity "A" "C"
         (snd (find_similar_trials_optimized "C" 10 lopsided)))
  = Returns (Some (0 # 2)%Q).
Proof. split; vm_compute; reflexivity. Qed.

(** *** What a query leaves in the cache *)

Lemma without_first_subset (x m : string) (l : list string) :
  In m (without_first x l) -> In m l.
Proof.
  induction l as [ | y l IH]; [intros [] | ].
  cbn [without_first]. destruct (String.eqb y x).
  - intros H. right. exact H.
  - intros [<- | H]; [left; reflexivity | right; apply IH, H].
Qed.

Lemma member_exists (g : graph) (cid : Z) (m : string) :
  In m (community_members_rows g cid) -> exists_subject g m.
Proof.
  unfold community_members_rows, exists_subject, match_subject. intros H.
  apply in_map_iff in H. destruct H as [n [<- Hn]].
  apply filter_In in Hn. destruct Hn as [Hn _].
  intros Hnil.
  assert (Hin : In n (List.filter (fun n0 => String.eqb (subject_name n0) (subject_name n))
                        (subject_nodes g)))
    by (apply filter_In; split; [exact Hn | apply String.eqb_refl]).
  rewrite Hnil in Hin. exact Hin.
Qed.

Lemma candidates_exist (g : graph) (q m : string) :
  In m (candidates g q) -> exists_subject g q /\ exists_subject g m.
Proof.
  unfold candidates, single, node_community_rows.
  destruct (match_subject g q) as [ | n l] eqn:Hq; [intros [] | ].
  cbn [List.map hd_error]. destruct (subject_community n) as [cid | ]; [ | intros []].
  intros H. split.
  - unfold exists_subject. rewrite Hq. discriminate.
  - apply (member_exists g cid). apply (without_first_subset q). exact H.
Qed.

Lemma same_structure_exists (g g' : graph) (nm : string) :
  same_structure g g' -> exists_subject g nm -> exists_subject g' nm.
Proof.
  intros Hs H. unfold exists_subject in *.
  destruct (same_structure_reads g g' Hs) as [Hm _]. rewrite Hm. exact H.
Qed.

Section Query.
Variables (q : string) (ms : list string) (sims : gmap string Q).

(** A scorer call for the query never changes what the cache holds for
    the query and another trial. *)
Lemma compute_keeps_cached (m m' : string) (x : Q) (t : tx) :
  cached_similarity (db t) q m = Some x ->
  cached_similarity (db (snd (compute_optimized_jaccard q m' ms sims t))) q m
  = Some x.
Proof.
  intros H.
  destruct (compute_run q m' ms sims t)
    as [r [g' [ev [-> [_ [[-> _] | [-> Hmiss]]]]]]]; cbn [snd db]; [exact H | ].
  rewrite cached_other_pair; [exact H | | ].
  - intros Heq. injection Heq as ->. congruence.
  - intros Heq. injection Heq as -> ->. congruence.
Qed.

Lemma compute_caches (m : string) (t : tx) :
  exists_subject (db t) q -> exists_subject (db t) m ->
  exists (r : Q) (t' : tx),
    compute_optimized_jaccard q m ms sims t = (Returns r, t') /\
    cached_similarity (db t') q m = Some r /\
    same_structure (db t) (db t').
Proof.
  intros Hq Hm.
  destruct (compute_run q m ms sims t)
    as [r [g' [ev [-> [_ [[-> Hhit] | [-> Hmiss]]]]]]].
  - eexists _, _. split; [reflexivity | ]. cbn [db].
    split; [exact Hhit | repeat split].
  - eexists _, _. split; [reflexivity | ]. cbn [db].
    split; [apply (cached_after_create (db t) q m r Hq Hm) | ].
    apply create_same_structure.
Qed.

Lemma score_loop_caches (todo : list string) :
  forall (acc : list entry) (t : tx),
    exists_subject (db t) q ->
    Forall (exists_subject (db t)) todo ->
    all_cached (db t) q acc ->
    exists (res : list entry) (t' : tx),
      score_loop q ms sims todo acc t = (Returns res, t') /\
      all_cached (db t') q res /\
      same_structure (db t) (db t').
Proof.
  induction todo as [ | m rest IH]; intros acc t Hq Htodo Hacc.
  - exists acc, t. split; [reflexivity | split; [exact Hacc | repeat split]].
  - cbn [score_loop]. unfold bind.
    inversion Htodo as [ | ? ? Hm Hrest]; subst.
    destruct (compute_caches m t Hq Hm) as [r [t1 [Hrun [Hr Hs]]]].
    assert (Hacc1 : all_cached (db t1) q (acc ++ [mkEntry m r])).
    { apply Forall_app. split.
      - unfold all_cached in *. eapply Forall_impl; [exact Hacc | ].
        intros e He. cbn beta in *.
        pose proof (compute_keeps_cached (trial e) m (similarity e) t He) as H.
        rewrite Hrun in H. exact H.
      - constructor; [exact Hr | constructor]. }
    rewrite Hrun.
    destruct (IH (acc ++ [mkEntry m r]) t1) as [res [t' [Hloop [Hres Hs']]]].
    + exact (same_structure_exists _ _ q Hs Hq).
    + eapply Forall_impl; [exact Hrest | ].
      intros nm. apply same_structure_exists. exact Hs.
    + exact Hacc1.
    + exists res, t'. split; [exact Hloop | split; [exact Hres | ]].
      exact (same_structure_trans _ _ _ Hs Hs').
Qed.

(** A loop over trials that are all cached returns the cached scores
    and only reads the cache. *)
Lemma score_loop_replay (l : list entry) :
  forall (acc : list entry) (t : tx),
    all_cached (db t) q l ->
    score_loop q ms sims (List.map trial l) acc t
    = (Returns (acc ++ l), mkTx (db t) (trace t ++ replay_events q ms l)).
Proof.
  induction l as [ | e l IH]; intros acc t H.
  - cbn [List.map score_loop replay_events flat_map]. unfold ret.
    rewrite app_nil_r, tx_eta. reflexivity.
  - inversion H as [ | ? ? He Hl]; subst.
    cbn [List.map score_loop]. unfold bind.
    rewrite (compute_hit q (trial e) ms sims t (similarity e) He).
    rewrite IH by exact Hl. cbn [db trace].
    destruct e as [m x]. cbn [trial similarity replay_events flat_map app].
    rewrite <- !app_assoc. reflexivity.
Qed.

End Query.

Lemma before_sort_caches (q : string) (t : tx) :
  exists (l : list entry) (t' : tx),
    similarities_before_sort q t = (Returns l, t') /\
    List.map trial l = candidates (db t) q /\
    all_cached (db t') q l /\
    same_structure (db t) (db t').
Proof.
  pose proof (candidates_exist (db t) q) as Hex.
  destruct (before_sort_run q t) as [l0 [g0 [ev0 [Hrun0 [Hl0 _]]]]].
  rewrite before_sort_eq in *. unfold candidates in *.
  destruct (single (node_community_rows (db t) q)) as [[cid | ] | ].
  2,3: exists [], (mkTx (db t) (trace t ++ [Run (QNodeCommunity q)]));
       split; [reflexivity | split; [reflexivity | split; [constructor | repeat split]]].
  cbn zeta in *.
  set (ms := without_first q (community_members_rows (db t) cid)) in *.
  destruct ms as [ | m0 ms0] eqn:Hms.
  { eexists [], _. cbn [score_loop]. unfold ret.
    split; [reflexivity | split; [reflexivity | split; [constructor | repeat split]]]. }
  rewrite <- Hms in *.
  assert (Hq : exists_subject (db t) q).
  { apply (Hex m0). rewrite Hms. left. reflexivity. }
  destruct (score_loop_caches q ms (dict_of (intermediate_rows (db t) q ms)) ms []
              (mkTx (db t)
                 (trace t ++ [Run (QNodeCommunity q); Run (QCommunityMembers cid);
                              Run (QIntermediate q ms)])))
    as [res [t' [Hloop [Hres Hs]]]].
  - exact Hq.
  - apply List.Forall_forall. intros m Hm. apply (Hex m Hm).
  - constructor.
  - exists res, t'. rewrite Hloop in Hrun0. injection Hrun0 as -> _.
    split; [exact Hloop | split; [exact Hl0 | split; [exact Hres | exact Hs]]].
Qed.

(** X6: whatever [top_k] is, a query scores its whole community and
    leaves every candidate in the cache: after the query each candidate
    has a cached score with the query entity, and each entry of the
    ranking carries exactly the score the cache then holds for it. *)
Theorem query_fills_cache (t : tx) (trial_id : string) (k : Z) :
  let t1 := snd (find_similar_trials_optimized trial_id k t) in
  (forall m, In m (candidates (db t) trial_id) ->
     exists x, fst (get_cached_similarity trial_id m t1) = Returns (Some x)) /\
  exists res,
    fst (find_similar_trials_optimized trial_id k t) = Returns res /\
    forall e, In e res ->
      fst (get_cached_similarity trial_id (trial e) t1) = Returns (Some (similarity e)).
Proof.
  cbn zeta. rewrite find_similar_state.
  destruct (before_sort_caches trial_id t) as [l [t' [Hrun [Hl [Hc _]]]]].
  rewrite (find_similar_result trial_id k t l) by (rewrite Hrun; reflexivity).
  rewrite Hrun. cbn [snd].
  unfold get_cached_similarity, run_read. cbn [fst].
  unfold all_cached in Hc. rewrite List.Forall_forall in Hc.
  split.
  - intros m Hm. rewrite <- Hl in Hm. apply in_map_iff in Hm.
    destruct Hm as [e [<- He]]. exists (similarity e). rewrite (Hc e He). reflexivity.
  - eexists. split; [reflexivity | ].
    intros e He. rewrite (Hc e); [reflexivity | ].
    apply (Permutation_in _ (sort_desc_perm similarity l)).
    exact (slice_to_In e _ k He).
Qed.

Lemma query_fills_cache_witness :
  In "C" (candidates (db abc_tx) "A") /\
  exists x,
    fst (get_cached_similarity "A" "C"
           (snd (find_similar_trials_optimized "A" 0 abc_tx))) = Returns (Some x).
Proof.
  assert (H : In "C" (candidates (db abc_tx) "A")) by (right; left; reflexivity).
  split; [exact H | ].
  exact (proj1 (query_fills_cache abc_tx "A" 0) "C" H).
Defined.

Lemma replay_events_quiet (q : string) (ms : list string) (l : list entry) :
  Forall (fun e => is_neighbor_lookup e = false /\ is_cache_write e = false)
    (replay_events q ms l).
Proof.
  induction l as [ | e l IH]; [constructor | ].
  cbn [replay_events flat_map app]. repeat constructor. exact IH.
Qed.

Lemma same_structure_candidates (g g' : graph) (q : string) :
  same_structure g g' -> candidates g' q = candidates g q.
Proof.
  intros Hs. destruct (same_structure_reads g g' Hs) as [_ [_ [Hc [Hm _]]]].
  unfold candidates. rewrite Hc.
  destruct (single (node_community_rows g q)) as [[cid | ] | ]; try reflexivity.
  rewrite Hm. reflexivity.
Qed.

(** X7: a query asked again is answered from the cache.  Run after a
    first query for the same entity, the ranker returns the ranking the
    first query gives for that [top_k], leaves the graph as it is, and
    runs no neighbor lookup and no write. *)
Theorem requery_is_served_from_cache (t : tx) (trial_id : string) (k k' : Z) :
  let t1 := snd (find_similar_trials_optimized trial_id k t) in
  fst (find_similar_trials_optimized trial_id k' t1)
  = fst (find_similar_trials_optimized trial_id k' t) /\
  db (snd (find_similar_trials_optimized trial_id k' t1)) = db t1 /\
  exists ev,
    trace (snd (find_similar_trials_optimized trial_id k' t1)) = trace t1 ++ ev /\
    Forall (fun e => is_neighbor_lookup e = false /\ is_cache_write e = false) ev.
Proof.
  cbn zeta. rewrite !find_similar_state.
  destruct (before_sort_caches trial_id t) as [l [t1 [Hrun [Hl [Hc Hs]]]]].
  rewrite (find_similar_result trial_id k' t l) by (rewrite Hrun; reflexivity).
  rewrite Hrun. cbn [snd].
  assert (Hagain : exists ev,
             similarities_before_sort trial_id t1
             = (Returns l, mkTx (db t1) (trace t1 ++ ev)) /\
             Forall (fun e => is_neighbor_lookup e = false /\ is_cache_write e = false)
               ev).
  { pose proof (same_structure_candidates _ _ trial_id Hs) as Hcand.
    rewrite <- Hl in Hcand. rewrite before_sort_eq. unfold candidates in Hcand.
    destruct (single (node_community_rows (db t1) trial_id)) as [[cid | ] | ].
    - cbn zeta. rewrite Hcand.
      rewrite score_loop_replay by exact Hc. cbn [db trace app].
      eexists. split; [rewrite <- app_assoc; reflexivity | ].
      repeat constructor. apply replay_events_quiet.
    - destruct l; [ | discriminate Hcand].
      eexists. split; [reflexivity | repeat constructor].
    - destruct l; [ | discriminate Hcand].
      eexists. split; [reflexivity | repeat constructor]. }
  destruct Hagain as [ev [Hrun1 Hev]].
  rewrite (find_similar_result trial_id k' t1 l) by (rewrite Hrun1; reflexivity).
  rewrite Hrun1. cbn [snd db trace].
  split; [reflexivity | split; [reflexivity | ]].
  exists ev. split; [reflexivity | exact Hev].
Qed.

End RankerMore.

(** ** More on the ranking: coverage, bounds and communities *)

Module RankingMore.
Import Py Cypher Tx Engine Spec Store PyFacts CypherFacts ScorerFacts Cache Scorer.
Import RankerFacts CacheMore RankerMore Examples MoreExamples.

(** X8: for a count [k] the ranking has [min(k, number of candidates)]
    entries, every entry is a candidate, and when [k] is at least the
    number of candidates the ranking lists every candidate, each as often
    as it is a candidate. *)
Theorem ranking_covers_candidates (t : tx) (trial_id : string) (k : Z) :
  (0 <= k)%Z ->
  exists res,
    fst (find_similar_trials_optimized trial_id k t) = Returns res /\
    length res = Nat.min (Z.to_nat k) (length (candidates (db t) trial_id)) /\
    (forall e, In e res -> In (trial e) (candidates (db t) trial_id)) /\
    ((Z.of_nat (length (candidates (db t) trial_id)) <= k)%Z ->
     Permutation (List.map trial res) (candidates (db t) trial_id)).
Proof.
  intros Hk.
  destruct (before_sort_run trial_id t) as [l [g' [ev [Hrun [Hl _]]]]].
  rewrite (find_similar_result trial_id k t l) by (rewrite Hrun; reflexivity).
  eexists. split; [reflexivity | ].
  destruct (slice_to_firstn (sort_desc similarity l) k) as [n [-> Hn]].
  specialize (Hn Hk). subst n.
  pose proof (Permutation_length (sort_desc_perm similarity l)) as Hlen.
  assert (Hcount : length (candidates (db t) trial_id) = length l)
    by (rewrite <- Hl; apply List.length_map).
  split; [ | split].
  - rewrite List.length_firstn, Hlen, Hcount. reflexivity.
  - intros e He. rewrite <- Hl. apply in_map.
    apply (Permutation_in _ (sort_desc_perm similarity l)).
    rewrite <- (firstn_skipn (Z.to_nat k) (sort_desc similarity l)).
    apply in_or_app. left. exact He.
  - intros Hall. rewrite firstn_all2 by lia.
    rewrite <- Hl. apply Permutation_map, sort_desc_perm.
Qed.

Lemma ranking_covers_candidates_witness :
  (0 <= 10)%Z /\
  (Z.of_nat (length (candidates (db ties) "Q")) <= 10)%Z /\
  exists res,
    fst (find_similar_trials_optimized "Q" 10 ties) = Returns res /\
    length res = 4 /\
    Permutation (List.map trial res) ["M1"; "M2"; "M3"; "M4"].
Proof.
  assert (H1 : (0 <= 10)%Z) by lia.
  assert (H2 : (Z.of_nat (length (candidates (db ties) "Q")) <= 10)%Z)
    by (vm_compute; discriminate).
  split; [exact H1 | split; [exact H2 | ]].
  destruct (ranking_covers_candidates ties "Q" 10 H1) as [res [Hres [Hlen [_ Hperm]]]].
  exists res. split; [exact Hres | split; [exact Hlen | exact (Hperm H2)]].
Defined.

(** *** Scores of a ranking stay in [0, 1] *)

Lemma fold_insert_lookup (rows : list (string * Q)) :
  forall (d : gmap string Q) (k : string) (v : Q),
    fold_left (fun d kv => <[fst kv := snd kv]> d) rows d !! k = Some v ->
    In (k, v) rows \/ d !! k = Some v.
Proof.
  induction rows as [ | [k0 v0] rows IH]; intros d k v H; [right; exact H | ].
  cbn [fold_left fst snd] in H. destruct (IH _ _ _ H) as [Hin | Hd].
  - left. right. exact Hin.
  - destruct (decide (k0 = k)) as [-> | Hne].
    + rewrite lookup_insert_eq in Hd. injection Hd as ->. left. left. reflexivity.
    + rewrite lookup_insert_ne in Hd by exact Hne. right. exact Hd.
Qed.

Lemma dict_of_lookup_in (rows : list (string * Q)) (k : string) (v : Q) :
  dict_of rows !! k = Some v -> In (k, v) rows.
Proof.
  unfold dict_of. intros H. destruct (fold_insert_lookup rows ∅ k v H) as [Hin | He].
  - exact Hin.
  - rewrite lookup_empty in He. discriminate He.
Qed.

Lemma intermediate_rows_edge (g : graph) (q : string) (ms : list string)
    (k : string) (v : Q) :
  In (k, v) (intermediate_rows g q ms) ->
  exists e, In e (similar_to g) /\ edge_source e = q /\ edge_target e = k /\
            edge_similarity e = v /\ In k ms.
Proof.
  unfold intermediate_rows. intros H.
  apply in_flat_map in H. destruct H as [_ [_ H]].
  apply in_flat_map in H. destruct H as [e [He H]].
  apply in_flat_map in H. destruct H as [n2 [Hn2 H]].
  apply filter_In in He. destruct He as [He Hsrc]. apply String.eqb_eq in Hsrc.
  unfold match_subject in Hn2. apply filter_In in Hn2.
  destruct Hn2 as [_ Htgt]. apply String.eqb_eq in Htgt.
  destruct (contains (subject_name n2) ms) eqn:Hc; [ | destruct H].
  destruct H as [H | []]. injection H as <- <-.
  exists e. repeat split; try assumption; try congruence.
  apply contains_In. exact Hc.
Qed.

Lemma intermediate_sims_bounded (g : graph) (q : string) (ms : list string) :
  bounded_store g -> bounded_sims (dict_of (intermediate_rows g q ms)).
Proof.
  intros Hg m x H. apply dict_of_lookup_in in H.
  destruct (intermediate_rows_edge g q ms m x H) as [e [He [_ [_ [<- _]]]]].
  unfold bounded_store in Hg. rewrite List.Forall_forall in Hg. apply Hg, He.
Qed.

Lemma compute_bounded (a b : string) (ms : list string) (sims : gmap string Q)
    (t : tx) :
  bounded_store (db t) -> bounded_sims sims ->
  exists (r : Q) (t' : tx),
    compute_optimized_jaccard a b ms sims t = (Returns r, t') /\
    bounded r /\ bounded_store (db t').
Proof.
  intros Hg Hs.
  destruct (cached_similarity (db t) a b) as [c | ] eqn:Hc.
  - eexists _, _. split; [apply (compute_hit a b ms sims t c Hc) | ].
    split; [apply (cached_bounded (db t) a b c Hg Hc) | exact Hg].
  - destruct (Nat.eq_dec (size (node_neighbors (db t) a ∪ node_neighbors (db t) b)) O)
      as [HU | HU].
    + assert (H0 : bounded 0) by (split; discriminate).
      eexists _, _. split; [apply (compute_miss_empty a b ms sims t Hc HU) | ].
      split; [exact H0 | ]. cbn [db].
      apply (create_similarity_bounded bounded); assumption.
    + destruct (compute_miss a b ms sims t Hc HU) as [r [ev [Hrun [Hr _]]]].
      assert (Hb : bounded r).
      { apply (bounded_Qeq _ _ Hr). apply score_bounded; [ | exact HU].
        apply store_bounded_consulted; assumption. }
      eexists _, _. split; [exact Hrun | ]. split; [exact Hb | ]. cbn [db].
      apply (create_similarity_bounded bounded); assumption.
Qed.

Lemma score_loop_bounded (q : string) (ms : list string) (sims : gmap string Q)
    (todo : list string) :
  bounded_sims sims ->
  forall (acc : list entry) (t : tx),
    bounded_store (db t) ->
    Forall (fun e => bounded (similarity e)) acc ->
    exists (res : list entry) (t' : tx),
      score_loop q ms sims todo acc t = (Returns res, t') /\
      Forall (fun e => bounded (similarity e)) res /\
      bounded_store (db t').
Proof.
  intros Hs. induction todo as [ | m rest IH]; intros acc t Hg Hacc.
  - exists acc, t. split; [reflexivity | split; assumption].
  - cbn [score_loop]. unfold bind.
    destruct (compute_bounded q m ms sims t Hg Hs) as [r [t1 [-> [Hr Hg1]]]].
    apply IH; [exact Hg1 | ].
    apply Forall_app. split; [exact Hacc | ]. constructor; [exact Hr | constructor].
Qed.

(** X9: the bound on scores is an invariant of whole queries.  When every
    cached score of the store lies in [0, 1], every entry of a ranking
    has its score in [0, 1] and every cached score of the store the query
    leaves lies in [0, 1]. *)
Theorem ranking_is_bounded (t : tx) (trial_id : string) (k : Z) :
  bounded_store (db t) ->
  exists res,
    fst (find_similar_trials_optimized trial_id k t) = Returns res /\
    Forall (fun e => bounded (similarity e)) res /\
    bounded_store (db (snd (find_similar_trials_optimized trial_id k t))).
Proof.
  intros Hg. rewrite find_similar_state.
  assert (H : exists l t',
             similarities_before_sort trial_id t = (Returns l, t') /\
             Forall (fun e => bounded (similarity e)) l /\ bounded_store (db t')).
  { rewrite before_sort_eq.
    destruct (single (node_community_rows (db t) trial_id)) as [[cid | ] | ].
    - cbn zeta. apply score_loop_bounded.
      + apply intermediate_sims_bounded. exact Hg.
      + exact Hg.
      + constructor.
    - eexists _, _. split; [reflexivity | split; [constructor | exact Hg]].
    - eexists _, _. split; [reflexivity | split; [constructor | exact Hg]]. }
  destruct H as [l [t' [Hrun [Hl Hg']]]].
  rewrite (find_similar_result trial_id k t l) by (rewrite Hrun; reflexivity).
  rewrite Hrun. cbn [snd].
  eexists. split; [reflexivity | split; [ | exact Hg']].
  apply List.Forall_forall. intros e He.
  rewrite List.Forall_forall in Hl. apply Hl.
  apply (Permutation_in _ (sort_desc_perm similarity l)).
  exact (slice_to_In e _ k He).
Qed.

Lemma ranking_is_bounded_witness :
  bounded_store (db warm_tx) /\
  exists res,
    fst (find_similar_trials_optimized "A" 10 warm_tx) = Returns res /\
    Forall (fun e => bounded (similarity e)) res /\
    bounded_store (db (snd (find_similar_trials_optimized "A" 10 warm_tx))).
Proof.
  split; [exact warm_is_bounded | ].
  exact (ranking_is_bounded warm_tx "A" 10 warm_is_bounded).
Defined.

(** *** Communities *)

Lemma filter_absent_name (l : list subject) (nm : string) :
  ~ In nm (List.map subject_name l) ->
  List.filter (fun n0 => String.eqb (subject_name n0) nm) l = [].
Proof.
  induction l as [ | y l IH]; intros H; [reflexivity | ].
  cbn [List.filter]. destruct (String.eqb (subject_name y) nm) eqn:E.
  - exfalso. apply H. left. apply String.eqb_eq in E. exact E.
  - apply IH. intros Hin. apply H. right. exact Hin.
Qed.

Lemma filter_unique_name (l : list subject) (n : subject) :
  List.NoDup (List.map subject_name l) -> In n l ->
  List.filter (fun n0 => String.eqb (subject_name n0) (subject_name n)) l = [n].
Proof.
  induction l as [ | x l IH]; intros Hnd Hin; [destruct Hin | ].
  cbn [List.map] in Hnd. inversion Hnd as [ | ? ? Hx Hl]; subst.
  cbn [List.filter]. destruct Hin as [-> | Hin].
  - rewrite String.eqb_refl, (filter_absent_name l (subject_name n) Hx). reflexivity.
  - destruct (String.eqb (subject_name x) (subject_name n)) eqn:E.
    + exfalso. apply Hx. apply String.eqb_eq in E. rewrite E.
      apply in_map. exact Hin.
    + apply IH; assumption.
Qed.

Lemma member_has_community (g : graph) (cid : Z) (m : string) :
  unique_names g ->
  In m (community_members_rows g cid) -> node_community g m = Some cid.
Proof.
  unfold unique_names, community_members_rows, node_community, node_community_rows,
    match_subject, single.
  intros Hnd H. apply in_map_iff in H. destruct H as [n [<- Hn]].
  apply filter_In in Hn. destruct Hn as [Hn Hc].
  rewrite (filter_unique_name _ n Hnd Hn). cbn [List.map hd_error].
  unfold community_is in Hc. destruct (subject_community n) as [c | ]; [ | discriminate].
  apply Z.eqb_eq in Hc. subst c. reflexivity.
Qed.

Lemma community_has_member (g : graph) (cid : Z) (m : string) :
  node_community g m = Some cid -> In m (community_members_rows g cid).
Proof.
  unfold community_members_rows, node_community, node_community_rows, single.
  destruct (match_subject g m) as [ | n l] eqn:E; [discriminate | ].
  cbn [List.map hd_error]. intros Hc.
  assert (Hin : In n (match_subject g m)) by (rewrite E; left; reflexivity).
  unfold match_subject in Hin. apply filter_In in Hin. destruct Hin as [Hn Hname].
  apply String.eqb_eq in Hname. apply in_map_iff. exists n.
  split; [exact Hname | ]. apply filter_In. split; [exact Hn | ].
  unfold community_is. rewrite Hc. apply Z.eqb_refl.
Qed.

(** X10: the community lookup and the member list agree.  A trial whose
    community is looked up to be [cid] is in the member list of [cid];
    and in a store whose SubjectNode names are unique, every trial of the
    member list of [cid] is looked up to be in [cid]. *)
Theorem community_lookup_agrees (t : tx) (cid : Z) (m : string) :
  (fst (get_node_community m t) = Returns (Some cid) ->
   exists ms, fst (get_community_members cid t) = Returns ms /\ In m ms) /\
  (unique_names (db t) ->
   forall ms, fst (get_community_members cid t) = Returns ms -> In m ms ->
   fst (get_node_community m t) = Returns (Some cid)).
Proof.
  unfold get_node_community, get_community_members, run_read. cbn [fst]. split.
  - intros H. injection H as H. eexists. split; [reflexivity | ].
    apply community_has_member. exact H.
  - intros Hnd ms Hms Hin. injection Hms as <-.
    pose proof (member_has_community (db t) cid m Hnd Hin) as H.
    unfold node_community in H. rewrite H. reflexivity.
Qed.

Lemma community_lookup_agrees_witness :
  fst (get_node_community "B" abc_tx) = Returns (Some 1%Z) /\
  unique_names (db abc_tx) /\
  In "C" ["A"; "B"; "C"] /\
  fst (get_community_members 1 abc_tx) = Returns ["A"; "B"; "C"] /\
  (exists ms, fst (get_community_members 1 abc_tx) = Returns ms /\ In "B" ms) /\
  fst (get_node_community "C" abc_tx) = Returns (Some 1%Z).
Proof.
  assert (H1 : fst (get_node_community "B" abc_tx) = Returns (Some 1%Z))
    by reflexivity.
  assert (H2 : In "C" ["A"; "B"; "C"]) by (right; right; left; reflexivity).
  assert (H3 : fst (get_community_members 1 abc_tx) = Returns ["A"; "B"; "C"])
    by reflexivity.
  split; [exact H1 | split; [exact Ranker.abc_names_unique | ]].
  split; [exact H2 | split; [exact H3 | split]].
  - exact (proj1 (community_lookup_agrees abc_tx 1 "B") H1).
  - exact (proj2 (community_lookup_agrees abc_tx 1 "C")
             Ranker.abc_names_unique ["A"; "B"; "C"] H3 H2).
Defined.

Lemma candidates_in_community (g : graph) (q m : string) :
  In m (candidates g q) ->
  exists cid, node_community g q = Some cid /\ In m (community_members_rows g cid).
Proof.
  unfold candidates, node_community.
  destruct (single (node_community_rows g q)) as [[cid | ] | ];
    [ | intros [] | intros []].
  intros H. exists cid. split; [reflexivity | ].
  apply (without_first_subset q). exact H.
Qed.

(** X11: recommendations stay inside the community of the query.  In a
    store whose SubjectNode names are unique, every entry of a ranking is
    a trial whose community lookup gives the community of the query
    entity. *)
Theorem ranking_stays_in_community (t : tx) (trial_id : string) (k : Z) :
  unique_names (db t) ->
  exists res,
    fst (find_similar_trials_optimized trial_id k t) = Returns res /\
    forall e, In e res ->
      exists cid,
        fst (get_node_community trial_id t) = Returns (Some cid) /\
        fst (get_node_community (trial e) t) = Returns (Some cid).
Proof.
  intros Hnd.
  destruct (before_sort_run trial_id t) as [l [g' [ev [Hrun [Hl _]]]]].
  rewrite (find_similar_result trial_id k t l) by (rewrite Hrun; reflexivity).
  eexists. split; [reflexivity | ].
  intros e He.
  assert (Hin : In (trial e) (candidates (db t) trial_id)).
  { rewrite <- Hl. apply in_map.
    apply (Permutation_in _ (sort_desc_perm similarity l)).
    exact (slice_to_In e _ k He). }
  destruct (candidates_in_community (db t) trial_id (trial e) Hin) as [cid [Hq Hm]].
  pose proof (member_has_community (db t) cid (trial e) Hnd Hm) as Hme.
  exists cid. unfold get_node_community, run_read. cbn [fst].
  unfold node_community in Hq, Hme. rewrite Hq, Hme. split; reflexivity.
Qed.

Lemma ranking_stays_in_community_witness :
  unique_names (db abc_tx) /\
  exists res,
    fst (find_similar_trials_optimized "A" 10 abc_tx) = Returns res /\
    forall e, In e res ->
      exists cid,
        fst (get_node_community "A" abc_tx) = Returns (Some cid) /\
        fst (get_node_community (trial e) abc_tx) = Returns (Some cid).
Proof.
  split; [exact Ranker.abc_names_unique | ].
  exact (ranking_stays_in_community abc_tx "A" 10 Ranker.abc_names_unique).
Defined.

End RankingMore.

(** ** More on the scorer *)

Module ScorerMore.
Import Py Cypher Tx Engine Spec Store PyFacts CypherFacts ScorerFacts Cache Scorer.
Import CacheMore Examples MoreExamples.

(** X12: a score against an entity that has no SubjectNode is never
    cached.  The scorer returns a score, but the graph is left as it was
    and the pair still reads as a miss, so the neighbor lookups run again
    on every call. *)
Theorem missing_entity_is_never_cached (t : tx) (a b : string)
    (members : list string) (sims : gmap string Q) :
  match_subject (db t) a = [] \/ match_subject (db t) b = [] ->
  exists (r : Q) (ev : list event),
    compute_optimized_jaccard a b members sims t
    = (Returns r, mkTx (db t) (trace t ++ ev)) /\
    In (Run (QNodeNeighbors a)) ev /\ In (Run (QNodeNeighbors b)) ev /\
    fst (get_cached_similarity a b
           (snd (compute_optimized_jaccard a b members sims t))) = Returns None.
Proof.
  intros H. destruct (cached_missing_endpoint (db t) a b H) as [Hmiss _].
  destruct (Nat.eq_dec (size (node_neighbors (db t) a ∪ node_neighbors (db t) b)) O)
    as [HU | HU].
  - rewrite (compute_miss_empty a b members sims t Hmiss HU).
    rewrite (create_similarity_missing (db t) a b 0 H).
    eexists _, _. split; [reflexivity | ].
    unfold get_cached_similarity, run_read. cbn [fst snd db]. rewrite Hmiss.
    split; [ | split; [ | reflexivity]]; cbn [In]; tauto.
  - destruct (compute_miss a b members sims t Hmiss HU) as [r [ev [Hrun _]]].
    rewrite Hrun, (create_similarity_missing (db t) a b r H).
    eexists _, _. split; [reflexivity | ].
    unfold get_cached_similarity, run_read. cbn [fst snd db]. rewrite Hmiss.
    split; [ | split; [ | reflexivity]]; cbn [In app]; tauto.
Qed.

Lemma missing_entity_is_never_cached_witness :
  (match_subject (db abc_tx) "A" = [] \/ match_subject (db abc_tx) "NCT_NOPE" = []) /\
  exists (r : Q) (ev : list event),
    compute_optimized_jaccard "A" "NCT_NOPE" ["B"; "C"] ∅ abc_tx
    = (Returns r, mkTx (db abc_tx) (trace abc_tx ++ ev)) /\
    In (Run (QNodeNeighbors "A")) ev /\ In (Run (QNodeNeighbors "NCT_NOPE")) ev /\
    fst (get_cached_similarity "A" "NCT_NOPE"
           (snd (compute_optimized_jaccard "A" "NCT_NOPE" ["B"; "C"] ∅ abc_tx)))
    = Returns None.
Proof.
  assert (H : match_subject (db abc_tx) "A" = []
              \/ match_subject (db abc_tx) "NCT_NOPE" = [])
    by (right; reflexivity).
  split; [exact H | ].
  exact (missing_entity_is_never_cached abc_tx "A" "NCT_NOPE" ["B"; "C"] ∅ H).
Defined.

(** *** The score against its Jaccard base *)


Lemma jaccard_same (n : gset string) : size (n ∪ n) <> O -> (jaccard n n == 1)%Q.
Proof.
  intros H. unfold jaccard. rewrite <- (truediv_is_division _ _ H).
  rewrite (idemp_L (∩) n). rewrite (idemp_L (∪) n) in *.
  unfold Qeq. simpl. destruct (size n) as [ | u] eqn:E; [congruence | ]. lia.
Qed.





(** X14: two trials with the same non-empty neighbor set score exactly 1
    on a cache miss, whatever the boost adds, when the scores that enter
    the boost lie in [0, 1]. *)
Theorem same_neighbors_score_one (t : tx) (a b : string) (members : list string)
    (sims : gmap string Q) :
  cached_similarity (db t) a b = None ->
  node_neighbors (db t) a = node_neighbors (db t) b ->
  node_neighbors (db t) a <> ∅ ->
  consulted_bounded (db t) sims a b members ->
  exists r : Q,
    fst (compute_optimized_jaccard a b members sims t) = Returns r /\ (r == 1)%Q.
Proof.
  intros Hmiss Hsame Hne Hc.
  assert (HU : size (node_neighbors (db t) a ∪ node_neighbors (db t) b) <> O).
  { apply union_size_nonzero. rewrite <- Hsame. intros H. apply Hne.
    rewrite (idemp_L (∪) _) in H. exact H. }
  destruct (compute_miss a b members sims t Hmiss HU) as [r [ev [Hrun [Hr _]]]].
  exists r. rewrite Hrun. split; [reflexivity | ].
  rewrite Hr. unfold score. apply Q.min_l.
  rewrite <- Hsame in *. rewrite (jaccard_same _ HU).
  rewrite <- (Qplus_0_r 1) at 1.
  apply Qplus_le_compat; [apply Qle_refl | apply boost_nonneg, Hc].
Qed.

Lemma ties_consulted :
  consulted_bounded (db ties) ∅ "Q" "M2" ["M1"; "M2"; "M3"; "M4"].
Proof.
  apply store_bounded_consulted; [constructor | exact empty_sims_bounded].
Qed.

Lemma ties_neighbors : node_neighbors (db ties) "Q" <> ∅.
Proof. intros H. apply (f_equal size) in H. vm_compute in H. discriminate H. Qed.

Lemma same_neighbors_score_one_witness :
  cached_similarity (db ties) "Q" "M2" = None /\
  node_neighbors (db ties) "Q" = node_neighbors (db ties) "M2" /\
  node_neighbors (db ties) "Q" <> ∅ /\
  consulted_bounded (db ties) ∅ "Q" "M2" ["M1"; "M2"; "M3"; "M4"] /\
  exists r : Q,
    fst (compute_optimized_jaccard "Q" "M2" ["M1"; "M2"; "M3"; "M4"] ∅ ties)
    = Returns r /\ (r == 1)%Q.
Proof.
  assert (H1 : cached_similarity (db ties) "Q" "M2" = None) by reflexivity.
  assert (H2 : node_neighbors (db ties) "Q" = node_neighbors (db ties) "M2")
    by reflexivity.
  split; [exact H1 | split; [exact H2 | ]].
  split; [exact ties_neighbors | split; [exact ties_consulted | ]].
  exact (same_neighbors_score_one ties "Q" "M2" ["M1"; "M2"; "M3"; "M4"] ∅
           H1 H2 ties_neighbors ties_consulted).
Defined.




End ScorerMore.

(** ** The precomputed map of the ranker *)

Module Precomputed.
Import Py Cypher Tx Engine Spec Store PyFacts CypherFacts ScorerFacts Cache Scorer.
Import RankerFacts CacheMore RankerMore RankingMore Examples MoreExamples.

Lemma is_edge_iff (a b : string) (e : similar_edge) :
  is_edge a b e = true <-> edge_source e = a /\ edge_target e = b.
Proof.
  unfold is_edge. rewrite andb_true_iff, !String.eqb_eq. reflexivity.
Qed.

(** A cached score is the score of an edge between two existing trials. *)
Lemma cached_some_edge (g : graph) (a b : string) (x : Q) :
  cached_similarity g a b = Some x ->
  exists_subject g a /\ exists_subject g b /\
  exists e, In e (similar_to g) /\ is_edge a b e = true /\ edge_similarity e = x.
Proof.
  intros H.
  assert (Ha : exists_subject g a).
  { intros Hn. destruct (cached_missing_endpoint g a b (or_introl Hn)) as [E _].
    congruence. }
  assert (Hb : exists_subject g b).
  { intros Hn. destruct (cached_missing_endpoint g a b (or_intror Hn)) as [E _].
    congruence. }
  split; [exact Ha | split; [exact Hb | ]].
  unfold cached_similarity in H. rewrite (single_cached_rows g a b Ha Hb) in H.
  destruct (List.filter (is_edge a b) (similar_to g)) as [ | e es] eqn:E;
    [discriminate | ].
  cbn [List.map hd_error] in H. injection H as <-.
  assert (Hin : In e (List.filter (is_edge a b) (similar_to g)))
    by (rewrite E; left; reflexivity).
  apply filter_In in Hin. exists e. split; [apply Hin | split; [apply Hin | reflexivity]].
Qed.

Lemma edge_cached (g : graph) (a b : string) (e : similar_edge) :
  consistent_store g ->
  exists_subject g a -> exists_subject g b ->
  In e (similar_to g) -> is_edge a b e = true ->
  cached_similarity g a b = Some (edge_similarity e).
Proof.
  intros Hc Ha Hb He Hab. unfold cached_similarity.
  rewrite (single_cached_rows g a b Ha Hb).
  destruct (List.filter (is_edge a b) (similar_to g)) as [ | e0 es] eqn:E.
  - assert (Hin : In e (List.filter (is_edge a b) (similar_to g)))
      by (apply filter_In; split; assumption).
    rewrite E in Hin. destruct Hin.
  - assert (Hin : In e0 (List.filter (is_edge a b) (similar_to g)))
      by (rewrite E; left; reflexivity).
    apply filter_In in Hin. destruct Hin as [He0 Hab0].
    apply is_edge_iff in Hab, Hab0.
    cbn [List.map hd_error]. f_equal. apply Hc; try assumption.
    + destruct Hab, Hab0. congruence.
    + destruct Hab, Hab0. congruence.
Qed.

Lemma intermediate_rows_exist (g : graph) (q : string) (ms : list string)
    (k : string) (v : Q) :
  In (k, v) (intermediate_rows g q ms) -> exists_subject g q /\ exists_subject g k.
Proof.
  unfold intermediate_rows, exists_subject. intros H.
  apply in_flat_map in H. destruct H as [n1 [Hn1 H]].
  apply in_flat_map in H. destruct H as [e [He H]].
  apply in_flat_map in H. destruct H as [n2 [Hn2 H]].
  destruct (contains (subject_name n2) ms); [ | destruct H].
  destruct H as [H | []]. injection H as <- <-.
  split.
  - intros Hnil. rewrite Hnil in Hn1. exact Hn1.
  - pose proof Hn2 as Hn2'. unfold match_subject in Hn2'.
    apply filter_In in Hn2'. destruct Hn2' as [_ Hname].
    apply String.eqb_eq in Hname. rewrite Hname.
    intros Hnil. rewrite Hnil in Hn2. exact Hn2.
Qed.

Lemma intermediate_rows_intro (g : graph) (q : string) (ms : list string)
    (e : similar_edge) :
  exists_subject g q -> exists_subject g (edge_target e) ->
  In e (similar_to g) -> edge_source e = q -> In (edge_target e) ms ->
  In (edge_target e, edge_similarity e) (intermediate_rows g q ms).
Proof.
  unfold intermediate_rows, exists_subject. intros Hq Hm He Hsrc Hin.
  destruct (match_subject g q) as [ | n1 l1] eqn:Eq; [congruence | ].
  destruct (match_subject g (edge_target e)) as [ | n2 l2] eqn:Em; [congruence | ].
  apply in_flat_map. exists n1. split; [left; reflexivity | ].
  apply in_flat_map. exists e. split.
  - apply filter_In. split; [exact He | ]. apply String.eqb_eq. exact Hsrc.
  - apply in_flat_map. exists n2. rewrite Em. split; [left; reflexivity | ].
    assert (Hname : subject_name n2 = edge_target e).
    { assert (H2 : In n2 (match_subject g (edge_target e)))
        by (rewrite Em; left; reflexivity).
      unfold match_subject in H2. apply filter_In in H2.
      destruct H2 as [_ H2]. apply String.eqb_eq in H2. exact H2. }
    rewrite Hname. apply contains_In in Hin. rewrite Hin. left. reflexivity.
Qed.

Lemma fold_insert_has_key (rows : list (string * Q)) :
  forall (d : gmap string Q) (k : string),
    (exists v, In (k, v) rows) \/ is_Some (d !! k) ->
    is_Some (fold_left (fun d kv => <[fst kv := snd kv]> d) rows d !! k).
Proof.
  induction rows as [ | [k0 v0] rows IH]; intros d k H.
  - destruct H as [[v []] | H]; exact H.
  - cbn [fold_left fst snd]. apply IH.
    destruct H as [[v [Hhd | Htl]] | Hd].
    + injection Hhd as -> ->. right. rewrite lookup_insert_eq. eexists. reflexivity.
    + left. exists v. exact Htl.
    + right. destruct (decide (k0 = k)) as [-> | Hne].
      * rewrite lookup_insert_eq. eexists. reflexivity.
      * rewrite lookup_insert_ne by exact Hne. exact Hd.
Qed.

Lemma dict_of_has_key (rows : list (string * Q)) (k : string) (v : Q) :
  In (k, v) rows -> is_Some (dict_of rows !! k).
Proof.
  intros H. unfold dict_of. apply fold_insert_has_key. left. exists v. exact H.
Qed.

Lemma precomputed_lookup (g : graph) (q : string) (ms : list string) (m : string) :
  consistent_store g ->
  dict_of (intermediate_rows g q ms) !! m
  = if contains m ms then cached_similarity g q m else None.
Proof.
  intros Hc.
  destruct (dict_of (intermediate_rows g q ms) !! m) as [v | ] eqn:Hd.
  - apply dict_of_lookup_in in Hd.
    destruct (intermediate_rows_exist g q ms m v Hd) as [Hq Hm].
    destruct (intermediate_rows_edge g q ms m v Hd) as [e [He [Hs [Ht [Hv Hin]]]]].
    apply contains_In in Hin. rewrite Hin. subst v. symmetry.
    apply edge_cached; try assumption. apply is_edge_iff. split; assumption.
  - destruct (contains m ms) eqn:Hin; [ | reflexivity].
    destruct (cached_similarity g q m) as [x | ] eqn:Hx; [ | reflexivity].
    exfalso. destruct (cached_some_edge g q m x Hx) as [Hq [Hm [e [He [Hab _]]]]].
    apply is_edge_iff in Hab. destruct Hab as [Hs Ht].
    apply contains_In in Hin. rewrite <- Ht in Hin, Hm.
    pose proof (intermediate_rows_intro g q ms e Hq Hm He Hs Hin) as Hrow.
    apply dict_of_has_key in Hrow. rewrite Ht, Hd in Hrow.
    destruct Hrow as [? Hrow]. discriminate Hrow.
Qed.

(** X16: the precomputed map of the ranker is the cache, restricted to
    the member list.  In a store where the edges of a pair all carry one
    score, the map holds for a member exactly what a cache lookup for the
    query entity and that member gives, and it holds nothing for a
    non-member; so looking a trial up through the map first and the cache
    second gives what the cache alone gives. *)
Theorem precomputed_map_is_the_cache (t : tx) (trial_id : string)
    (members : list string) :
  consistent_store (db t) ->
  exists sims : gmap string Q,
    fst (get_intermediate_similarities trial_id members t) = Returns sims /\
    (forall m, In m members -> sims !! m = cached_similarity (db t) trial_id m) /\
    (forall m, ~ In m members -> sims !! m = None) /\
    (forall m, sim_to (db t) sims trial_id m = cached_similarity (db t) trial_id m).
Proof.
  intros Hc. unfold get_intermediate_similarities, run_read. cbn [fst].
  eexists. split; [reflexivity | ].
  assert (Hin : forall m, In m members -> contains m members = true)
    by (intros m; apply contains_In).
  assert (Hout : forall m, ~ In m members -> contains m members = false).
  { intros m H. destruct (contains m members) eqn:E; [ | reflexivity].
    exfalso. apply H, contains_In, E. }
  split; [ | split].
  - intros m Hm. rewrite (precomputed_lookup _ _ _ _ Hc), (Hin m Hm). reflexivity.
  - intros m Hm. rewrite (precomputed_lookup _ _ _ _ Hc), (Hout m Hm). reflexivity.
  - intros m. unfold sim_to. rewrite (precomputed_lookup _ _ _ _ Hc).
    destruct (contains m members); [ | reflexivity].
    destruct (cached_similarity (db t) trial_id m); reflexivity.
Qed.

Lemma warm_consistent : consistent_store (db warm_tx).
Proof.
  intros e e' He He'. cbn in He, He'.
  decompose [or] He; decompose [or] He'; subst; cbn; intros Hs Ht;
    try reflexivity; try discriminate; contradiction.
Qed.

Lemma precomputed_map_is_the_cache_witness :
  consistent_store (db warm_tx) /\
  exists sims : gmap string Q,
    fst (get_intermediate_similarities "A" ["B"; "C"] warm_tx) = Returns sims /\
    (forall m, In m ["B"; "C"] -> sims !! m = cached_similarity (db warm_tx) "A" m) /\
    (forall m, ~ In m ["B"; "C"] -> sims !! m = None) /\
    (forall m, sim_to (db warm_tx) sims "A" m = cached_similarity (db warm_tx) "A" m).
Proof.
  split; [exact warm_consistent | ].
  exact (precomputed_map_is_the_cache warm_tx "A" ["B"; "C"] warm_consistent).
Defined.

(** One score per pair is needed: of two edges with different scores the
    cache read gives the first and the map holds the last. *)
Example doubled_disagrees :
  fst (get_cached_similarity "A" "B" doubled) = Returns (Some (1 # 2)%Q) /\
  match fst (get_intermediate_similarities "A" ["B"] doubled) with
  | Returns sims => sims !! "B" = Some (1 # 4)%Q
  | Raises _ => False
  end.
Proof. split; vm_compute; reflexivity. Qed.

(** *** One score per pair, as an invariant *)

Lemma merge_set_source_target (a b : string) (s : Q) (e : similar_edge) :
  let e' := if is_edge a b e then mkSimilar a b s else e in
  edge_source e' = edge_source e /\ edge_target e' = edge_target e /\
  (is_edge a b e = true -> edge_similarity e' = s) /\
  (is_edge a b e = false -> e' = e).
Proof.
  cbn zeta. destruct (is_edge a b e) eqn:E.
  - apply is_edge_iff in E. destruct E as [<- <-].
    split; [reflexivity | split; [reflexivity | split]];
      [reflexivity | discriminate].
  - split; [reflexivity | split; [reflexivity | split]];
      [discriminate | reflexivity].
Qed.

Lemma merge_set_consistent (a b : string) (s : Q) (es : list similar_edge) :
  (forall e e', In e es -> In e' es ->
     edge_source e = edge_source e' -> edge_target e = edge_target e' ->
     edge_similarity e = edge_similarity e') ->
  forall e e', In e (merge_set a b s es) -> In e' (merge_set a b s es) ->
     edge_source e = edge_source e' -> edge_target e = edge_target e' ->
     edge_similarity e = edge_similarity e'.
Proof.
  intros Hc e1 e2 H1 H2 Hs Ht. unfold merge_set in H1, H2.
  destruct (existsb (is_edge a b) es) eqn:Hex.
  - apply in_map_iff in H1, H2.
    destruct H1 as [x1 [<- Hx1]]. destruct H2 as [x2 [<- Hx2]].
    destruct (merge_set_source_target a b s x1) as [Hs1 [Ht1 [Hy1 Hn1]]].
    destruct (merge_set_source_target a b s x2) as [Hs2 [Ht2 [Hy2 Hn2]]].
    cbn zeta in *. rewrite Hs1, Hs2 in Hs. rewrite Ht1, Ht2 in Ht.
    destruct (is_edge a b x1) eqn:E1.
    + assert (E2 : is_edge a b x2 = true).
      { apply is_edge_iff in E1. apply is_edge_iff. destruct E1. split; congruence. }
      rewrite E2. reflexivity.
    + assert (E2 : is_edge a b x2 = false).
      { destruct (is_edge a b x2) eqn:E2; [ | reflexivity].
        apply is_edge_iff in E2. destruct E2.
        assert (X : is_edge a b x1 = true) by (apply is_edge_iff; split; congruence).
        congruence. }
      rewrite E2. apply Hc; assumption.
  - assert (Hnone : forall x, In x es -> is_edge a b x = false).
    { intros x Hx. destruct (is_edge a b x) eqn:E; [ | reflexivity].
      assert (X : existsb (is_edge a b) es = true)
        by (apply existsb_exists; exists x; split; assumption).
      congruence. }
    apply in_app_or in H1, H2.
    destruct H1 as [H1 | [<- | []]]; destruct H2 as [H2 | [<- | []]].
    + apply Hc; assumption.
    + exfalso. cbn in Hs, Ht.
      assert (X : is_edge a b e1 = true) by (apply is_edge_iff; split; assumption).
      rewrite (Hnone e1 H1) in X. discriminate X.
    + exfalso. cbn in Hs, Ht.
      assert (X : is_edge a b e2 = true) by (apply is_edge_iff; split; congruence).
      rewrite (Hnone e2 H2) in X. discriminate X.
    + reflexivity.
Qed.

Lemma create_keeps_consistent (g : graph) (a b : string) (s : Q) :
  consistent_store g -> consistent_store (create_similarity g a b s).
Proof.
  unfold create_similarity. apply (fold_const_invariant consistent_store).
  intros y Hy. unfold consistent_store, write_pair. cbn [similar_to].
  apply merge_set_consistent, merge_set_consistent. exact Hy.
Qed.

(** X17: the engine never gives one pair two different scores.  When the
    edges of every pair carry one score before a query, they do after it;
    so a store whose cache this engine alone has filled stays in the
    state in which the precomputed map and the cache agree. *)
Theorem query_keeps_one_score_per_pair (t : tx) (trial_id : string) (k : Z) :
  consistent_store (db t) ->
  consistent_store (db (snd (find_similar_trials_optimized trial_id k t))).
Proof.
  apply find_similar_keeps. intros g a b s _. apply create_keeps_consistent.
Qed.

Lemma query_keeps_one_score_per_pair_witness :
  consistent_store (db warm_tx) /\
  consistent_store (db (snd (find_similar_trials_optimized "A" 10 warm_tx))).
Proof.
  split; [exact warm_consistent | ].
  exact (query_keeps_one_score_per_pair warm_tx "A" 10 warm_consistent).
Defined.

(** *** The map is an optimisation only *)

Section Value.
Variables (trial1 trial2 : string) (sims : gmap string Q).

Lemma boost_loop_value (members : list string) :
  forall (acc : Q) (t : tx),
    fst (boost_loop trial1 trial2 sims members acc t)
    = Returns (boost_fold (db t) trial1 trial2 sims members acc) /\
    db (snd (boost_loop trial1 trial2 sims members acc t)) = db t.
Proof.
  induction members as [ | m rest IH]; intros acc t.
  - split; reflexivity.
  - cbn [boost_loop boost_fold].
    destruct (String.eqb m trial1 || String.eqb m trial2); [apply IH | ].
    unfold sim_to, bind, has_key, getitem, lift, ret, get_cached_similarity, run_read.
    destruct (sims !! m) as [v | ]; cbn [db trace].
    + destruct (cached_similarity (db t) trial2 m) as [o | ].
      * match goal with
        | |- context [boost_loop _ _ _ rest ?acc' ?t0] =>
            destruct (IH acc' t0) as [-> ->]
        end. split; reflexivity.
      * match goal with
        | |- context [boost_loop _ _ _ rest ?acc' ?t0] =>
            destruct (IH acc' t0) as [-> ->]
        end. split; reflexivity.
    + destruct (cached_similarity (db t) trial1 m) as [v | ]; cbn [db trace].
      * destruct (cached_similarity (db t) trial2 m) as [o | ].
        -- match goal with
           | |- context [boost_loop _ _ _ rest ?acc' ?t0] =>
               destruct (IH acc' t0) as [-> ->]
           end. split; reflexivity.
        -- match goal with
           | |- context [boost_loop _ _ _ rest ?acc' ?t0] =>
               destruct (IH acc' t0) as [-> ->]
           end. split; reflexivity.
      * match goal with
        | |- context [boost_loop _ _ _ rest ?acc' ?t0] =>
            destruct (IH acc' t0) as [-> ->]
        end. split; reflexivity.
Qed.

End Value.

Lemma boost_fold_ext (g : graph) (a b : string) (sims sims' : gmap string Q)
    (members : list string) :
  (forall m, sim_to g sims a m = sim_to g sims' a m) ->
  forall acc, boost_fold g a b sims members acc = boost_fold g a b sims' members acc.
Proof.
  intros H. induction members as [ | m rest IH]; intros acc; [reflexivity | ].
  cbn [boost_fold]. rewrite (H m).
  destruct (String.eqb m a || String.eqb m b); [apply IH | ].
  destruct (sim_to g sims' a m); [ | apply IH].
  destruct (cached_similarity g b m); apply IH.
Qed.

Lemma agreeing_map_is_cache (g : graph) (q : string) (sims : gmap string Q) :
  agrees_with_cache g q sims ->
  forall m, sim_to g sims q m = sim_to g ∅ q m.
Proof.
  intros H m. unfold sim_to. rewrite lookup_empty.
  destruct (sims !! m) as [x | ] eqn:E; [ | reflexivity].
  symmetry. apply H. exact E.
Qed.

(** The score and the graph of a scorer call, with the boost as the loop
    accumulates it. *)
Lemma compute_value (a b : string) (members : list string) (sims : gmap string Q)
    (t : tx) :
  let n1 := node_neighbors (db t) a in
  let n2 := node_neighbors (db t) b in
  let r := match cached_similarity (db t) a b with
           | Some c => c
           | None =>
               match size (n1 ∪ n2) with
               | O => 0%Q
               | S _ =>
                   Py.min 1 ((Z.of_nat (size (n1 ∩ n2)) # Pos.of_nat (size (n1 ∪ n2)))
                             + boost_fold (db t) a b sims members 0)%Q
               end
           end in
  fst (compute_optimized_jaccard a b members sims t) = Returns r /\
  db (snd (compute_optimized_jaccard a b members sims t))
  = match cached_similarity (db t) a b with
    | Some _ => db t
    | None => create_similarity (db t) a b r
    end.
Proof.
  cbn zeta.
  unfold compute_optimized_jaccard, bind, emit, lift, ret,
    get_cached_similarity, get_node_neighbors,
    create_similarity_relationship, run_read, run_write.
  cbn [db trace].
  destruct (cached_similarity (db t) a b) as [c | ]; [split; reflexivity | ].
  cbn [db trace].
  destruct (size (node_neighbors (db t) a ∪ node_neighbors (db t) b)) as [ | n] eqn:Hn.
  - cbn [Nat.eqb db trace fst snd]. split; reflexivity.
  - cbn [Nat.eqb truediv].
    match goal with
    | |- context [boost_loop a b sims members 0%Q ?t0] =>
        destruct (boost_loop_value a b sims members 0%Q t0) as [Hv Hdb];
        destruct (boost_loop a b sims members 0%Q t0) as [o t'] eqn:Hb
    end.
    cbn [fst snd db] in Hv, Hdb. subst o. cbn [fst snd db].
    rewrite Hdb. split; reflexivity.
Qed.

(** X25: the precomputed map only saves cache reads.  When every entry of
    the map is what the cache holds for the first trial and the key, the
    scorer returns the score and leaves the graph that it returns and
    leaves when it is given an empty map. *)
Theorem map_only_saves_reads (t : tx) (a b : string) (members : list string)
    (sims : gmap string Q) :
  agrees_with_cache (db t) a sims ->
  fst (compute_optimized_jaccard a b members sims t)
  = fst (compute_optimized_jaccard a b members ∅ t) /\
  db (snd (compute_optimized_jaccard a b members sims t))
  = db (snd (compute_optimized_jaccard a b members ∅ t)).
Proof.
  intros H.
  destruct (compute_value a b members sims t) as [-> ->].
  destruct (compute_value a b members ∅ t) as [-> ->].
  cbn zeta.
  rewrite (boost_fold_ext (db t) a b sims ∅ members (agreeing_map_is_cache _ _ _ H)).
  split; reflexivity.
Qed.

Lemma warm_map_agrees :
  agrees_with_cache (db warm_tx) "A" (dict_of (intermediate_rows (db warm_tx) "A" ["B"; "C"])).
Proof.
  intros m x H. rewrite (precomputed_lookup _ _ _ _ warm_consistent) in H.
  destruct (contains m ["B"; "C"]); [exact H | discriminate H].
Qed.

Lemma map_only_saves_reads_witness :
  agrees_with_cache (db warm_tx) "A"
    (dict_of (intermediate_rows (db warm_tx) "A" ["B"; "C"])) /\
  fst (compute_optimized_jaccard "A" "B" ["B"; "C"]
         (dict_of (intermediate_rows (db warm_tx) "A" ["B"; "C"])) warm_tx)
  = fst (compute_optimized_jaccard "A" "B" ["B"; "C"] ∅ warm_tx).
Proof.
  split; [exact warm_map_agrees | ].
  exact (proj1 (map_only_saves_reads warm_tx "A" "B" ["B"; "C"] _ warm_map_agrees)).
Defined.

Lemma compute_same_db (a b : string) (members : list string)
    (sims sims' : gmap string Q) (t t' : tx) :
  db t = db t' ->
  agrees_with_cache (db t) a sims -> agrees_with_cache (db t) a sims' ->
  exists (r : Q) (t1 t1' : tx),
    compute_optimized_jaccard a b members sims t = (Returns r, t1) /\
    compute_optimized_jaccard a b members sims' t' = (Returns r, t1') /\
    db t1 = db t1'.
Proof.
  intros Hdb H H'.
  destruct (compute_value a b members sims t) as [Hr Hg].
  destruct (compute_value a b members sims' t') as [Hr' Hg'].
  cbn zeta in *. rewrite <- Hdb in Hr', Hg'.
  rewrite (boost_fold_ext (db t) a b sims' ∅ members (agreeing_map_is_cache _ _ _ H'))
    in Hr', Hg'.
  rewrite (boost_fold_ext (db t) a b sims ∅ members (agreeing_map_is_cache _ _ _ H))
    in Hr, Hg.
  destruct (compute_optimized_jaccard a b members sims t) as [o t1].
  destruct (compute_optimized_jaccard a b members sims' t') as [o' t1'].
  cbn [fst snd] in *. subst o o'.
  eexists _, t1, t1'. split; [reflexivity | split; [reflexivity | ]].
  rewrite Hg, Hg'. reflexivity.
Qed.

Lemma empty_map_agrees (g : graph) (q : string) : agrees_with_cache g q ∅.
Proof. intros m x H. rewrite lookup_empty in H. discriminate H. Qed.

Lemma score_loop_same (q : string) (ms : list string) (sims : gmap string Q)
    (todo : list string) :
  forall (acc : list entry) (t t' : tx),
    db t = db t' -> agrees_with_cache (db t) q sims ->
    fst (score_loop q ms sims todo acc t) = fst (score_loop q ms ∅ todo acc t') /\
    db (snd (score_loop q ms sims todo acc t))
    = db (snd (score_loop q ms ∅ todo acc t')).
Proof.
  induction todo as [ | m rest IH]; intros acc t t' Hdb H.
  - cbn [score_loop]. unfold ret. cbn [fst snd]. split; [reflexivity | exact Hdb].
  - cbn [score_loop]. unfold bind.
    destruct (compute_same_db q m ms sims ∅ t t' Hdb H (empty_map_agrees _ _))
      as [r [t1 [t1' [Hrun [Hrun' Hdb1]]]]].
    assert (H1 : agrees_with_cache (db t1) q sims).
    { intros m' x Hx.
      pose proof (compute_keeps_cached q ms sims m' m x t (H m' x Hx)) as Hk.
      rewrite Hrun in Hk. exact Hk. }
    rewrite Hrun, Hrun'. apply IH; assumption.
Qed.

(** X26: the map the ranker precomputes stays right while the ranking
    fills the cache.  In a store where the edges of a pair all carry one
    score, the ranking loop run with the precomputed map gives the
    entries and leaves the graph that it gives and leaves when every
    look-up goes to the cache. *)
Theorem ranking_map_only_saves_reads (t : tx) (trial_id : string)
    (members : list string) :
  consistent_store (db t) ->
  exists sims : gmap string Q,
    fst (get_intermediate_similarities trial_id members t) = Returns sims /\
    let t1 := snd (get_intermediate_similarities trial_id members t) in
    fst (score_loop trial_id members sims members [] t1)
    = fst (score_loop trial_id members ∅ members [] t1) /\
    db (snd (score_loop trial_id members sims members [] t1))
    = db (snd (score_loop trial_id members ∅ members [] t1)).
Proof.
  intros Hc. unfold get_intermediate_similarities, run_read. cbn [fst snd].
  eexists. split; [reflexivity | ]. cbn zeta.
  apply score_loop_same; [reflexivity | ]. cbn [db].
  intros m x H. rewrite (precomputed_lookup _ _ _ _ Hc) in H.
  destruct (contains m members); [exact H | discriminate H].
Qed.

Lemma ranking_map_only_saves_reads_witness :
  consistent_store (db warm_tx) /\
  exists sims : gmap string Q,
    fst (get_intermediate_similarities "A" ["B"; "C"] warm_tx) = Returns sims /\
    let t1 := snd (get_intermediate_similarities "A" ["B"; "C"] warm_tx) in
    fst (score_loop "A" ["B"; "C"] sims ["B"; "C"] [] t1)
    = fst (score_loop "A" ["B"; "C"] ∅ ["B"; "C"] [] t1) /\
    db (snd (score_loop "A" ["B"; "C"] sims ["B"; "C"] [] t1))
    = db (snd (score_loop "A" ["B"; "C"] ∅ ["B"; "C"] [] t1)).
Proof.
  split; [exact warm_consistent | ].
  exact (ranking_map_only_saves_reads warm_tx "A" ["B"; "C"] warm_consistent).
Defined.

End Precomputed.

(** ** More on the existence check and on [main] *)

Module MainMore.
Import Py Cypher Tx Engine Spec Store PyFacts CypherFacts ScorerFacts Cache.
Import RankerFacts CacheMore RankerMore Existence Examples MoreExamples.

Lemma strip_idempotent (s : string) : strip (strip s) = strip s.
Proof.
  unfold strip, strip_by. rewrite list_ascii_of_string_of_list_ascii.
  destruct (stripped_clean isspace (list_ascii_of_string s)) as [H1 H2].
  rewrite (strip_clean isspace _ H1 H2). reflexivity.
Qed.

Lemma check_node_exists_answer (t : tx) (input : string) (l : label) :
  fst (check_node_exists input l t) = Returns (node_exists_row (db t) (strip input) l).
Proof. reflexivity. Qed.

(** X18: the existence check does not see surrounding whitespace.  For
    either label it answers for an identifier as it answers for the
    stripped identifier, and so it answers for a name that has nothing to
    strip as for that name padded with whitespace. *)
Theorem check_ignores_padding (t : tx) (input : string) (l : label) :
  fst (check_node_exists (strip input) l t) = fst (check_node_exists input l t) /\
  (forall nm, padded input nm -> strip nm = nm ->
     fst (check_node_exists input l t) = fst (check_node_exists nm l t)).
Proof.
  rewrite !check_node_exists_answer, strip_idempotent. split; [reflexivity | ].
  intros nm Hpad Hnm. rewrite !check_node_exists_answer.
  rewrite (strip_padded input nm Hpad Hnm), Hnm. reflexivity.
Qed.

Lemma padded_A : padded " A " "A".
Proof.
  exists [" "%char], [" "%char]. split; [ | split; [ | split]].
  - repeat constructor.
  - repeat constructor.
  - left. discriminate.
  - reflexivity.
Qed.

Lemma check_ignores_padding_witness :
  padded " A " "A" /\ strip "A" = "A" /\
  fst (check_node_exists " A " SubjectNode abc_tx)
  = fst (check_node_exists "A" SubjectNode abc_tx).
Proof.
  assert (H : strip "A" = "A") by reflexivity.
  split; [exact padded_A | split; [exact H | ]].
  exact (proj2 (check_ignores_padding abc_tx " A " SubjectNode) "A" padded_A H).
Defined.

(** X19: the query step of [main], from the prompt on (lines 184 to
    189), turns an unknown identifier away before the ranker is called.
    It reports that the node does not exist exactly when no SubjectNode
    is named by the stripped input; of the step, only the existence check
    has then run, and the store is as it was at the prompt. *)
Theorem main_rejects_unknown (t : tx) (input : string) :
  (match_subject (db t) (strip input) = [] <->
   fst (main_query input t) = Returns (NodeDoesNotExist input)) /\
  (match_subject (db t) (strip input) = [] ->
   snd (main_query input t)
   = mkTx (db t) (trace t ++ [Run (QNodeExists (strip input) SubjectNode)])).
Proof.
  unfold main_query, bind.
  pose proof (check_node_exists_strips t input) as Hc.
  destruct (check_node_exists input SubjectNode t) as [o t1] eqn:E.
  cbn [fst] in Hc. subst o.
  assert (Ht1 : t1 = mkTx (db t) (trace t ++ [Run (QNodeExists (strip input) SubjectNode)])).
  { unfold check_node_exists, run_read in E. injection E as _ <-. reflexivity. }
  destruct (match_subject (db t) (strip input)) as [ | n l] eqn:Hm.
  - cbn [length Nat.ltb Nat.leb negb]. unfold ret. cbn [fst snd].
    split; [ | intros _; exact Ht1].
    split; reflexivity.
  - cbn [length Nat.ltb Nat.leb negb].
    split; [ | intros H; discriminate H].
    split; [intros H; discriminate H | ].
    destruct (find_similar_trials_optimized input 10 t1) as [[[ | e res] | x] t2];
      cbn [fst]; intros H; discriminate H.
Qed.

Lemma main_rejects_unknown_witness :
  match_subject (db abc_tx) (strip "NCT_NOPE") = [] /\
  fst (main_query "NCT_NOPE" abc_tx) = Returns (NodeDoesNotExist "NCT_NOPE") /\
  snd (main_query "NCT_NOPE" abc_tx)
  = mkTx (db abc_tx) (trace abc_tx ++ [Run (QNodeExists (strip "NCT_NOPE") SubjectNode)]).
Proof.
  assert (H : match_subject (db abc_tx) (strip "NCT_NOPE") = []) by reflexivity.
  split; [exact H | split].
  - exact (proj1 (proj1 (main_rejects_unknown abc_tx "NCT_NOPE")) H).
  - exact (proj2 (main_rejects_unknown abc_tx "NCT_NOPE") H).
Defined.

(** X21: a query without candidates does no work.  When the query entity
    has no community, or is the only member of its community, the ranker
    returns the empty list, leaves the graph as it is, and neither scores
    a pair, nor looks neighbors up, nor writes. *)
Theorem query_without_candidates (t : tx) (trial_id : string) (k : Z) :
  candidates (db t) trial_id = [] ->
  exists ev,
    find_similar_trials_optimized trial_id k t
    = (Returns [], mkTx (db t) (trace t ++ ev)) /\
    Forall (fun e => is_work e = false) ev.
Proof.
  intros Hc. rewrite find_similar_sorts, before_sort_eq. unfold candidates in Hc.
  destruct (single (node_community_rows (db t) trial_id)) as [[cid | ] | ].
  - cbn zeta. rewrite Hc. cbn [score_loop]. unfold ret.
    cbn [sort_desc]. rewrite slice_to_nil.
    eexists. split; [reflexivity | repeat constructor].
  - cbn [sort_desc]. rewrite slice_to_nil.
    eexists. split; [reflexivity | repeat constructor].
  - cbn [sort_desc]. rewrite slice_to_nil.
    eexists. split; [reflexivity | repeat constructor].
Qed.

Lemma query_without_candidates_witness :
  candidates (db lone) "A" = [] /\
  exists ev,
    find_similar_trials_optimized "A" 10 lone
    = (Returns [], mkTx (db lone) (trace lone ++ ev)) /\
    Forall (fun e => is_work e = false) ev.
Proof.
  assert (H : candidates (db lone) "A" = []) by reflexivity.
  split; [exact H | ].
  exact (query_without_candidates lone "A" 10 H).
Defined.

End MainMore.

(** ** The number of queries a call runs *)

Module Cost.
Import Py Cypher Tx Engine Spec Store PyFacts CypherFacts ScorerFacts Cache.
Import RankerFacts CacheMore RankerMore Examples MoreExamples.

Lemma queries_run_app (ev1 ev2 : list event) :
  queries_run (ev1 ++ ev2) = queries_run ev1 + queries_run ev2.
Proof. unfold queries_run. rewrite List.filter_app, List.length_app. reflexivity. Qed.

Lemma queries_run_reads (ev : list event) :
  Forall (fun e => is_cache_read e = true) ev -> queries_run ev = length ev.
Proof.
  induction 1 as [ | e ev He _ IH]; [reflexivity | ].
  unfold queries_run in *. cbn [List.filter].
  destruct e as [[ | | | | | | ] | ]; try discriminate He.
  cbn [is_query length]. rewrite IH. reflexivity.
Qed.

Section Boost.
Variables (trial1 trial2 : string) (sims : gmap string Q).

(** The boost loop reads the cache at most twice per member. *)
Lemma boost_loop_length (members : list string) :
  forall (acc : Q) (t : tx),
  exists ev,
    snd (boost_loop trial1 trial2 sims members acc t)
    = mkTx (db t) (trace t ++ ev) /\
    length ev <= 2 * length members.
Proof.
  induction members as [ | m rest IH]; intros acc t.
  - exists []. cbn [boost_loop]. unfold ret. cbn [snd].
    rewrite tx_eta. split; [reflexivity | cbn; lia].
  - cbn [boost_loop].
    destruct (String.eqb m trial1 || String.eqb m trial2).
    { destruct (IH acc t) as [ev [-> Hlen]]. exists ev.
      split; [reflexivity | cbn [length]; lia]. }
    unfold bind, has_key, getitem, lift, ret, get_cached_similarity, run_read.
    destruct (sims !! m) as [v | ]; cbn [db trace].
    + destruct (cached_similarity (db t) trial2 m) as [o | ].
      * destruct (IH (acc + Py.min v o * (1 # 10))%Q
                    (mkTx (db t) (trace t ++ [Run (QCachedSimilarity trial2 m)])))
          as [ev [-> Hlen]].
        cbn [db trace]. rewrite <- app_assoc.
        eexists. split; [reflexivity | cbn [length app]; lia].
      * destruct (IH acc
                    (mkTx (db t) (trace t ++ [Run (QCachedSimilarity trial2 m)])))
          as [ev [-> Hlen]].
        cbn [db trace]. rewrite <- app_assoc.
        eexists. split; [reflexivity | cbn [length app]; lia].
    + destruct (cached_similarity (db t) trial1 m) as [v | ]; cbn [db trace].
      * destruct (cached_similarity (db t) trial2 m) as [o | ].
        -- destruct (IH (acc + Py.min v o * (1 # 10))%Q
                      (mkTx (db t)
                         ((trace t ++ [Run (QCachedSimilarity trial1 m)])
                            ++ [Run (QCachedSimilarity trial2 m)])))
             as [ev [-> Hlen]].
           cbn [db trace]. rewrite <- !app_assoc.
           eexists. split; [reflexivity | cbn [length app]; lia].
        -- destruct (IH acc
                      (mkTx (db t)
                         ((trace t ++ [Run (QCachedSimilarity trial1 m)])
                            ++ [Run (QCachedSimilarity trial2 m)])))
             as [ev [-> Hlen]].
           cbn [db trace]. rewrite <- !app_assoc.
           eexists. split; [reflexivity | cbn [length app]; lia].
      * destruct (IH acc
                    (mkTx (db t) (trace t ++ [Run (QCachedSimilarity trial1 m)])))
          as [ev [-> Hlen]].
        cbn [db trace]. rewrite <- app_assoc.
        eexists. split; [reflexivity | cbn [length app]; lia].
Qed.

End Boost.

Lemma compute_query_bound (t : tx) (a b : string) (members : list string)
    (sims : gmap string Q) :
  exists ev,
    trace (snd (compute_optimized_jaccard a b members sims t)) = trace t ++ ev /\
    queries_run ev <= 2 * length members + 4.
Proof.
  destruct (cached_similarity (db t) a b) as [c | ] eqn:Hc.
  - rewrite (compute_hit a b members sims t c Hc). cbn [snd trace].
    eexists. split; [reflexivity | cbn; lia].
  - destruct (Nat.eq_dec (size (node_neighbors (db t) a ∪ node_neighbors (db t) b)) O)
      as [HU | HU].
    + rewrite (compute_miss_empty a b members sims t Hc HU). cbn [snd trace].
      eexists. split; [reflexivity | cbn; lia].
    + destruct (compute_miss a b members sims t Hc HU) as [r [ev [Hrun [_ Hev]]]].
      rewrite Hrun. cbn [snd trace].
      eexists. split; [reflexivity | ].
      assert (Hlen : length ev <= 2 * length members).
      { unfold compute_optimized_jaccard, bind, emit, lift, ret,
          get_cached_similarity, get_node_neighbors,
          create_similarity_relationship, run_read, run_write in Hrun.
        cbn [db trace] in Hrun. rewrite Hc in Hrun. cbn [db trace] in Hrun.
        destruct (size (node_neighbors (db t) a ∪ node_neighbors (db t) b))
          as [ | n] eqn:Hn; [congruence | ].
        cbn [Nat.eqb truediv] in Hrun.
        match type of Hrun with
        | context [boost_loop a b sims members 0%Q ?t0] =>
            destruct (boost_loop_length a b sims members 0%Q t0) as [ev' [Hsnd Hlen]];
            destruct (boost_loop a b sims members 0%Q t0) as [[bf | e] t'] eqn:Hb
        end; [ | discriminate Hrun].
        cbn [snd] in Hsnd. subst t'. cbn [db trace] in Hrun.
        injection Hrun as _ _ Htr.
        rewrite <- !app_assoc in Htr. cbn [app] in Htr.
        apply app_inv_head in Htr. injection Htr as Htr.
        apply app_inj_tail in Htr. destruct Htr as [<- _]. exact Hlen. }
      rewrite !queries_run_app, (queries_run_reads ev Hev). cbn. lia.
Qed.

(** X23: what a scorer call costs.  On a cache hit it runs one query, the
    cache read.  On a miss it runs at most [2 * n + 4] queries for a
    member list of [n] trials: the cache read, two neighbor lookups, at
    most two cache reads per member, and the write. *)
Theorem scorer_query_count (t : tx) (a b : string) (members : list string)
    (sims : gmap string Q) :
  exists ev,
    trace (snd (compute_optimized_jaccard a b members sims t)) = trace t ++ ev /\
    queries_run ev <= 2 * length members + 4 /\
    (cached_similarity (db t) a b <> None -> queries_run ev = 1).
Proof.
  destruct (compute_query_bound t a b members sims) as [ev [Htr Hn]].
  exists ev. split; [exact Htr | split; [exact Hn | ]].
  intros Hhit. destruct (cached_similarity (db t) a b) as [c | ] eqn:Hc;
    [ | congruence].
  rewrite (compute_hit a b members sims t c Hc) in Htr. cbn [snd trace] in Htr.
  apply app_inv_head in Htr. subst ev. reflexivity.
Qed.

Lemma scorer_query_count_witness :
  cached_similarity (db warm_tx) "A" "C" <> None /\
  exists ev,
    trace (snd (compute_optimized_jaccard "A" "C" ["B"; "C"] ∅ warm_tx))
    = trace warm_tx ++ ev /\
    queries_run ev = 1.
Proof.
  assert (H : cached_similarity (db warm_tx) "A" "C" <> None) by discriminate.
  split; [exact H | ].
  destruct (scorer_query_count warm_tx "A" "C" ["B"; "C"] ∅) as [ev [Hev [_ Hone]]].
  exists ev. split; [exact Hev | exact (Hone H)].
Defined.

Lemma score_loop_query_count (q : string) (ms : list string) (sims : gmap string Q)
    (todo : list string) :
  forall (acc : list entry) (t : tx),
  exists ev,
    trace (snd (score_loop q ms sims todo acc t)) = trace t ++ ev /\
    queries_run ev <= length todo * (2 * length ms + 4).
Proof.
  induction todo as [ | m rest IH]; intros acc t.
  - exists []. cbn [score_loop]. unfold ret. cbn [snd].
    rewrite app_nil_r. split; [reflexivity | cbn; lia].
  - cbn [score_loop]. unfold bind.
    destruct (compute_query_bound t q m ms sims) as [ev1 [Htr1 Hn1]].
    destruct (compute_run q m ms sims t) as [r [g1 [ev0 [Hrun _]]]].
    rewrite Hrun in *. cbn [snd trace] in Htr1.
    destruct (IH (acc ++ [mkEntry m r])
                (mkTx g1 (trace t ++ Score q m ms :: ev0)))
      as [ev2 [-> Hn2]].
    cbn [trace]. rewrite Htr1, <- app_assoc.
    eexists. split; [reflexivity | ].
    rewrite queries_run_app. cbn [length]. lia.
Qed.

Lemma replay_events_count (q : string) (ms : list string) (l : list entry) :
  queries_run (replay_events q ms l) = length l.
Proof.
  induction l as [ | e l IH]; [reflexivity | ].
  unfold queries_run in *. cbn [replay_events flat_map app List.filter is_query length].
  fold (replay_events q ms l). rewrite IH. reflexivity.
Qed.

(** X24: what a query costs.  For an entity with [n] candidates the first
    query runs at most [3 + n * (2 * n + 4)] queries, and the same query
    asked again runs at most [3 + n]: the three lookups of the ranker and
    one cache read per candidate. *)
Theorem ranker_query_count (t : tx) (trial_id : string) (k k' : Z) :
  let n := length (candidates (db t) trial_id) in
  let t1 := snd (find_similar_trials_optimized trial_id k t) in
  (exists ev,
     trace t1 = trace t ++ ev /\ queries_run ev <= 3 + n * (2 * n + 4)) /\
  (exists ev,
     trace (snd (find_similar_trials_optimized trial_id k' t1)) = trace t1 ++ ev /\
     queries_run ev <= 3 + n).
Proof.
  cbn zeta. rewrite !find_similar_state. split.
  - rewrite before_sort_eq. unfold candidates.
    destruct (single (node_community_rows (db t) trial_id)) as [[cid | ] | ].
    + cbn zeta.
      set (ms := without_first trial_id (community_members_rows (db t) cid)).
      match goal with
      | |- context [score_loop trial_id ms ?d ms [] ?t0] =>
          destruct (score_loop_query_count trial_id ms d ms [] t0) as [ev [-> Hn]]
      end.
      cbn [trace]. rewrite <- app_assoc.
      eexists. split; [reflexivity | ].
      rewrite queries_run_app. cbn. cbn in Hn. lia.
    + cbn [snd trace]. eexists. split; [reflexivity | cbn; lia].
    + cbn [snd trace]. eexists. split; [reflexivity | cbn; lia].
  - destruct (before_sort_caches trial_id t) as [l [t1 [Hrun [Hl [Hc Hs]]]]].
    rewrite Hrun. cbn [snd].
    pose proof (same_structure_candidates _ _ trial_id Hs) as Hcand.
    rewrite <- Hl in Hcand. rewrite <- Hl, List.length_map.
    rewrite before_sort_eq. unfold candidates in Hcand.
    destruct (single (node_community_rows (db t1) trial_id)) as [[cid | ] | ].
    + cbn zeta. rewrite Hcand.
      rewrite score_loop_replay by exact Hc. cbn [snd trace].
      rewrite <- app_assoc.
      eexists. split; [reflexivity | ].
      rewrite queries_run_app, replay_events_count. cbn. lia.
    + cbn [snd trace]. eexists. split; [reflexivity | cbn; lia].
    + cbn [snd trace]. eexists. split; [reflexivity | cbn; lia].
Qed.

End Cost.
